(** * Agelum document store: the MCP tool handlers [create], [move], [get]

    A shallow embedding of the TypeScript module that serves the three
    tools over the [agelum/] directory tree of a repository, and the
    properties of its file naming, root discovery and task moves.

    Conventions of the embedding.
    - A JavaScript string is the sequence of its UTF-16 code units; the
      embedding covers the strings whose code units are below 256, one
      [ascii] per code unit.
    - A JavaScript number is an IEEE 754 binary64 value: a [spec_float]
      that satisfies [valid_binary 53 1024].
    - A path is the list of its components (POSIX, normalised), which
      is what [path.join] and [path.dirname] produce: the names below
      the root for an absolute path; for a relative one, [.] first,
      then the [..]s that leave the working directory.  A path string
      given from outside is kept as the string it is.
    - [process.cwd()] is an argument, [cwd]: the absolute path that the
      relative paths of the [fs] calls start from.  A file name takes
      255 bytes at most.
    - [throw] is an error result; the [fs] calls thread the file system
      through a state-and-error monad. *)

From Stdlib Require Import ZArith NArith PArith Bool List String Ascii Lia.
From Stdlib Require Import Floats.SpecFloat.
Import ListNotations.

Open Scope string_scope.

(** ** The JavaScript built-ins the module calls *)

Module JS.

(** *** Strings *)

Definition code (c : ascii) : N := N_of_ascii c.

(** [\s] in a regular expression, and the characters [trim] strips:
    TAB, LF, VT, FF, CR, SPACE and NO-BREAK SPACE are the ones below 256. *)
Definition isWhiteSpace (c : ascii) : bool :=
  let n := code c in
  ((9 <=? n) && (n <=? 13) || (n =? 32) || (n =? 160))%N.

Fixpoint trimStart (s : string) : string :=
  match s with
  | "" => ""
  | String c s' => if isWhiteSpace c then trimStart s' else s
  end.

Fixpoint trimEnd (s : string) : string :=
  match s with
  | "" => ""
  | String c s' =>
      match trimEnd s' with
      | "" => if isWhiteSpace c then "" else String c ""
      | r => String c r
      end
  end.

(** [s.trim()] *)
Definition trim (s : string) : string := trimEnd (trimStart s).

(** [s.replace(/[set]/g, by)] for a character class and a replacement
    string that holds no [$] pattern. *)
Fixpoint replaceClass (set : ascii -> bool) (by_ : string) (s : string) : string :=
  match s with
  | "" => ""
  | String c s' =>
      if set c then by_ ++ replaceClass set by_ s'
      else String c (replaceClass set by_ s')
  end.

(** [s.replace(/[set]+/g, by)]: every maximal run of the class is
    replaced once. *)
Fixpoint replaceRunsFrom (set : ascii -> bool) (by_ : string)
         (inRun : bool) (s : string) : string :=
  match s with
  | "" => ""
  | String c s' =>
      if set c then
        if inRun then replaceRunsFrom set by_ true s'
        else by_ ++ replaceRunsFrom set by_ true s'
      else String c (replaceRunsFrom set by_ false s')
  end.

Definition replaceRuns (set : ascii -> bool) (by_ : string) (s : string) : string :=
  replaceRunsFrom set by_ false s.

(** [s.toLowerCase()] on code units below 256: A-Z, and the Latin-1
    capitals U+00C0..U+00DE without the multiplication sign U+00D7. *)
Definition lowerChar (c : ascii) : ascii :=
  let n := code c in
  if ((65 <=? n) && (n <=? 90)
      || (192 <=? n) && (n <=? 222) && negb (n =? 215))%N
  then ascii_of_N (n + 32) else c.

Fixpoint toLowerCase (s : string) : string :=
  match s with
  | "" => ""
  | String c s' => String (lowerChar c) (toLowerCase s')
  end.

(** [s.endsWith(t)] *)
Definition endsWith (s t : string) : bool :=
  let n := String.length s in
  let k := String.length t in
  (k <=? n)%nat && (substring (n - k) k s =? t).

Fixpoint repeatChar (c : ascii) (n : nat) : string :=
  match n with
  | O => ""
  | S n' => String c (repeatChar c n')
  end.

(** [s.padStart(len, c)] for a one-character filler. *)
Definition padStart (len : nat) (c : ascii) (s : string) : string :=
  repeatChar c (len - String.length s) ++ s.

(** [xs.join(sep)] *)
Definition join (sep : string) (xs : list string) : string := String.concat sep xs.

(** A string is falsy exactly when it is empty. *)
Definition truthy (s : string) : bool := negb (s =? "").

(** *** Numbers *)

Definition number : Type := spec_float.

Definition prec : Z := 53.
Definition emax : Z := 1024.

(** The values a JavaScript number takes. *)
Definition binary64 (x : number) : Prop := valid_binary prec emax x = true.

Definition NaN : number := S754_nan.

(** [Number.isFinite(x)] *)
Definition isFinite (x : number) : bool :=
  match x with
  | S754_zero _ | S754_finite _ _ _ => true
  | S754_infinity _ | S754_nan => false
  end.

(** [x < 0]: false on NaN and on both zeros. *)
Definition ltZero (x : number) : bool :=
  match x with
  | S754_finite true _ _ | S754_infinity true => true
  | _ => false
  end.

(** The number of a positive integer below [2^53], with a sign: the
    mantissa is shifted up to 53 bits. *)
Definition ofPos (neg : bool) (p : positive) : number :=
  let d := Z.pos (digits2_pos p) in
  S754_finite neg (Pos.shiftl p (Z.to_N (prec - d))) (d - prec).

(** [Math.trunc(x)]: the integral number nearest [x] towards zero; the
    zeros, the infinities and NaN are returned as they are. *)
Definition trunc (x : number) : number :=
  match x with
  | S754_finite s m e =>
      if (0 <=? e)%Z then x
      else match N.shiftr (Npos m) (Z.to_N (- e)) with
           | N0 => S754_zero s
           | Npos p => ofPos s p
           end
  | _ => x
  end.

(** [Number.isInteger(x)] *)
Definition isInteger (x : number) : bool :=
  match x with
  | S754_zero _ => true
  | S754_finite _ m e =>
      (0 <=? e)%Z || (N.land (Npos m) (N.ones (Z.to_N (- e))) =? 0)%N
  | _ => false
  end.

(** **** [Number::toString] in radix 10 (ECMA-262, 6.1.6.1.20) *)

(** [floor (log2 (a / b))] *)
Definition floorLog2 (a b : positive) : Z :=
  let l := (Z.log2 (Z.pos a) - Z.log2 (Z.pos b))%Z in
  if (Z.pos b * 2 ^ Z.max l 0 <=? Z.pos a * 2 ^ Z.max (- l) 0)%Z
  then l else (l - 1)%Z.

(** The number of the positive rational [a / b]: round to nearest,
    ties to even. *)
Definition roundQ (a b : positive) : number :=
  let e := Z.max (floorLog2 a b - 52) (-1074) in
  let A := (Z.pos a * 2 ^ Z.max (- e) 0)%Z in
  let B := (Z.pos b * 2 ^ Z.max e 0)%Z in
  let q := (A / B)%Z in
  let r := (A mod B)%Z in
  let m := match (2 * r ?= B)%Z with
           | Lt => q
           | Gt => (q + 1)%Z
           | Eq => if Z.even q then q else (q + 1)%Z
           end in
  let '(m, e) := if (m =? 2 ^ 53)%Z then (2 ^ 52, e + 1)%Z else (m, e) in
  match m with
  | Z.pos p => if (e <=? emax - prec)%Z then S754_finite false p e
               else S754_infinity false
  | _ => S754_zero false
  end.

(** [s * 10^j] as a fraction. *)
Definition scaled (s : positive) (j : Z) : positive * positive :=
  if (0 <=? j)%Z then (s * Z.to_pos (10 ^ j), 1)%positive
  else (s, Z.to_pos (10 ^ (- j))).

(** "the Number value for [s * 10^j] is [m * 2^e]" *)
Definition represents (m : positive) (e : Z) (s : Z) (j : Z) : bool :=
  match s with
  | Z.pos p =>
      let '(a, b) := scaled p j in
      match roundQ a b with
      | S754_finite false m' e' => (m' =? m)%positive && (e' =? e)%Z
      | _ => false
      end
  | _ => false
  end.

(** The candidates with exponent [j]: the two multiples of [10^j] next
    to [m * 2^e]; of two that represent it, the nearer, and the even one
    on a tie. *)
Definition candidate (m : positive) (e : Z) (j : Z) : option Z :=
  let num := (Z.pos m * 2 ^ Z.max e 0 * 10 ^ Z.max (- j) 0)%Z in
  let den := (2 ^ Z.max (- e) 0 * 10 ^ Z.max j 0)%Z in
  let lo := (num / den)%Z in
  let r := (num mod den)%Z in
  match represents m e lo j, represents m e (lo + 1) j with
  | true, true =>
      match (2 * r ?= den)%Z with
      | Lt => Some lo
      | Gt => Some (lo + 1)%Z
      | Eq => Some (if Z.even lo then lo else lo + 1)%Z
      end
  | true, false => Some lo
  | false, true => Some (lo + 1)%Z
  | false, false => None
  end.

(** The largest exponent that has a candidate, searched downwards: it
    gives the fewest digits. *)
Fixpoint shortestFrom (m : positive) (e : Z) (fuel : nat) (j : Z)
  : option (Z * Z) :=
  match fuel with
  | O => None
  | S fuel' =>
      match candidate m e j with
      | Some s => Some (s, j)
      | None => shortestFrom m e fuel' (j - 1)
      end
  end.

(** No multiple of [10^j] is that near to [m * 2^e] for [j] above
    this bound: [10^j] is more than twice the value. *)
Definition topExponent (m : positive) (e : Z) : Z :=
  ((Z.log2 (Z.pos m) + e + 2) * 30103 / 100000 + 2)%Z.

Definition shortest (m : positive) (e : Z) : option (Z * Z) :=
  let top := topExponent m e in
  shortestFrom m e (Z.to_nat (top + 1100)) top.

Definition digitChar (d : N) : ascii := ascii_of_N (48 + d).

Fixpoint decimalFrom (fuel : nat) (n : N) (acc : string) : string :=
  match fuel with
  | O => acc
  | S fuel' =>
      let acc' := String (digitChar (n mod 10)) acc in
      if (n <? 10)%N then acc' else decimalFrom fuel' (n / 10) acc'
  end.

(** The decimal digits of a natural number. *)
Definition decimal (n : N) : string :=
  decimalFrom (S (N.to_nat (N.log2 n))) n "".

(** Steps 6 to 10: the digits [ds] of [s] and the exponent [n], laid
    out as an integer, a fraction or in exponent notation. *)
Definition layout (ds : string) (n : Z) : string :=
  let k := Z.of_nat (String.length ds) in
  if ((k <=? n) && (n <=? 21))%Z then
    ds ++ repeatChar "0" (Z.to_nat (n - k))
  else if ((0 <? n) && (n <=? 21))%Z then
    substring 0 (Z.to_nat n) ds ++ "."
      ++ substring (Z.to_nat n) (Z.to_nat (k - n)) ds
  else if ((-6 <? n) && (n <=? 0))%Z then
    "0." ++ repeatChar "0" (Z.to_nat (- n)) ++ ds
  else
    let mantissa :=
      match ds with
      | String d "" => ds
      | String d rest => String d ("." ++ rest)
      | "" => ""
      end in
    mantissa ++ "e" ++ (if (0 <=? n - 1)%Z then "+" else "-")
      ++ decimal (Z.to_N (Z.abs (n - 1))).

Definition toStringPos (m : positive) (e : Z) : string :=
  match shortest m e with
  | Some (s, j) =>
      let ds := decimal (Z.to_N s) in
      layout ds (Z.of_nat (String.length ds) + j)
  | None => ""
  end.

(** [String(x)] *)
Definition toString (x : number) : string :=
  match x with
  | S754_nan => "NaN"
  | S754_zero _ => "0"
  | S754_infinity false => "Infinity"
  | S754_infinity true => "-Infinity"
  | S754_finite false m e => toStringPos m e
  | S754_finite true m e => "-" ++ toStringPos m e
  end.

End JS.

(** ** [node:path], POSIX flavour *)

Module Path.

(** A normalised path as the code holds it: its components, outermost
    first.  An absolute path is the list of the names below the root,
    and [[]] is the root directory.  A relative path begins with [.],
    the working directory; the [..]s that leave it come next, then the
    names. *)
Definition path : Type := list string.

Definition eqb (p q : path) : bool :=
  if list_eq_dec string_dec p q then true else false.

(** [path.isAbsolute(p)] *)
Definition isAbsolute (p : path) : bool :=
  match p with
  | c :: _ => negb (c =? ".")
  | [] => true
  end.

(** The pieces of a string between its slashes. *)
Fixpoint segments (s : string) : list string :=
  match s with
  | "" => [""]
  | String c s' =>
      if (c =? "/")%char then "" :: segments s'
      else match segments s' with
           | x :: xs => String c x :: xs
           | [] => [String c ""]
           end
  end.

(** The directory above: the last name is dropped; the root is its own
    parent, and a relative path that has no name left leaves one more
    directory. *)
Definition up (p : path) : path :=
  let c := last p "" in
  if (c =? ".") || (c =? "..") then (p ++ [".."])%list
  else removelast p.

(** One step of normalisation: empty pieces and [.] are dropped, [..]
    leaves the directory. *)
Definition enter (p : path) (seg : string) : path :=
  if seg =? "" then p
  else if seg =? "." then p
  else if seg =? ".." then up p
  else (p ++ [seg])%list.

(** [path.join(p, s)] *)
Definition join (p : path) (s : string) : path :=
  fold_left enter (segments s) p.

(** [path.dirname(p)]; the root is its own directory name, and so is
    the working directory. *)
Definition dirname (p : path) : path :=
  match p with
  | [c] => if c =? "." then p else []
  | _ => removelast p
  end.

(** A path string: one the [path] functions computed, or one given
    from outside, which need not be normalised. *)
Inductive text :=
| Computed (p : path)
| Given (s : string).

(** Where the reading of a string begins: at the root for a string
    that begins with a slash, at the working directory otherwise. *)
Definition start (s : string) : path :=
  match s with
  | String "/" _ => []
  | _ => ["."]
  end.

(** The path a path string is taken for when it is the first argument
    of [path.join]. *)
Definition read (t : text) : path :=
  match t with
  | Computed p => p
  | Given s => fold_left enter (segments s) (start s)
  end.

(** One component followed from a place. *)
Definition step (place : path) (c : string) : path :=
  if c =? "." then place
  else if c =? ".." then removelast place
  else (place ++ [c])%list.

(** Where a path leads for a process whose working directory is
    [cwd]: the names below the root. *)
Definition locate (cwd : path) (p : path) : path :=
  fold_left step p (if isAbsolute p then [] else cwd).

(** [under d q] is the rest of [q] below [d] when [q] is [d] or lies
    inside it. *)
Fixpoint under (d q : path) : option path :=
  match d, q with
  | [], _ => Some q
  | x :: d', y :: q' => if x =? y then under d' q' else None
  | _ :: _, [] => None
  end.

(** The text of a path. *)
Definition toString (p : path) : string :=
  match p with
  | [] => "/"
  | c :: rest =>
      if c =? "." then
        match rest with
        | [] => "."
        | _ => String.concat "/" rest
        end
      else "/" ++ String.concat "/" p
  end.

End Path.

(** ** Errors *)

Inductive errno :=
| ENOENT | EEXIST | ENOTDIR | EISDIR | EINVAL | ENOTEMPTY | ENAMETOOLONG.

(** One constructor for each [throw new Error(...)] of the module, named
    after the error kind it stands for, and one for the exceptions of the
    [fs] calls, with the path the call was given. *)
Inductive error :=
| RootNotFound                          (* Could not find repository root *)
| InvalidTitle                          (* title is required *)
| PriorityRequired                      (* priority is required for task *)
| StoryPointsRequired                   (* storyPoints is required for task *)
| InvalidPriority                       (* priority must be a non-negative number *)
| StateRequired                         (* state is required for task *)
| AlreadyExists (p : Path.path)         (* File already exists: p *)
| InvalidTransition                     (* fromState and toState must be different *)
| TitleOrFileNameRequired               (* title is required if fileName is not provided *)
| SourceNotFound (p : Path.path)        (* Source file not found: p *)
| TargetExists (p : Path.path)          (* Target file already exists: p *)
| UnresolvableFileName                  (* Could not resolve filename from arguments *)
| UnknownOperation (name : string)      (* Unknown tool: name *)
| FsError (code : errno) (p : Path.path).

Inductive result (A : Type) :=
| Ok (a : A)
| Throw (e : error).

Arguments Ok {A} a.
Arguments Throw {A} e.

(** ** [node:fs] *)

Module Fs.

Inductive node :=
| File (content : string)
| Dir.

(** The file system: what is at each place, a place being the list of
    the names that lead to it from the root. *)
Definition t : Type := Path.path -> option node.

Definition empty : t := fun _ => None.

(** The root directory is always there. *)
Definition stat (fs : t) (p : Path.path) : option node :=
  match p with
  | [] => Some Dir
  | _ => fs p
  end.

Definition set (fs : t) (p : Path.path) (n : option node) : t :=
  fun q => if Path.eqb q p then n else fs q.

(** Code that reads and writes the file system and may throw. *)
Definition M (A : Type) : Type := t -> result A * t.

Definition ret {A} (a : A) : M A := fun fs => (Ok a, fs).

Definition throw {A} (e : error) : M A := fun fs => (Throw e, fs).

Definition bind {A B} (c : M A) (k : A -> M B) : M B :=
  fun fs =>
    match c fs with
    | (Ok a, fs') => k a fs'
    | (Throw e, fs') => (Throw e, fs')
    end.

Definition lift {A} (r : result A) : M A := fun fs => (r, fs).

(** The bytes a name takes on disk, in UTF-8: one for a code unit
    below 128, two for the others. *)
Fixpoint nameBytes (s : string) : nat :=
  match s with
  | "" => 0
  | String c s' => (if (JS.code c <? 128)%N then 1 else 2) + nameBytes s'
  end.

(** The file systems keep no name of more than 255 bytes; a call with
    a longer one fails with [ENAMETOOLONG]. *)
Definition NAME_MAX : nat := 255.

Definition nameFits (c : string) : bool := (nameBytes c <=? NAME_MAX)%nat.

Definition fits (p : Path.path) : bool := forallb nameFits p.

(** [fs.existsSync(p)] for a path the code computed; every failure of
    the look-up answers [false]. *)
Definition existsSync (cwd p : Path.path) : M bool :=
  fun fs =>
    (Ok (fits p && match stat fs (Path.locate cwd p) with
                   | Some _ => true
                   | None => false
                   end), fs).

(** The place the operating system finds when it follows a string one
    piece at a time: each piece is looked up in a directory that is
    there, [..] included. *)
Fixpoint walk (fs : t) (place : Path.path) (segs : list string)
  : option Path.path :=
  match segs with
  | [] =>
      match stat fs place with
      | Some _ => Some place
      | None => None
      end
  | seg :: rest =>
      match stat fs place with
      | Some Dir =>
          if (seg =? "") || (seg =? ".") then walk fs place rest
          else if seg =? ".." then walk fs (removelast place) rest
          else if nameFits seg then
            match stat fs (place ++ [seg])%list with
            | Some _ => walk fs (place ++ [seg])%list rest
            | None => None
            end
          else None
      | _ => None
      end
  end.

(** [fs.existsSync(s)] for a string given from outside. *)
Definition existsSyncGiven (cwd : Path.path) (s : string) : M bool :=
  fun fs =>
    (Ok (negb (s =? "")
         && match walk fs (Path.locate cwd (Path.start s)) (Path.segments s) with
            | Some _ => true
            | None => false
            end), fs).

(** The missing directories along a place are made, outermost first; a
    file in the way throws, with the path the call was given. *)
Fixpoint mkdirFrom (asked : Path.path) (made : Path.path) (rest : list string)
  : M unit :=
  match rest with
  | [] => ret tt
  | c :: rest' =>
      let q := (made ++ [c])%list in
      fun fs =>
        match stat fs q with
        | None => mkdirFrom asked q rest' (set fs q (Some Dir))
        | Some Dir => mkdirFrom asked q rest' fs
        | Some (File _) =>
            (Throw (FsError (match rest' with [] => EEXIST | _ => ENOTDIR end)
                      asked), fs)
        end
  end.

(** [fs.mkdirSync(p, { recursive: true })] *)
Definition mkdirSync (cwd p : Path.path) : M unit :=
  fun fs =>
    if fits p then mkdirFrom p [] (Path.locate cwd p) fs
    else (Throw (FsError ENAMETOOLONG p), fs).

(** [fs.writeFileSync(p, data)]: the file is created or replaced; its
    directory must be there. *)
Definition writeFileSync (cwd p : Path.path) (data : string) : M unit :=
  fun fs =>
    let place := Path.locate cwd p in
    if negb (fits p) then (Throw (FsError ENAMETOOLONG p), fs)
    else
      match stat fs place with
      | Some Dir => (Throw (FsError EISDIR p), fs)
      | _ =>
          match stat fs (removelast place) with
          | Some Dir => (Ok tt, set fs place (Some (File data)))
          | Some (File _) => (Throw (FsError ENOTDIR p), fs)
          | None => (Throw (FsError ENOENT p), fs)
          end
      end.

(** The tree below [src] taken to [dst]. *)
Definition moveTree (fs : t) (src dst : Path.path) : t :=
  fun q =>
    match Path.under dst q with
    | Some rest => fs (src ++ rest)%list
    | None =>
        match Path.under src q with
        | Some _ => None
        | None => fs q
        end
    end.

(** [fs.renameSync(src, dst)] onto a path where nothing is: a file is
    taken to [dst], a directory with all that is below it.  The handlers
    call it only after [existsSync(dst)] was false; onto a file that is
    there, a file replaces it, and the other cases throw. *)
Definition renameSync (cwd src dst : Path.path) : M unit :=
  fun fs =>
    let from := Path.locate cwd src in
    let to := Path.locate cwd dst in
    if negb (fits src) then (Throw (FsError ENAMETOOLONG src), fs)
    else if negb (fits dst) then (Throw (FsError ENAMETOOLONG dst), fs)
    else if Path.eqb from [] then (Throw (FsError EINVAL src), fs)
    else
      match stat fs from with
      | None => (Throw (FsError ENOENT src), fs)
      | Some n =>
          match stat fs (removelast to) with
          | None => (Throw (FsError ENOENT dst), fs)
          | Some (File _) => (Throw (FsError ENOTDIR dst), fs)
          | Some Dir =>
              match n, stat fs to with
              | File c, None | File c, Some (File _) =>
                  (Ok tt, set (set fs from None) to (Some (File c)))
              | File _, Some Dir => (Throw (FsError EISDIR dst), fs)
              | Dir, None =>
                  match Path.under from to with
                  | Some _ => (Throw (FsError EINVAL dst), fs)
                  | None => (Ok tt, moveTree fs from to)
                  end
              | Dir, Some (File _) => (Throw (FsError ENOTDIR dst), fs)
              | Dir, Some Dir => (Throw (FsError ENOTEMPTY dst), fs)
              end
          end
      end.

End Fs.

Notation "x <- c ;; k" := (Fs.bind c (fun x => k))
  (at level 61, c at next level, right associativity).
Notation "c ;;; k" := (Fs.bind c (fun _ => k))
  (at level 61, right associativity).

(** ** The module: types and constants *)

Inductive TaskState := pending | doing | done.

Inductive DocumentType :=
| task | epic | plan | doc | command | skill | agent | context.

Definition TaskState_eqb (a b : TaskState) : bool :=
  match a, b with
  | pending, pending | doing, doing | done, done => true
  | _, _ => false
  end.

(** The string a state or a type is in JavaScript. *)
Definition stateName (s : TaskState) : string :=
  match s with
  | pending => "pending"
  | doing => "doing"
  | done => "done"
  end.

Definition typeName (t : DocumentType) : string :=
  match t with
  | task => "task"
  | epic => "epic"
  | plan => "plan"
  | doc => "doc"
  | command => "command"
  | skill => "skill"
  | agent => "agent"
  | context => "context"
  end.

Definition AGELUM_STRUCTURE : list string :=
  [ "docs"; "plans"; "tasks/pending"; "tasks/doing"; "tasks/done";
    "commands"; "skills"; "agents"; "context"; "epics" ].

(** The record has no entry for [task]. *)
Definition nonTaskTypeToDir (t : DocumentType) : option string :=
  match t with
  | task => None
  | epic => Some "epics"
  | plan => Some "plans"
  | doc => Some "docs"
  | command => Some "commands"
  | skill => Some "skills"
  | agent => Some "agents"
  | context => Some "context"
  end.

Definition LF : string := String (ascii_of_N 10) "".

(** ** Helpers *)

Definition getAgelumPath (repoPath : Path.text) : Path.path :=
  Path.join (Path.read repoPath) "agelum".

(** [cwd] is [process.cwd()], the directory the relative paths of the
    [fs] calls start from. *)
Definition ensureAgelumStructure (cwd : Path.path) (repoPath : Path.text)
  : Fs.M Path.path :=
  let agelumPath := getAgelumPath repoPath in
  Fs.mkdirSync cwd agelumPath ;;;
  fold_right
    (fun dir rest => Fs.mkdirSync cwd (Path.join agelumPath dir) ;;; rest)
    (Fs.ret agelumPath)
    AGELUM_STRUCTURE.

(** The class of the slash and the backslash. *)
Definition isSeparator (c : ascii) : bool :=
  ((JS.code c =? 47) || (JS.code c =? 92))%N.

(** The class of NUL, [<], [>], [:], the double quote, [|], [?] and [*],
    by code unit. *)
Definition isReserved (c : ascii) : bool :=
  existsb (N.eqb (JS.code c)) [0; 60; 62; 58; 34; 124; 63; 42]%N.

Definition sanitizeFileNamePart (value : string) : string :=
  JS.trim
    (JS.replaceRuns JS.isWhiteSpace " "
       (JS.replaceClass isReserved ""
          (JS.replaceClass isSeparator "-" value))).

Definition ensureMdExtension (fileName : string) : string :=
  let trimmed := JS.trim fileName in
  if JS.endsWith (JS.toLowerCase trimmed) ".md" then trimmed
  else trimmed ++ ".md".

Definition formatStoryPoints (value : JS.number) : string :=
  if JS.isInteger value then JS.toString value else JS.toString value.

Definition formatPriority (value : JS.number) : result string :=
  if negb (JS.isFinite value) || JS.ltZero value then Throw InvalidPriority
  else Ok (JS.padStart 2 "0" (JS.toString (JS.trunc value))).

Definition buildFileName (type : DocumentType) (title : string)
           (priority storyPoints : option JS.number) : result string :=
  let title := sanitizeFileNamePart title in
  if negb (JS.truthy title) then Throw InvalidTitle
  else
    match type with
    | task =>
        match priority with
        | None => Throw PriorityRequired
        | Some p =>
            match storyPoints with
            | None => Throw StoryPointsRequired
            | Some sp =>
                match formatPriority p with
                | Throw e => Throw e
                | Ok priority =>
                    let storyPoints := formatStoryPoints sp in
                    Ok (priority ++ " " ++ title ++ " (" ++ storyPoints ++ ").md")
                end
            end
        end
    | _ =>
        match storyPoints with
        | Some sp =>
            let storyPoints := formatStoryPoints sp in
            Ok (title ++ " (" ++ storyPoints ++ ").md")
        | None => Ok (title ++ ".md")
        end
    end.

(** [lines.push(line)] *)
Definition push (lines : list string) (line : string) : list string :=
  List.app lines [line].

(** The lines of the front matter; [now] is [new Date().toISOString()]. *)
Definition frontmatterLines (now : string) (type : DocumentType)
           (title : string) (state : option TaskState)
           (priority storyPoints : option JS.number) : result (list string) :=
  let lines :=
    [ "---"; "title: " ++ title; "created: " ++ now;
      "type: " ++ typeName type ] in
  let pushStoryPoints (lines : list string) :=
    match storyPoints with
    | Some sp => push lines ("storyPoints: " ++ formatStoryPoints sp)
    | None => lines
    end in
  match type with
  | task =>
      match state with
      | None => Throw StateRequired
      | Some st =>
          let lines := push lines ("state: " ++ stateName st) in
          match priority with
          | Some p =>
              match formatPriority p with
              | Throw e => Throw e
              | Ok pr =>
                  let lines := push lines ("priority: " ++ pr) in
                  Ok (push (pushStoryPoints lines) "---")
              end
          | None => Ok (push (pushStoryPoints lines) "---")
          end
      end
  | _ => Ok (push (pushStoryPoints lines) "---")
  end.

Definition buildFrontmatter (now : string) (type : DocumentType)
           (title : string) (state : option TaskState)
           (priority storyPoints : option JS.number) : result string :=
  match frontmatterLines now type title state priority storyPoints with
  | Ok lines => Ok (JS.join LF lines ++ LF)
  | Throw e => Throw e
  end.

(** ** Repository discovery *)

Definition MAX_DEPTH : nat := 10.

(** The [while (depth < MAX_DEPTH)] loop; [fuel] is [MAX_DEPTH - depth]. *)
Fixpoint walkUp (cwd : Path.path) (fuel : nat) (currentPath : Path.path)
  : Fs.M (option Path.path) :=
  match fuel with
  | O => Fs.ret None
  | S fuel' =>
      let gitPath := Path.join currentPath ".git" in
      found <- Fs.existsSync cwd gitPath ;;
      if found then Fs.ret (Some currentPath)
      else
        let parentPath := Path.dirname currentPath in
        if Path.eqb parentPath currentPath then Fs.ret None
        else walkUp cwd fuel' parentPath
  end.

(** The walk starts at [process.cwd()]; the hint is tested and
    returned as it was given. *)
Definition findRepoRootPath (cwd : Path.path) (globalConfigRoot : option string)
  : Fs.M (option Path.text) :=
  found <- walkUp cwd MAX_DEPTH cwd ;;
  match found with
  | Some currentPath => Fs.ret (Some (Path.Computed currentPath))
  | None =>
      match globalConfigRoot with
      | Some root =>
          if JS.truthy root then
            there <- Fs.existsSyncGiven cwd root ;;
            if there then Fs.ret (Some (Path.Given root))
            else Fs.ret None
          else Fs.ret None
      | None => Fs.ret None
      end
  end.

(** ** The tool handlers *)

Record CreateArgs := {
  c_type : DocumentType;
  c_title : string;
  c_content : option string;
  c_state : option TaskState;
  c_priority : option JS.number;
  c_storyPoints : option JS.number;
  c_fileName : option string
}.

Record MoveArgs := {
  m_title : option string;
  m_priority : option JS.number;
  m_storyPoints : option JS.number;
  m_fileName : option string;
  m_fromState : TaskState;
  m_toState : TaskState
}.

Record GetArgs := {
  g_type : DocumentType;
  g_title : option string;
  g_state : option TaskState;
  g_priority : option JS.number;
  g_storyPoints : option JS.number;
  g_fileName : option string
}.

Inductive request :=
| Create (args : CreateArgs)
| Move (args : MoveArgs)
| Get (args : GetArgs)
| Other (name : string).

(** What a handler returns, before [JSON.stringify]. *)
Inductive reply :=
| Created (path : Path.path)
| Moved (from to : Path.path)
| Resolved (path : Path.path) (exists_ : bool).

(** A default value of a destructuring pattern. *)
Definition orDefault {A} (d : A) (o : option A) : A :=
  match o with
  | Some a => a
  | None => d
  end.

(** [undefined] and the empty string are falsy. *)
Definition truthyOpt (o : option string) : bool :=
  match o with
  | Some s => JS.truthy s
  | None => false
  end.

(** The directory of a document of a type, tasks by state. *)
Definition directoryOf (agelumPath : Path.path) (type : DocumentType)
           (state : TaskState) : Path.path :=
  match nonTaskTypeToDir type with
  | None => Path.join (Path.join agelumPath "tasks") (stateName state)
  | Some dir => Path.join agelumPath dir
  end.

(** The file name [create] settles on. *)
Definition createFileName (a : CreateArgs) : result string :=
  match
    match c_fileName a with
    | Some fileName => Ok fileName
    | None =>
        buildFileName (c_type a) (c_title a) (c_priority a) (c_storyPoints a)
    end
  with
  | Ok name => Ok (ensureMdExtension (sanitizeFileNamePart name))
  | Throw e => Throw e
  end.

Definition create (cwd : Path.path) (now : string) (agelumPath : Path.path)
           (a : CreateArgs) : Fs.M reply :=
  let content := orDefault "" (c_content a) in
  let state := orDefault pending (c_state a) in
  resolvedFileName <- Fs.lift (createFileName a) ;;
  let targetDir := directoryOf agelumPath (c_type a) state in
  Fs.mkdirSync cwd targetDir ;;;
  let filePath := Path.join targetDir resolvedFileName in
  there <- Fs.existsSync cwd filePath ;;
  if there then Fs.throw (AlreadyExists filePath)
  else
    frontmatter <- Fs.lift (buildFrontmatter now (c_type a) (c_title a)
                              (Some state) (c_priority a) (c_storyPoints a)) ;;
    let body := LF ++ "# " ++ c_title a ++ LF ++ LF ++ content ++ LF in
    Fs.writeFileSync cwd filePath (frontmatter ++ body) ;;;
    Fs.ret (Created filePath).

(** The file name [move] settles on; its [type] is ['task']. *)
Definition moveFileName (a : MoveArgs) : result string :=
  let title := orDefault "" (m_title a) in
  match
    if negb (truthyOpt (m_fileName a)) then
      if negb (JS.truthy title) then Throw TitleOrFileNameRequired
      else buildFileName task title (m_priority a) (m_storyPoints a)
    else Ok (orDefault "" (m_fileName a))
  with
  | Ok sourceFileName => Ok (ensureMdExtension sourceFileName)
  | Throw e => Throw e
  end.

Definition move (cwd : Path.path) (agelumPath : Path.path) (a : MoveArgs)
  : Fs.M reply :=
  if TaskState_eqb (m_fromState a) (m_toState a) then
    Fs.throw InvalidTransition
  else
    sourceFileName <- Fs.lift (moveFileName a) ;;
    let sourceDir :=
      Path.join (Path.join agelumPath "tasks") (stateName (m_fromState a)) in
    let sourcePath := Path.join sourceDir sourceFileName in
    there <- Fs.existsSync cwd sourcePath ;;
    if negb there then Fs.throw (SourceNotFound sourcePath)
    else
      let targetDir :=
        Path.join (Path.join agelumPath "tasks") (stateName (m_toState a)) in
      Fs.mkdirSync cwd targetDir ;;;
      let targetPath := Path.join targetDir sourceFileName in
      taken <- Fs.existsSync cwd targetPath ;;
      if taken then Fs.throw (TargetExists targetPath)
      else
        Fs.renameSync cwd sourcePath targetPath ;;;
        Fs.ret (Moved sourcePath targetPath).

(** The file name [get] settles on. *)
Definition getFileName (a : GetArgs) : result string :=
  let title := orDefault "" (g_title a) in
  match
    if negb (truthyOpt (g_fileName a)) then
      if negb (JS.truthy title) then Throw TitleOrFileNameRequired
      else
        match g_type a with
        | task =>
            match g_priority a, g_storyPoints a with
            | Some _, Some _ =>
                match buildFileName task title (g_priority a) (g_storyPoints a) with
                | Ok name => Ok (Some name)
                | Throw e => Throw e
                end
            | _, _ => Ok (g_fileName a)
            end
        | type =>
            match buildFileName type title (g_priority a) (g_storyPoints a) with
            | Ok name => Ok (Some name)
            | Throw e => Throw e
            end
        end
    else Ok (g_fileName a)
  with
  | Throw e => Throw e
  | Ok resolvedFileName =>
      let resolvedFileName :=
        match g_type a with
        | task =>
            if negb (truthyOpt resolvedFileName)
            then Some (ensureMdExtension (sanitizeFileNamePart title))
            else resolvedFileName
        | _ => resolvedFileName
        end in
      if truthyOpt resolvedFileName
      then Ok (ensureMdExtension (orDefault "" resolvedFileName))
      else Throw UnresolvableFileName
  end.

(** The paths [get] probes, in order. *)
Definition possiblePaths (agelumPath : Path.path) (a : GetArgs)
           (resolvedFileName : string) : list Path.path :=
  match g_type a with
  | task =>
      match g_state a with
      | Some state =>
          [ Path.join (directoryOf agelumPath task state) resolvedFileName ]
      | None =>
          [ Path.join (directoryOf agelumPath task pending) resolvedFileName;
            Path.join (directoryOf agelumPath task doing) resolvedFileName;
            Path.join (directoryOf agelumPath task done) resolvedFileName ]
      end
  | type => [ Path.join (directoryOf agelumPath type pending) resolvedFileName ]
  end.

(** [paths.find(p => fs.existsSync(p))] *)
Fixpoint findExisting (cwd : Path.path) (paths : list Path.path)
  : Fs.M (option Path.path) :=
  match paths with
  | [] => Fs.ret None
  | p :: rest =>
      there <- Fs.existsSync cwd p ;;
      if there then Fs.ret (Some p) else findExisting cwd rest
  end.

Definition get (cwd : Path.path) (agelumPath : Path.path) (a : GetArgs)
  : Fs.M reply :=
  resolvedFileName <- Fs.lift (getFileName a) ;;
  let paths := possiblePaths agelumPath a resolvedFileName in
  existingPath <- findExisting cwd paths ;;
  match existingPath with
  | Some p => Fs.ret (Resolved p true)
  | None => Fs.ret (Resolved (hd [] paths) false)
  end.

(** The [CallTool] request handler.  A [Throw] is what its [catch]
    answers with [isError: true]; the file system next to it is the one
    the handler left. *)
Definition callTool (cwd : Path.path) (globalConfigRoot : option string)
           (now : string) (req : request) : Fs.M reply :=
  repoRootPath <- findRepoRootPath cwd globalConfigRoot ;;
  match repoRootPath with
  | None => Fs.throw RootNotFound
  | Some repoRootPath =>
      agelumPath <- ensureAgelumStructure cwd repoRootPath ;;
      match req with
      | Create a => create cwd now agelumPath a
      | Move a => move cwd agelumPath a
      | Get a => get cwd agelumPath a
      | Other name => Fs.throw (UnknownOperation name)
      end
  end.

(** * Properties *)

Open Scope list_scope.

(** ** Vocabulary of the properties *)

(** [grows fs fs']: [fs'] is [fs] with more directories, nothing else. *)
Definition grows (fs fs' : Fs.t) : Prop :=
  forall q, fs' q = fs q \/ (fs q = None /\ fs' q = Some Fs.Dir).

(** The two file systems hold the same files with the same contents. *)
Definition sameFiles (fs fs' : Fs.t) : Prop :=
  forall q c, fs' q = Some (Fs.File c) <-> fs q = Some (Fs.File c).

(** Every character of the string passes the test. *)
Fixpoint allChars (P : ascii -> bool) (s : string) : bool :=
  match s with
  | EmptyString => true
  | String c s' => P c && allChars P s'
  end.

(** Any character but the separator of [node:path]. *)
Definition notSlash (c : ascii) : bool := negb (c =? "/")%char.

(** Something is at the path: what [existsSync] answers in a process
    whose working directory is [cwd]. *)
Definition present (cwd : Path.path) (fs : Fs.t) (p : Path.path) : bool :=
  Fs.fits p
  && match Fs.stat fs (Path.locate cwd p) with
     | Some _ => true
     | None => false
     end.

(** The directory [k] levels above [p]. *)
Fixpoint ancestor (k : nat) (p : Path.path) : Path.path :=
  match k with
  | O => p
  | S k' => ancestor k' (Path.dirname p)
  end.

(** The directory holds a [.git] entry. *)
Definition hasGit (cwd : Path.path) (fs : Fs.t) (d : Path.path) : bool :=
  present cwd fs (Path.join d ".git").

(** Root resolution, then provisioning of the directory tree. *)
Definition prologue (cwd : Path.path) (globalConfigRoot : option string)
  : Fs.M Path.path :=
  repoRootPath <- findRepoRootPath cwd globalConfigRoot ;;
  match repoRootPath with
  | None => Fs.throw RootNotFound
  | Some repoRootPath => ensureAgelumStructure cwd repoRootPath
  end.

(** The [switch] of the request handler. *)
Definition handler (cwd : Path.path) (now : string) (agelumPath : Path.path)
           (req : request) : Fs.M reply :=
  match req with
  | Create a => create cwd now agelumPath a
  | Move a => move cwd agelumPath a
  | Get a => get cwd agelumPath a
  | Other name => Fs.throw (UnknownOperation name)
  end.

(** Every directory along the place [p] is there. *)
Definition dirsAlong (fs : Fs.t) (p : Path.path) : Prop :=
  forall k, (0 < k <= List.length p)%nat -> fs (firstn k p) = Some Fs.Dir.

(** The directory tree of the store is in place under [agelumPath], a
    path whose names the file system takes. *)
Definition provisioned (cwd : Path.path) (agelumPath : Path.path) (fs : Fs.t)
  : Prop :=
  Fs.fits agelumPath = true /\
  dirsAlong fs (Path.locate cwd agelumPath) /\
  forall dir, In dir AGELUM_STRUCTURE ->
              dirsAlong fs (Path.locate cwd (Path.join agelumPath dir)).

(** A repository at [/home/dev/shop]; calls are made from its [src]. *)
Definition demoRepo : Path.path := ["home"; "dev"; "shop"].

Definition demoCwd : Path.path := demoRepo ++ ["src"].

(** [/home/dev/shop] with a [.git] and a [src] directory. *)
Definition demoFs : Fs.t :=
  snd (Fs.mkdirSync demoCwd demoCwd
         (snd (Fs.mkdirSync demoCwd (demoRepo ++ [".git"]) Fs.empty))).

(** The time of the calls, as [toISOString] writes it. *)
Definition demoNow : string := "2026-01-01T00:00:00.000Z".

(** The store of that repository. *)
Definition demoAgelum : Path.path := demoRepo ++ ["agelum"].

(** The store after the prologue of a first call. *)
Definition demoFs1 : Fs.t := snd (prologue demoCwd None demoFs).

(** The numbers 3, 3.5 and 5. *)
Definition three : JS.number := JS.ofPos false 3.

Definition threeAndHalf : JS.number := S754_finite false (Pos.shiftl 7 50) (-51).

Definition five : JS.number := JS.ofPos false 5.

(** The task [Fix bug] with priority 3 and 5 story points. *)
Definition fixBug : CreateArgs :=
  {| c_type := task; c_title := "Fix bug"; c_content := Some "Steps";
     c_state := None; c_priority := Some three; c_storyPoints := Some five;
     c_fileName := None |}.

(** The store after [create] of the task [fixBug]. *)
Definition demoFs2 : Fs.t := snd (callTool demoCwd None demoNow (Create fixBug) demoFs).

(** The request to move that task, identified by its fields. *)
Definition moveFixBug (fromState toState : TaskState) : MoveArgs :=
  {| m_title := Some "Fix bug"; m_priority := Some three;
     m_storyPoints := Some five; m_fileName := None;
     m_fromState := fromState; m_toState := toState |}.


(** The request to find that task by its fields, in the state it was
    created in. *)
Definition getFixBugByFields : GetArgs :=
  {| g_type := task; g_title := Some "Fix bug"; g_state := Some pending;
     g_priority := Some three; g_storyPoints := Some five;
     g_fileName := None |}.

(** The same request with no state. *)
Definition getFixBugStateless : GetArgs :=
  {| g_type := task; g_title := Some "Fix bug"; g_state := None;
     g_priority := Some three; g_storyPoints := Some five;
     g_fileName := None |}.








(** A directory [/home/dev/shop/src/store] with no repository above
    it, and the same after the task [fixBug] was created with the hint
    [store]. *)
Definition plainFs : Fs.t :=
  snd (Fs.mkdirSync demoCwd (demoCwd ++ ["store"]) Fs.empty).

Definition plainFs2 : Fs.t :=
  snd (callTool demoCwd (Some "store") demoNow (Create fixBug) plainFs).

(** The names from the working directory to the file of that task. *)
Definition storeTask (state : TaskState) : list string :=
  ["store"; "agelum"; "tasks"; stateName state; "03 Fix bug (5).md"].

(** A file system with the directory [/srv/data] and nothing else,
    and a working directory in it. *)
Definition dataCwd : Path.path := ["srv"; "data"].

Definition dataFs : Fs.t := snd (Fs.mkdirSync dataCwd dataCwd Fs.empty).

(** The request that takes a moved task back. *)
Definition moveBack (a : MoveArgs) : MoveArgs :=
  {| m_title := m_title a; m_priority := m_priority a;
     m_storyPoints := m_storyPoints a; m_fileName := m_fileName a;
     m_fromState := m_toState a; m_toState := m_fromState a |}.

(** Every entry of the file system sits in a directory. *)
Definition wellFormed (fs : Fs.t) : Prop :=
  forall p c, fs (p ++ [c]) <> None -> Fs.stat fs p = Some Fs.Dir.

(** The paths a file system changes along: the nonempty prefixes of
    the paths below [r] whose components are not [.git]. *)
Definition alongTree (r q : Path.path) : Prop :=
  exists tl k, ~ In ".git"%string tl /\ (0 < k <= List.length (r ++ tl))%nat
               /\ q = firstn k (r ++ tl).

(** The two requests name the same document in the same place. *)
Definition sameDocument (a1 a2 : CreateArgs) : Prop :=
  c_type a1 = c_type a2 /\ c_title a1 = c_title a2
  /\ c_state a1 = c_state a2 /\ c_priority a1 = c_priority a2
  /\ c_storyPoints a1 = c_storyPoints a2 /\ c_fileName a1 = c_fileName a2.

(** Where [create] puts the task [fixBug]. *)
Definition fixBugPath : Path.path :=
  demoAgelum ++ ["tasks"; "pending"; "03 Fix bug (5).md"]%string.

(** Where the task [fixBug] is once it is done. *)
Definition fixBugDone : Path.path :=
  demoAgelum ++ ["tasks"; "done"; "03 Fix bug (5).md"]%string.

(** The same task once more, with another body. *)
Definition fixBugAgain : CreateArgs :=
  {| c_type := task; c_title := "Fix bug"; c_content := Some "Other text";
     c_state := None; c_priority := Some three; c_storyPoints := Some five;
     c_fileName := None |}.

(** The characters [0] to [9], and the digit each one writes. *)
Definition isDigit (c : ascii) : bool :=
  ((48 <=? JS.code c) && (JS.code c <=? 57))%N.

Definition digitOf (c : ascii) : N := JS.code c - 48.

(** The number a string of digits writes, after the digits [acc]. *)
Fixpoint valueFrom (acc : N) (s : string) : N :=
  match s with
  | EmptyString => acc
  | String c s' => valueFrom (10 * acc + digitOf c) s'
  end.

Open Scope Z_scope.

(** [m * 2^e] is the positive integer [V]. *)
Definition integral (m : positive) (e : Z) (V : positive) : Prop :=
  Z.pos V * 2 ^ Z.max (- e) 0 = Z.pos m * 2 ^ Z.max e 0.

(** The digits before the exponent in exponent notation. *)
Definition mantissa (ds : string) : string :=
  match ds with
  | String d EmptyString => ds
  | String d rest => String d ("." ++ rest)
  | EmptyString => EmptyString
  end.

(** Any character but the [e] of exponent notation. *)
Definition notE (c : ascii) : bool := negb (c =? "e")%char.

(** The integer a finite number has towards zero. *)
Definition integerPart (x : JS.number) : Z :=
  match x with
  | S754_finite s m e =>
      let n := if 0 <=? e then Z.pos m * 2 ^ e else Z.pos m / 2 ^ (- e) in
      if s then - n else n
  | _ => 0
  end.

(** The string is one character, or does not begin with [0]. *)
Definition plainHead (t : string) : Prop :=
  exists c rest, t = String c rest /\ (rest <> ""%string -> c <> "0"%char).

(** A task created under the file name [a/b], and the request to move
    it that gives the same file name. *)
Definition slashTask : CreateArgs :=
  {| c_type := task; c_title := "Plan"; c_content := None; c_state := None;
     c_priority := Some three; c_storyPoints := Some five;
     c_fileName := Some "a/b" |}.

Definition slashMove : MoveArgs :=
  {| m_title := Some "Plan"; m_priority := Some three;
     m_storyPoints := Some five; m_fileName := Some "a/b";
     m_fromState := pending; m_toState := doing |}.

(** A document created under the file name [draft: v2], and the [get]
    with the same fields. *)
Definition colonDoc : CreateArgs :=
  {| c_type := doc; c_title := "Draft"; c_content := None; c_state := None;
     c_priority := None; c_storyPoints := None;
     c_fileName := Some "draft: v2" |}.

Definition colonGet : GetArgs :=
  {| g_type := doc; g_title := Some "Draft"; g_state := None;
     g_priority := None; g_storyPoints := None;
     g_fileName := Some "draft: v2" |}.

Close Scope Z_scope.

(** A character of a word: no separator, no reserved character, no
    white space. *)
Definition plainChar (c : ascii) : bool :=
  negb (isSeparator c) && negb (isReserved c) && negb (JS.isWhiteSpace c).

(** Words with one space between them, read after a space or after a
    character of a word; the string does not end after a space. *)
Fixpoint tidyFrom (afterSpace : bool) (s : string) : bool :=
  match s with
  | EmptyString => negb afterSpace
  | String c s' =>
      if (c =? " ")%char then negb afterSpace && tidyFrom true s'
      else plainChar c && tidyFrom false s'
  end.

(** Words with one space between them, and at least one word. *)
Definition tidy (s : string) : bool := tidyFrom true s.

(** The same, but the string may end after a space. *)
Fixpoint looseFrom (afterSpace : bool) (s : string) : bool :=
  match s with
  | EmptyString => true
  | String c s' =>
      if (c =? " ")%char then negb afterSpace && looseFrom true s'
      else plainChar c && looseFrom false s'
  end.

(** The characters [String(x)] is written with: the digits, the point,
    the signs, the [e] of the exponent, and the letters of [NaN] and
    [Infinity]. *)
Definition numberChar (c : ascii) : bool :=
  isDigit c || existsb (Ascii.eqb c)
                 ["."; "-"; "+"; "e"; "N"; "a"; "I"; "n"; "f"; "i"; "t"; "y"]%char.

(** A character that sanitising drops or trims away: a reserved
    character or white space. *)
Definition blankChar (c : ascii) : bool := isReserved c || JS.isWhiteSpace c.

(** ** Paths and the file system *)

Lemma path_eqb_eq (p q : Path.path) : Path.eqb p q = true <-> p = q.
Proof.
  unfold Path.eqb. destruct (list_eq_dec string_dec p q); split; congruence.
Qed.

Lemma path_eqb_refl (p : Path.path) : Path.eqb p p = true.
Proof. now apply path_eqb_eq. Qed.

Lemma path_eqb_neq (p q : Path.path) : p <> q -> Path.eqb p q = false.
Proof.
  intros H. destruct (Path.eqb p q) eqn:E; [|reflexivity].
  apply path_eqb_eq in E. contradiction.
Qed.

Lemma set_same (fs : Fs.t) p n : Fs.set fs p n p = n.
Proof. unfold Fs.set. now rewrite path_eqb_refl. Qed.

Lemma set_other (fs : Fs.t) p n q : q <> p -> Fs.set fs p n q = fs q.
Proof. intros H. unfold Fs.set. now rewrite path_eqb_neq. Qed.

Lemma stat_nonroot (fs : Fs.t) (p : Path.path) (c : string) :
  Fs.stat fs (p ++ [c]) = fs (p ++ [c]).
Proof. destruct p; reflexivity. Qed.

Lemma grows_refl fs : grows fs fs.
Proof. intros q. now left. Qed.

Lemma grows_trans fs1 fs2 fs3 : grows fs1 fs2 -> grows fs2 fs3 -> grows fs1 fs3.
Proof.
  intros H12 H23 q. destruct (H12 q) as [E|[E1 E2]], (H23 q) as [F|[F1 F2]].
  - left. congruence.
  - right. split; congruence.
  - right. split; congruence.
  - congruence.
Qed.

Lemma grows_sameFiles fs fs' : grows fs fs' -> sameFiles fs fs'.
Proof.
  intros G q c. destruct (G q) as [E|[E1 E2]]; rewrite ?E; [tauto|].
  rewrite E1, E2. split; discriminate.
Qed.

Lemma grows_keeps fs fs' q n : grows fs fs' -> fs q = Some n -> fs' q = Some n.
Proof. intros G E. destruct (G q) as [F|[F _]]; congruence. Qed.

Lemma grows_stat fs fs' q n :
  grows fs fs' -> Fs.stat fs q = Some n -> Fs.stat fs' q = Some n.
Proof. destruct q; simpl; [tauto|]. apply grows_keeps. Qed.

Lemma grows_set_dir fs q : fs q = None -> grows fs (Fs.set fs q (Some Fs.Dir)).
Proof.
  intros E p. destruct (list_eq_dec string_dec p q) as [->|N].
  - right. now rewrite set_same.
  - left. now apply set_other.
Qed.

(** [mkdirSync] only adds directories, whether it returns or throws. *)
Lemma mkdirFrom_grows asked rest : forall made fs r fs',
  Fs.mkdirFrom asked made rest fs = (r, fs') -> grows fs fs'.
Proof.
  induction rest as [|c rest IH]; simpl; intros made fs r fs' H.
  - inversion H. apply grows_refl.
  - rewrite stat_nonroot in H.
    destruct (fs (made ++ [c])%list) as [[x|]|] eqn:E.
    + inversion H. apply grows_refl.
    + eapply IH, H.
    + eapply grows_trans; [|eapply IH, H]. now apply grows_set_dir.
Qed.

(** After a [mkdirSync] that returned, every directory along the path
    is there. *)
Lemma mkdirFrom_made asked rest : forall made fs fs',
  Fs.mkdirFrom asked made rest fs = (Ok tt, fs') ->
  forall k, (0 < k <= List.length rest)%nat ->
  fs' (made ++ firstn k rest)%list = Some Fs.Dir.
Proof.
  induction rest as [|c rest IH]; simpl; intros made fs fs' H k Hk; [lia|].
  rewrite stat_nonroot in H.
  assert (Hstep : forall fs1,
                  Fs.mkdirFrom asked (made ++ [c]) rest fs1 = (Ok tt, fs') ->
                  fs1 (made ++ [c])%list = Some Fs.Dir ->
                  fs' (made ++ firstn k (c :: rest))%list = Some Fs.Dir).
  { intros fs1 H1 E1. destruct k as [|k]; [lia|]. simpl.
    destruct k as [|k].
    - simpl. eapply grows_keeps; [eapply mkdirFrom_grows, H1|exact E1].
    - replace (made ++ c :: firstn (S k) rest)%list
        with ((made ++ [c]) ++ firstn (S k) rest)%list
        by (rewrite <- app_assoc; reflexivity).
      eapply IH; [exact H1|]. simpl in Hk. lia. }
  destruct (fs (made ++ [c])%list) as [[x|]|] eqn:E.
  - discriminate.
  - eapply Hstep; eauto.
  - eapply Hstep; eauto. apply set_same.
Qed.

(** Where the directories are there already, [mkdirSync] changes
    nothing. *)
Lemma mkdirFrom_there asked rest : forall made fs,
  (forall k, (0 < k <= List.length rest)%nat ->
             fs (made ++ firstn k rest)%list = Some Fs.Dir) ->
  Fs.mkdirFrom asked made rest fs = (Ok tt, fs).
Proof.
  induction rest as [|c rest IH]; simpl; intros made fs H; [reflexivity|].
  rewrite stat_nonroot.
  assert (E : fs (made ++ [c]) = Some Fs.Dir) by (apply (H 1%nat); simpl; lia).
  rewrite E.
  apply IH. intros k Hk.
  rewrite <- app_assoc. apply (H (S k)). simpl. lia.
Qed.

Lemma mkdirSync_grows cwd p fs r fs' :
  Fs.mkdirSync cwd p fs = (r, fs') -> grows fs fs'.
Proof.
  unfold Fs.mkdirSync. destruct (Fs.fits p).
  - apply mkdirFrom_grows.
  - intros H. inversion H. apply grows_refl.
Qed.

Lemma mkdirSync_fits cwd p fs fs' :
  Fs.mkdirSync cwd p fs = (Ok tt, fs') -> Fs.fits p = true.
Proof. unfold Fs.mkdirSync. destruct (Fs.fits p); [reflexivity|discriminate]. Qed.

Lemma mkdirSync_made cwd p fs fs' :
  Fs.mkdirSync cwd p fs = (Ok tt, fs') -> dirsAlong fs' (Path.locate cwd p).
Proof.
  unfold Fs.mkdirSync. destruct (Fs.fits p); [|discriminate].
  intros H k Hk. exact (mkdirFrom_made p _ [] fs fs' H k Hk).
Qed.

Lemma mkdirSync_dir cwd p fs fs' :
  Fs.mkdirSync cwd p fs = (Ok tt, fs') ->
  Fs.stat fs' (Path.locate cwd p) = Some Fs.Dir.
Proof.
  intros H. apply mkdirSync_made in H.
  destruct (Path.locate cwd p) as [|c q]; [reflexivity|].
  simpl. rewrite <- (firstn_all (c :: q)).
  apply H. simpl. lia.
Qed.

(** A name is a component that is neither [.] nor [..]; a path keeps
    its place when a name is added to it. *)
Lemma isAbsolute_app p q : p <> [] -> Path.isAbsolute (p ++ q) = Path.isAbsolute p.
Proof. destruct p; [congruence|reflexivity]. Qed.

Lemma locate_app cwd p q :
  p <> [] -> Path.locate cwd (p ++ q) = fold_left Path.step q (Path.locate cwd p).
Proof.
  intros N. unfold Path.locate. now rewrite fold_left_app, isAbsolute_app.
Qed.

Lemma locate_snoc cwd p n :
  n <> "."%string -> n <> ".."%string ->
  Path.locate cwd (p ++ [n]) = Path.locate cwd p ++ [n].
Proof.
  intros N1 N2. apply String.eqb_neq in N1, N2.
  destruct p as [|c p].
  - unfold Path.locate, Path.isAbsolute, Path.step. simpl.
    now rewrite N1, N2.
  - rewrite locate_app by discriminate. simpl. unfold Path.step.
    now rewrite N1, N2.
Qed.

(** The limit of a name is 255 bytes; a code unit from 128 on takes
    two. *)
Lemma nameFits_limit :
  Fs.nameFits (JS.repeatChar "n" 255) = true
  /\ Fs.nameFits (JS.repeatChar "n" 256) = false
  /\ Fs.nameFits (JS.repeatChar (ascii_of_N 233) 127 ++ "n") = true
  /\ Fs.nameFits (JS.repeatChar (ascii_of_N 233) 128) = false.
Proof. repeat split; vm_compute; reflexivity. Qed.

Lemma fits_snoc p n : Fs.fits (p ++ [n]) = Fs.fits p && Fs.nameFits n.
Proof.
  unfold Fs.fits. rewrite forallb_app. simpl. now rewrite andb_true_r.
Qed.

(** ** Strings *)

Lemma append_nil_r (s : string) : (s ++ "")%string = s.
Proof. induction s; simpl; congruence. Qed.

Lemma append_assoc (a b c : string) :
  ((a ++ b) ++ c)%string = (a ++ (b ++ c))%string.
Proof. induction a; simpl; congruence. Qed.

Lemma length_append (a b : string) :
  String.length (a ++ b) = (String.length a + String.length b)%nat.
Proof. induction a; simpl; congruence. Qed.

Lemma append_inv_head (a b c : string) :
  (a ++ b)%string = (a ++ c)%string -> b = c.
Proof. induction a; simpl; intros H; [assumption|]. inversion H. auto. Qed.

Lemma append_inv_tail (a b c : string) :
  (a ++ c)%string = (b ++ c)%string -> a = b.
Proof.
  revert b. induction a as [|x a IH]; intros [|y b] H; simpl in H.
  - reflexivity.
  - exfalso. apply (f_equal String.length) in H. simpl in H.
    rewrite length_append in H. lia.
  - exfalso. apply (f_equal String.length) in H. simpl in H.
    rewrite length_append in H. lia.
  - inversion H. f_equal. auto.
Qed.

Lemma allChars_app P a b :
  allChars P (a ++ b) = allChars P a && allChars P b.
Proof. induction a; simpl; [reflexivity|]. rewrite IHa. now rewrite andb_assoc. Qed.

Lemma allChars_impl (P Q : ascii -> bool) s :
  (forall c, P c = true -> Q c = true) ->
  allChars P s = true -> allChars Q s = true.
Proof.
  intros H. induction s; simpl; [reflexivity|].
  rewrite !andb_true_iff. intros [H1 H2]. auto.
Qed.

Lemma allChars_trimStart P s :
  allChars P s = true -> allChars P (JS.trimStart s) = true.
Proof.
  induction s as [|c s IH]; simpl; [reflexivity|].
  rewrite andb_true_iff. intros [H1 H2].
  destruct (JS.isWhiteSpace c); [auto|]. simpl. now rewrite H1, H2.
Qed.

Lemma allChars_trimEnd P s :
  allChars P s = true -> allChars P (JS.trimEnd s) = true.
Proof.
  induction s as [|c s IH]; simpl; [reflexivity|].
  rewrite andb_true_iff. intros [H1 H2]. specialize (IH H2).
  destruct (JS.trimEnd s) eqn:E.
  - destruct (JS.isWhiteSpace c); simpl; [reflexivity|]. now rewrite H1.
  - simpl in *. now rewrite H1, IH.
Qed.

Lemma allChars_trim P s : allChars P s = true -> allChars P (JS.trim s) = true.
Proof. intros H. now apply allChars_trimEnd, allChars_trimStart. Qed.

Lemma allChars_replaceClass P set by_ s :
  allChars P by_ = true ->
  (forall c, set c = false -> In c (list_ascii_of_string s) -> P c = true) ->
  allChars P (JS.replaceClass set by_ s) = true.
Proof.
  intros Hby. induction s as [|c s IH]; simpl; intros H; [reflexivity|].
  destruct (set c) eqn:E.
  - rewrite allChars_app, Hby. simpl. apply IH. intros; apply H; auto.
  - simpl. rewrite (H c E) by auto. simpl. apply IH. intros; apply H; auto.
Qed.

Lemma allChars_In P s :
  allChars P s = true <-> (forall c, In c (list_ascii_of_string s) -> P c = true).
Proof.
  induction s as [|x s IH]; simpl.
  - split; [intros _ c []|reflexivity].
  - rewrite andb_true_iff, IH. split.
    + intros [H1 H2] c [<-|H]; auto.
    + intros H. split; auto.
Qed.

Lemma allChars_replaceRunsFrom P set by_ s : forall inRun,
  allChars P by_ = true ->
  (forall c, set c = false -> In c (list_ascii_of_string s) -> P c = true) ->
  allChars P (JS.replaceRunsFrom set by_ inRun s) = true.
Proof.
  induction s as [|c s IH]; simpl; intros inRun Hby H; [reflexivity|].
  destruct (set c) eqn:E.
  - destruct inRun; [|rewrite allChars_app, Hby; simpl];
      apply IH; auto.
  - simpl. rewrite (H c E) by auto. simpl. apply IH; auto.
Qed.

Lemma notSeparator_notSlash c : isSeparator c = false -> notSlash c = true.
Proof.
  unfold isSeparator, notSlash. intros H.
  destruct (c =? "/")%char eqn:E; [|reflexivity].
  apply Ascii.eqb_eq in E. subst c. discriminate.
Qed.

(** A sanitised name holds no slash. *)
Lemma sanitize_noSlash (value : string) :
  allChars notSlash (sanitizeFileNamePart value) = true.
Proof.
  unfold sanitizeFileNamePart.
  apply allChars_trim.
  apply allChars_replaceRunsFrom; [reflexivity|].
  intros c _. revert c. apply allChars_In.
  apply allChars_replaceClass; [reflexivity|].
  intros c _. revert c. apply allChars_In.
  apply allChars_replaceClass; [reflexivity|].
  intros c H _. now apply notSeparator_notSlash.
Qed.

Lemma ensureMd_cases (fileName : string) :
  (JS.endsWith (JS.toLowerCase (JS.trim fileName)) ".md" = true
   /\ ensureMdExtension fileName = JS.trim fileName)
  \/ (JS.endsWith (JS.toLowerCase (JS.trim fileName)) ".md" = false
      /\ ensureMdExtension fileName = (JS.trim fileName ++ ".md")%string).
Proof.
  unfold ensureMdExtension.
  destruct (JS.endsWith (JS.toLowerCase (JS.trim fileName)) ".md"); auto.
Qed.

Lemma ensureMd_noSlash (fileName : string) :
  allChars notSlash fileName = true ->
  allChars notSlash (ensureMdExtension fileName) = true.
Proof.
  intros H. apply (allChars_trim notSlash) in H.
  destruct (ensureMd_cases fileName) as [[_ ->]|[_ ->]]; [assumption|].
  now rewrite allChars_app, H.
Qed.

Lemma length_toLowerCase s : String.length (JS.toLowerCase s) = String.length s.
Proof. induction s; simpl; congruence. Qed.

Lemma endsWith_length s t :
  JS.endsWith s t = true -> (String.length t <= String.length s)%nat.
Proof.
  unfold JS.endsWith. rewrite andb_true_iff. intros [H _].
  now apply Nat.leb_le.
Qed.

(** The name with its extension is at least three characters long, and
    it is not [.git]. *)
Lemma ensureMd_length (fileName : string) :
  (3 <= String.length (ensureMdExtension fileName))%nat.
Proof.
  destruct (ensureMd_cases fileName) as [[H ->]|[_ ->]].
  - apply endsWith_length in H. rewrite length_toLowerCase in H. exact H.
  - rewrite length_append. simpl. lia.
Qed.

Lemma ensureMd_not_git (fileName : string) :
  ensureMdExtension fileName <> ".git"%string.
Proof.
  destruct (ensureMd_cases fileName) as [[H E]|[_ E]]; rewrite E; clear E.
  - intros E. rewrite E in H. discriminate.
  - intros E.
    assert (L : String.length (JS.trim fileName) = 1%nat).
    { apply (f_equal String.length) in E. rewrite length_append in E.
      simpl in E. lia. }
    destruct (JS.trim fileName) as [|a [|b t]]; simpl in L; try lia.
    simpl in E. discriminate E.
Qed.

Lemma segments_noSlash (s : string) :
  allChars notSlash s = true -> Path.segments s = [s].
Proof.
  induction s as [|c s IH]; simpl; [reflexivity|].
  unfold notSlash at 1. rewrite andb_true_iff, negb_true_iff.
  intros [H1 H2]. rewrite H1, IH by assumption. reflexivity.
Qed.

(** Joining a plain name adds one component. *)
Lemma join_name (p : Path.path) (s : string) :
  allChars notSlash s = true -> (3 <= String.length s)%nat ->
  Path.join p s = p ++ [s].
Proof.
  intros H L. unfold Path.join. rewrite segments_noSlash by assumption.
  simpl. unfold Path.enter.
  destruct s as [|a [|b [|c s]]]; simpl in L; try lia.
  simpl.
  repeat match goal with
         | |- context [Ascii.eqb ?x ?y] => destruct (Ascii.eqb x y); simpl
         end; reflexivity.
Qed.

(** The file name [create] settles on is a plain name. *)
Lemma createFileName_plain (a : CreateArgs) (f : string) :
  createFileName a = Ok f ->
  allChars notSlash f = true /\ (3 <= String.length f)%nat /\ f <> ".git"%string.
Proof.
  unfold createFileName.
  destruct (match c_fileName a with Some _ => _ | None => _ end) as [name|e];
    [|discriminate].
  intros H. inversion H. split; [|split].
  - apply ensureMd_noSlash, sanitize_noSlash.
  - apply ensureMd_length.
  - apply ensureMd_not_git.
Qed.

Lemma createFileName_join (a : CreateArgs) (f : string) (dir : Path.path) :
  createFileName a = Ok f -> Path.join dir f = dir ++ [f].
Proof.
  intros H. apply createFileName_plain in H. apply join_name; tauto.
Qed.

(** ** Repository discovery *)

Lemma existsSync_eq cwd p fs :
  Fs.existsSync cwd p fs = (Ok (present cwd fs p), fs).
Proof. reflexivity. Qed.

Lemma ancestor_fixed k p : Path.dirname p = p -> ancestor k p = p.
Proof. intros H. induction k; simpl; [reflexivity|]. now rewrite H. Qed.

Lemma walkUp_spec cwd fuel : forall p fs,
  exists found,
    walkUp cwd fuel p fs = (Ok found, fs) /\
    ((exists k, (k < fuel)%nat /\ hasGit cwd fs (ancestor k p) = true
                /\ (forall i, (i < k)%nat -> hasGit cwd fs (ancestor i p) = false)
                /\ found = Some (ancestor k p))
     \/ ((forall k, (k < fuel)%nat -> hasGit cwd fs (ancestor k p) = false)
         /\ found = None)).
Proof.
  induction fuel as [|fuel IH]; intros p fs.
  - exists None. split; [reflexivity|]. right. split; [intros; lia|reflexivity].
  - simpl. unfold Fs.bind. rewrite existsSync_eq.
    fold (hasGit cwd fs p). destruct (hasGit cwd fs p) eqn:G.
    + exists (Some p). split; [reflexivity|]. left. exists 0%nat.
      split; [lia|]. split; [exact G|]. split; [intros; lia|reflexivity].
    + destruct (Path.eqb (Path.dirname p) p) eqn:E.
      * apply path_eqb_eq in E. exists None. split; [reflexivity|].
        right. split; [|reflexivity]. intros k _.
        now rewrite ancestor_fixed.
      * destruct (IH (Path.dirname p) fs) as [found [W S]].
        exists found. split; [exact W|].
        destruct S as [[k [Hk [Hg [Hmin ->]]]]|[Hnone ->]].
        -- left. exists (S k).
           split; [lia|]. split; [exact Hg|]. split; [|reflexivity].
           intros [|i] Hi; [exact G|]. apply Hmin. lia.
        -- right. split; [|reflexivity].
           intros [|k] Hk; [exact G|]. apply Hnone. lia.
Qed.

(** The test of a given string reads the file system and leaves it as
    it is. *)
Lemma existsSyncGiven_reads cwd s fs :
  exists b, Fs.existsSyncGiven cwd s fs = (Ok b, fs).
Proof. eexists. reflexivity. Qed.

(** Discovery reads the file system and leaves it as it is. *)
Lemma findRepoRootPath_reads cwd hint fs :
  exists found, findRepoRootPath cwd hint fs = (Ok found, fs).
Proof.
  unfold findRepoRootPath, Fs.bind.
  destruct (walkUp_spec cwd MAX_DEPTH cwd fs) as [found [-> _]].
  destruct found; [eexists; reflexivity|].
  destruct hint as [root|]; [|eexists; reflexivity].
  destruct (JS.truthy root); [|eexists; reflexivity].
  destruct (existsSyncGiven_reads cwd root fs) as [b ->].
  destruct b; eexists; reflexivity.
Qed.

(** The directory above a path is the directory above its place. *)
Lemma last_snoc {A} (l : list A) (x d : A) : last (l ++ [x]) d = x.
Proof.
  induction l as [|a l IH]; [reflexivity|].
  simpl. destruct (l ++ [x]) eqn:E; [now destruct l|exact IH].
Qed.

Lemma snoc_cases {A} (l : list A) : l = [] \/ exists q x, l = q ++ [x].
Proof.
  induction l as [|a l _] using rev_ind; [now left|right; eauto].
Qed.

Lemma locate_up cwd p :
  Path.locate cwd (Path.up p) = removelast (Path.locate cwd p).
Proof.
  unfold Path.up.
  destruct (snoc_cases p) as [->|[q [x ->]]]; [reflexivity|].
  rewrite last_snoc.
  destruct (x =? ".")%string eqn:E1; [|destruct (x =? "..")%string eqn:E2];
    cbn [orb].
  - rewrite locate_app by (now destruct q). reflexivity.
  - rewrite locate_app by (now destruct q). reflexivity.
  - apply String.eqb_neq in E1, E2.
    rewrite locate_snoc by assumption.
    rewrite !removelast_app by discriminate. simpl.
    now rewrite !app_nil_r.
Qed.

Lemma fits_removelast p : Fs.fits p = true -> Fs.fits (removelast p) = true.
Proof.
  destruct (snoc_cases p) as [->|[q [x ->]]]; [auto|].
  rewrite removelast_app by discriminate. simpl. rewrite app_nil_r.
  unfold Fs.fits. rewrite forallb_app, andb_true_iff. tauto.
Qed.

Lemma fits_up p : Fs.fits p = true -> Fs.fits (Path.up p) = true.
Proof.
  intros H. unfold Path.up.
  destruct ((last p "" =? ".") || (last p "" =? ".."))%string.
  - unfold Fs.fits. rewrite forallb_app, andb_true_iff. split; [exact H|reflexivity].
  - now apply fits_removelast.
Qed.

(** A string that the operating system follows to a place is read by
    [path.join] as a path to that place. *)
Lemma walk_read cwd fs segs : forall v place,
  Fs.walk fs (Path.locate cwd v) segs = Some place ->
  place = Path.locate cwd (fold_left Path.enter segs v)
  /\ (Fs.fits v = true -> Fs.fits (fold_left Path.enter segs v) = true)
  /\ Fs.stat fs place <> None.
Proof.
  induction segs as [|seg segs IH]; intros v place H.
  - simpl in H. destruct (Fs.stat fs (Path.locate cwd v)) eqn:E; [|discriminate].
    inversion H. subst. split; [reflexivity|]. split; [auto|congruence].
  - cbn [Fs.walk] in H. cbn [fold_left]. unfold Path.enter at 2 4.
    destruct (Fs.stat fs (Path.locate cwd v)) as [[|]|]; try discriminate.
    destruct (seg =? "")%string; [exact (IH _ _ H)|].
    destruct (seg =? ".")%string eqn:E1; [exact (IH _ _ H)|].
    cbn [orb] in H.
    destruct (seg =? "..")%string eqn:E2.
    + rewrite <- locate_up in H. destruct (IH _ _ H) as [-> [F T]].
      split; [reflexivity|]. split; [|exact T].
      intros Fv. now apply F, fits_up.
    + destruct (Fs.nameFits seg) eqn:N; [|discriminate].
      apply String.eqb_neq in E1, E2.
      rewrite <- locate_snoc in H by assumption.
      destruct (Fs.stat fs (Path.locate cwd (v ++ [seg]))); [|discriminate].
      destruct (IH _ _ H) as [-> [F T]].
      split; [reflexivity|]. split; [|exact T].
      intros Fv. apply F. rewrite fits_snoc, Fv, N. reflexivity.
Qed.

(** One piece of a string that is followed: it is looked up in a
    directory, and leads where [path.join] reads it. *)
Lemma walk_step cwd fs seg segs v x :
  Fs.walk fs (Path.locate cwd v) (seg :: segs) = Some x ->
  Fs.stat fs (Path.locate cwd v) = Some Fs.Dir
  /\ Fs.walk fs (Path.locate cwd (Path.enter v seg)) segs = Some x.
Proof.
  cbn [Fs.walk]. unfold Path.enter.
  destruct (Fs.stat fs (Path.locate cwd v)) as [[|]|]; try discriminate.
  intros H. split; [reflexivity|].
  destruct (seg =? "")%string; [exact H|].
  destruct (seg =? ".")%string eqn:E1; [exact H|].
  cbn [orb] in H.
  destruct (seg =? "..")%string eqn:E2; [now rewrite locate_up|].
  destruct (Fs.nameFits seg); [|discriminate].
  apply String.eqb_neq in E1, E2. rewrite locate_snoc by assumption.
  destruct (Fs.stat fs (Path.locate cwd v ++ [seg])); [exact H|discriminate].
Qed.

(** Every directory that a followed string passes through is there. *)
Lemma walk_dirs cwd fs segs : forall v x,
  Fs.walk fs (Path.locate cwd v) segs = Some x ->
  forall k, (k < List.length segs)%nat ->
  Fs.stat fs (Path.locate cwd (fold_left Path.enter (firstn k segs) v))
  = Some Fs.Dir.
Proof.
  induction segs as [|seg segs IH]; intros v x H k Hk; [simpl in Hk; lia|].
  destruct (walk_step _ _ _ _ _ _ H) as [D W].
  destruct k as [|k]; [exact D|].
  cbn [firstn fold_left]. apply (IH _ x W). simpl in Hk. lia.
Qed.

(** What the test of a given string found is there for the path the
    string is read as. *)
Lemma existsSyncGiven_present cwd s fs :
  Fs.existsSyncGiven cwd s fs = (Ok true, fs) ->
  present cwd fs (Path.read (Path.Given s)) = true.
Proof.
  unfold Fs.existsSyncGiven. intros H.
  destruct (Fs.walk fs (Path.locate cwd (Path.start s)) (Path.segments s))
    as [place|] eqn:W.
  - apply walk_read in W. destruct W as [-> [F T]].
    unfold present. simpl.
    rewrite F by (unfold Path.start; destruct s as [|[[] [] [] [] [] [] [] []] s];
                  reflexivity).
    simpl in T. destruct (Fs.stat fs _); [reflexivity|congruence].
  - rewrite andb_false_r in H. discriminate.
Qed.

(** A hint that [path.join] would read as a path to a directory that
    exists is not found when the string passes through a directory
    that does not: with [/srv/data] there and [/srv/missing] not, the
    hint [/srv/missing/../data] leaves the call without a root. *)
Lemma hint_through_missing_directory :
  present dataCwd dataFs (Path.read (Path.Given "/srv/missing/../data")) = true
  /\ findRepoRootPath dataCwd (Some "/srv/missing/../data"%string) dataFs
     = (Ok None, dataFs)
  /\ findRepoRootPath dataCwd (Some "/srv/data"%string) dataFs
     = (Ok (Some (Path.Given "/srv/data")), dataFs).
Proof. repeat split; vm_compute; reflexivity. Qed.

(** C7. Root resolution tests the working directory and its ancestors,
    nearest first and ten directories at most, for a [.git] entry and
    returns the first that has one; when none of them has, it returns
    the fallback hint, as it was given, if one was given (a non-empty
    string) and it exists, with no [.git] asked of it: every directory
    the hint passes through is there, and the hint reads as a path to
    something that is there.  Otherwise it returns nothing, the tool
    call fails with [RootNotFound] and the file system is untouched.
    No other directory is ever returned. *)
Theorem C7_root_resolution (cwd : Path.path) (hint : option string)
        (now : string) (req : request) (fs : Fs.t) :
  exists found,
    findRepoRootPath cwd hint fs = (Ok found, fs) /\
    ((exists k, (k < 10)%nat /\ hasGit cwd fs (ancestor k cwd) = true
                /\ (forall i, (i < k)%nat ->
                              hasGit cwd fs (ancestor i cwd) = false)
                /\ found = Some (Path.Computed (ancestor k cwd)))
     \/ ((forall k, (k < 10)%nat -> hasGit cwd fs (ancestor k cwd) = false)
         /\ ((exists root, hint = Some root /\ root <> ""%string
                           /\ Fs.existsSyncGiven cwd root fs = (Ok true, fs)
                           /\ (forall k,
                                 (k < List.length (Path.segments root))%nat ->
                                 Fs.stat fs
                                   (Path.locate cwd
                                      (fold_left Path.enter
                                         (firstn k (Path.segments root))
                                         (Path.start root)))
                                 = Some Fs.Dir)
                           /\ present cwd fs (Path.read (Path.Given root)) = true
                           /\ found = Some (Path.Given root))
             \/ ((hint = None \/ hint = Some ""%string
                  \/ exists root, hint = Some root
                                  /\ Fs.existsSyncGiven cwd root fs
                                     = (Ok false, fs))
                 /\ found = None
                 /\ callTool cwd hint now req fs = (Throw RootNotFound, fs))))).
Proof.
  unfold callTool, findRepoRootPath, Fs.bind.
  destruct (walkUp_spec cwd MAX_DEPTH cwd fs) as [found [-> S]].
  destruct S as [[k [Hk [Hg [Hmin ->]]]]|[Hnone ->]].
  - eexists. split; [reflexivity|]. left. exists k. auto.
  - destruct hint as [root|].
    + destruct (JS.truthy root) eqn:T.
      * destruct (existsSyncGiven_reads cwd root fs) as [b P]. rewrite P.
        destruct b.
        -- eexists. split; [reflexivity|]. right. split; [exact Hnone|].
           left. exists root.
           split; [reflexivity|]. split; [intros ->; discriminate|].
           split; [exact P|]. split; [|split; [|reflexivity]].
           ++ unfold Fs.existsSyncGiven in P.
              destruct (Fs.walk fs (Path.locate cwd (Path.start root))
                          (Path.segments root)) as [x|] eqn:Wk.
              ** intros k Hk. exact (walk_dirs _ _ _ _ _ Wk k Hk).
              ** rewrite andb_false_r in P. discriminate.
           ++ now apply existsSyncGiven_present.
        -- eexists. split; [reflexivity|]. right. split; [exact Hnone|].
           right. split; [|split; reflexivity].
           right. right. exists root. auto.
      * eexists. split; [reflexivity|]. right. split; [exact Hnone|].
        right. split; [|split; reflexivity].
        right. left. unfold JS.truthy in T.
        apply negb_false_iff, String.eqb_eq in T. now subst.
    + eexists. split; [reflexivity|]. right. split; [exact Hnone|].
      right. split; [|split; reflexivity]. now left.
Qed.

(** ** The prologue of every tool call *)

Lemma callTool_prologue cwd hint now req fs :
  callTool cwd hint now req fs =
  (agelumPath <- prologue cwd hint ;; handler cwd now agelumPath req) fs.
Proof.
  unfold callTool, prologue, handler, Fs.bind.
  destruct (findRepoRootPath cwd hint fs) as [[[r|]|e] fs1]; reflexivity.
Qed.

Lemma dirsAlong_grows fs fs' p : grows fs fs' -> dirsAlong fs p -> dirsAlong fs' p.
Proof. intros G H k Hk. eapply grows_keeps; eauto. Qed.

Lemma dirsAlong_stat fs p : dirsAlong fs p -> Fs.stat fs p = Some Fs.Dir.
Proof.
  intros H. destruct p as [|c p]; [reflexivity|].
  simpl. rewrite <- (firstn_all (c :: p)). apply H. simpl. lia.
Qed.

Lemma dirsAlong_mkdir cwd fs p :
  Fs.fits p = true -> dirsAlong fs (Path.locate cwd p) ->
  Fs.mkdirSync cwd p fs = (Ok tt, fs).
Proof.
  intros F H. unfold Fs.mkdirSync. rewrite F. apply mkdirFrom_there. exact H.
Qed.

Lemma fits_enter p seg :
  Fs.fits p = true -> Fs.nameFits seg = true -> Fs.fits (Path.enter p seg) = true.
Proof.
  intros F N. unfold Path.enter.
  destruct (seg =? "")%string; [exact F|].
  destruct (seg =? ".")%string; [exact F|].
  destruct (seg =? "..")%string; [now apply fits_up|].
  now rewrite fits_snoc, F, N.
Qed.

Lemma fits_join p s :
  Fs.fits p = true -> forallb Fs.nameFits (Path.segments s) = true ->
  Fs.fits (Path.join p s) = true.
Proof.
  unfold Path.join. revert p.
  induction (Path.segments s) as [|seg segs IH]; intros p F N; [exact F|].
  simpl in N. apply andb_true_iff in N. destruct N as [N1 N2].
  simpl. apply IH; [now apply fits_enter|exact N2].
Qed.

Lemma fits_structure ap dir :
  Fs.fits ap = true -> In dir AGELUM_STRUCTURE ->
  Fs.fits (Path.join ap dir) = true.
Proof.
  intros F H. apply fits_join; [exact F|].
  simpl in H. repeat destruct H as [<-|H]; try reflexivity. destruct H.
Qed.

Section Provisioning.

Variable cwd : Path.path.

Variable agelumPath : Path.path.

(** The loop of [ensureAgelumStructure] over any list of directories. *)
Let loop (dirs : list string) : Fs.M Path.path :=
  fold_right
    (fun dir rest => Fs.mkdirSync cwd (Path.join agelumPath dir) ;;; rest)
    (Fs.ret agelumPath) dirs.

Lemma loop_grows dirs : forall fs r fs', loop dirs fs = (r, fs') -> grows fs fs'.
Proof.
  induction dirs as [|d dirs IH]; simpl; intros fs r fs' H.
  - inversion H. apply grows_refl.
  - unfold Fs.bind in H.
    destruct (Fs.mkdirSync cwd (Path.join agelumPath d) fs) as [[[]|e] fs1] eqn:E.
    + eapply grows_trans; [eapply mkdirSync_grows, E|eapply IH, H].
    + inversion H; subst. eapply mkdirSync_grows, E.
Qed.

Lemma loop_made dirs : forall fs r fs',
  loop dirs fs = (Ok r, fs') ->
  r = agelumPath /\
  forall dir, In dir dirs ->
              dirsAlong fs' (Path.locate cwd (Path.join agelumPath dir)).
Proof.
  induction dirs as [|d dirs IH]; simpl; intros fs r fs' H.
  - inversion H. split; [reflexivity|]. intros dir [].
  - unfold Fs.bind in H.
    destruct (Fs.mkdirSync cwd (Path.join agelumPath d) fs) as [[[]|e] fs1] eqn:E;
      [|discriminate].
    destruct (IH _ _ _ H) as [-> Hd]. split; [reflexivity|].
    intros dir [<-|Hin]; [|auto].
    eapply dirsAlong_grows; [eapply loop_grows, H|].
    eapply mkdirSync_made; eauto.
Qed.

Lemma loop_there dirs : forall fs,
  (forall dir, In dir dirs ->
               Fs.fits (Path.join agelumPath dir) = true
               /\ dirsAlong fs (Path.locate cwd (Path.join agelumPath dir))) ->
  loop dirs fs = (Ok agelumPath, fs).
Proof.
  induction dirs as [|d dirs IH]; simpl; intros fs H; [reflexivity|].
  unfold Fs.bind. destruct (H d) as [F D]; [now left|].
  rewrite dirsAlong_mkdir by assumption. apply IH. auto.
Qed.

End Provisioning.

Lemma ensure_grows cwd r fs res fs' :
  ensureAgelumStructure cwd r fs = (res, fs') -> grows fs fs'.
Proof.
  unfold ensureAgelumStructure, Fs.bind. intros H.
  destruct (Fs.mkdirSync cwd (getAgelumPath r) fs) as [[[]|e] fs1] eqn:E.
  - eapply grows_trans; [eapply mkdirSync_grows, E|].
    eapply loop_grows, H.
  - inversion H; subst. eapply mkdirSync_grows, E.
Qed.

Lemma ensure_made cwd r fs ap fs' :
  ensureAgelumStructure cwd r fs = (Ok ap, fs') ->
  ap = getAgelumPath r /\ provisioned cwd ap fs'.
Proof.
  unfold ensureAgelumStructure, Fs.bind. intros H.
  destruct (Fs.mkdirSync cwd (getAgelumPath r) fs) as [[[]|e] fs1] eqn:E;
    [|discriminate].
  destruct (loop_made _ _ _ _ _ _ H) as [-> Hd]. split; [reflexivity|].
  split; [eapply mkdirSync_fits, E|]. split; [|exact Hd].
  eapply dirsAlong_grows; [eapply loop_grows, H|].
  eapply mkdirSync_made; eauto.
Qed.

Lemma ensure_there cwd r fs :
  provisioned cwd (getAgelumPath r) fs ->
  ensureAgelumStructure cwd r fs = (Ok (getAgelumPath r), fs).
Proof.
  intros [F [H1 H2]]. unfold ensureAgelumStructure, Fs.bind.
  rewrite dirsAlong_mkdir by assumption. apply loop_there.
  intros dir Hin. split; [now apply fits_structure|auto].
Qed.

(** What a prologue that returned has established. *)
Lemma prologue_ok cwd hint fs ap fs1 :
  prologue cwd hint fs = (Ok ap, fs1) ->
  exists r, findRepoRootPath cwd hint fs = (Ok (Some r), fs)
            /\ ensureAgelumStructure cwd r fs = (Ok ap, fs1)
            /\ ap = getAgelumPath r /\ grows fs fs1 /\ provisioned cwd ap fs1.
Proof.
  unfold prologue, Fs.bind. intros H.
  destruct (findRepoRootPath_reads cwd hint fs) as [found F].
  rewrite F in H. destruct found as [r|]; [|discriminate].
  exists r. split; [exact F|]. split; [exact H|].
  destruct (ensure_made _ _ _ _ _ H) as [-> P].
  split; [reflexivity|]. split; [eapply ensure_grows, H|exact P].
Qed.

(** A prologue only adds directories, whatever its outcome. *)
Lemma prologue_grows cwd hint fs res fs1 :
  prologue cwd hint fs = (res, fs1) -> grows fs fs1.
Proof.
  unfold prologue, Fs.bind. intros H.
  destruct (findRepoRootPath_reads cwd hint fs) as [found F].
  rewrite F in H. destruct found as [r|].
  - eapply ensure_grows, H.
  - inversion H. apply grows_refl.
Qed.

(** The directory of every type and state is one of the tree. *)
Lemma directoryOf_structure ap type state :
  exists dir, In dir AGELUM_STRUCTURE /\ directoryOf ap type state = Path.join ap dir.
Proof.
  exists (match type with
          | task => "tasks/" ++ stateName state
          | _ => orDefault "" (nonTaskTypeToDir type)
          end)%string.
  destruct type, state; (split; [simpl; tauto|reflexivity]).
Qed.

Lemma provisioned_directory cwd ap fs type state :
  provisioned cwd ap fs ->
  Fs.fits (directoryOf ap type state) = true
  /\ dirsAlong fs (Path.locate cwd (directoryOf ap type state)).
Proof.
  intros [F [_ H]].
  destruct (directoryOf_structure ap type state) as [d [Hin ->]].
  split; [now apply fits_structure|auto].
Qed.

(** ** The handlers *)

Lemma pair_fst_snd {A B} (x : A * B) (a : A) : fst x = a -> x = (a, snd x).
Proof. destruct x; simpl; congruence. Qed.

Lemma callTool_after_prologue cwd hint now req fs ap fs1 :
  prologue cwd hint fs = (Ok ap, fs1) ->
  callTool cwd hint now req fs = handler cwd now ap req fs1.
Proof.
  intros H. rewrite callTool_prologue. unfold Fs.bind. now rewrite H.
Qed.

Lemma callTool_prologue_throws cwd hint now req fs e fs1 :
  prologue cwd hint fs = (Throw e, fs1) ->
  callTool cwd hint now req fs = (Throw e, fs1).
Proof.
  intros H. rewrite callTool_prologue. unfold Fs.bind. now rewrite H.
Qed.

(** An error of [mkdirSync] names the path the call was given. *)
Lemma mkdirSync_errors cwd p fs e fs' :
  Fs.mkdirSync cwd p fs = (Throw e, fs') -> exists code, e = FsError code p.
Proof.
  unfold Fs.mkdirSync. destruct (Fs.fits p); [|intros H; inversion H; eauto].
  generalize (@nil string). revert fs.
  induction (Path.locate cwd p) as [|c l IH]; simpl; intros fs made H;
    [discriminate|].
  destruct (Fs.stat fs (made ++ [c])) as [[x|]|]; eauto.
  inversion H. eauto.
Qed.

Lemma renameSync_errors cwd src dst fs e fs' :
  Fs.renameSync cwd src dst fs = (Throw e, fs') ->
  exists code q, e = FsError code q.
Proof.
  unfold Fs.renameSync. intros H.
  repeat match type of H with
         | context [if ?b then _ else _] => destruct b
         | context [match ?x with _ => _ end] => destruct x
         end; inversion H; eauto.
Qed.

(** The errors of the prologue. *)
Lemma prologue_errors cwd hint fs e fs1 :
  prologue cwd hint fs = (Throw e, fs1) ->
  e = RootNotFound \/ exists code p, e = FsError code p.
Proof.
  unfold prologue, Fs.bind. intros H.
  destruct (findRepoRootPath_reads cwd hint fs) as [found F].
  rewrite F in H. destruct found as [r|]; [|inversion H; auto].
  right. revert H. unfold ensureAgelumStructure, Fs.bind.
  destruct (Fs.mkdirSync cwd (getAgelumPath r) fs) as [[[]|e0] fs0] eqn:E.
  - generalize AGELUM_STRUCTURE, fs0. clear E.
    induction l as [|d l IH]; simpl; intros fs2 H; [discriminate|].
    unfold Fs.bind in H.
    destruct (Fs.mkdirSync cwd (Path.join (getAgelumPath r) d) fs2)
      as [[[]|e1] fs3] eqn:E1; [eauto|].
    inversion H; subst. apply mkdirSync_errors in E1. destruct E1; eauto.
  - intros H. inversion H; subst. apply mkdirSync_errors in E.
    destruct E; eauto.
Qed.

Lemma TaskState_eqb_eq a b : TaskState_eqb a b = true <-> a = b.
Proof. destruct a, b; simpl; split; congruence. Qed.

Lemma moveFileName_ensure a f :
  moveFileName a = Ok f -> exists name, f = ensureMdExtension name.
Proof.
  unfold moveFileName.
  destruct (if negb (truthyOpt (m_fileName a)) then _ else _) as [name|e];
    [|discriminate].
  intros H. inversion H. eauto.
Qed.

Lemma moveFileName_errors a e :
  moveFileName a = Throw e -> e <> InvalidTransition.
Proof.
  unfold moveFileName, buildFileName, formatPriority.
  repeat match goal with
         | |- context [if ?b then _ else _] => destruct b
         | |- context [match ?o with Some _ => _ | None => _ end] => destruct o
         end; intros H; inversion H; discriminate.
Qed.

Lemma removelast_snoc {A} (l : list A) (x : A) : removelast (l ++ [x]) = l.
Proof. apply removelast_last. Qed.

Lemma snoc_not_nil {A} (l : list A) (x : A) : l ++ [x] <> [].
Proof. destruct l; discriminate. Qed.

(** A file name is no [.] and no [..]: it has three characters at
    least. *)
Lemma locate_name cwd p f :
  (3 <= String.length f)%nat ->
  Path.locate cwd (p ++ [f]) = Path.locate cwd p ++ [f].
Proof.
  intros L. apply locate_snoc; intros ->; simpl in L; lia.
Qed.

(** [renameSync] of a file onto a free path in a directory. *)
Lemma renameSync_file cwd fs dir dir' f f' c :
  (3 <= String.length f)%nat -> (3 <= String.length f')%nat ->
  Fs.fits (dir ++ [f]) = true -> Fs.fits (dir' ++ [f']) = true ->
  fs (Path.locate cwd dir ++ [f]) = Some (Fs.File c) ->
  Fs.stat fs (Path.locate cwd dir') = Some Fs.Dir ->
  fs (Path.locate cwd dir' ++ [f']) = None ->
  Fs.renameSync cwd (dir ++ [f]) (dir' ++ [f']) fs =
  (Ok tt, Fs.set (Fs.set fs (Path.locate cwd dir ++ [f]) None)
            (Path.locate cwd dir' ++ [f']) (Some (Fs.File c))).
Proof.
  intros L L' F F' S D T. unfold Fs.renameSync.
  rewrite F, F', !locate_name by assumption. cbn [negb].
  rewrite path_eqb_neq by apply snoc_not_nil.
  rewrite !stat_nonroot, S.
  rewrite removelast_snoc, D, T. reflexivity.
Qed.

Lemma present_snoc cwd fs dir f :
  (3 <= String.length f)%nat ->
  present cwd fs (dir ++ [f]) =
  Fs.fits dir && Fs.nameFits f
  && match fs (Path.locate cwd dir ++ [f]) with
     | Some _ => true
     | None => false
     end.
Proof.
  intros L. unfold present.
  now rewrite fits_snoc, locate_name, stat_nonroot by assumption.
Qed.

(** One step of a handler: the monad's plumbing reduced away. *)
Ltac run :=
  cbv beta iota zeta delta [negb Fs.bind Fs.lift Fs.ret Fs.throw].

(** The handlers, with the monad unfolded. *)
Lemma move_eq cwd ap a fs :
  move cwd ap a fs =
  if TaskState_eqb (m_fromState a) (m_toState a)
  then (Throw InvalidTransition, fs)
  else
    match moveFileName a with
    | Throw e => (Throw e, fs)
    | Ok f =>
        let src := Path.join (directoryOf ap task (m_fromState a)) f in
        let dst := Path.join (directoryOf ap task (m_toState a)) f in
        if present cwd fs src then
          match Fs.mkdirSync cwd (directoryOf ap task (m_toState a)) fs with
          | (Throw e, fs2) => (Throw e, fs2)
          | (Ok _, fs2) =>
              if present cwd fs2 dst then (Throw (TargetExists dst), fs2)
              else
                match Fs.renameSync cwd src dst fs2 with
                | (Throw e, fs3) => (Throw e, fs3)
                | (Ok _, fs3) => (Ok (Moved src dst), fs3)
                end
          end
        else (Throw (SourceNotFound src), fs)
    end.
Proof.
  unfold move, directoryOf. simpl nonTaskTypeToDir. run.
  destruct (TaskState_eqb (m_fromState a) (m_toState a)); [reflexivity|].
  destruct (moveFileName a) as [f|e]; [|reflexivity].
  run. rewrite existsSync_eq.
  destruct (present cwd fs _); run; [|reflexivity].
  destruct (Fs.mkdirSync cwd _ fs) as [[[]|e] fs2]; [|reflexivity].
  run. rewrite existsSync_eq.
  destruct (present cwd fs2 _); run; [reflexivity|].
  destruct (Fs.renameSync cwd _ _ fs2) as [[[]|e] fs3]; reflexivity.
Qed.

Lemma create_eq cwd now ap a fs :
  create cwd now ap a fs =
  match createFileName a with
  | Throw e => (Throw e, fs)
  | Ok f =>
      let state := orDefault pending (c_state a) in
      let dir := directoryOf ap (c_type a) state in
      match Fs.mkdirSync cwd dir fs with
      | (Throw e, fs1) => (Throw e, fs1)
      | (Ok _, fs1) =>
          let filePath := Path.join dir f in
          if present cwd fs1 filePath then (Throw (AlreadyExists filePath), fs1)
          else
            match buildFrontmatter now (c_type a) (c_title a) (Some state)
                    (c_priority a) (c_storyPoints a) with
            | Throw e => (Throw e, fs1)
            | Ok frontmatter =>
                let body := (LF ++ "# " ++ c_title a ++ LF ++ LF
                             ++ orDefault "" (c_content a) ++ LF)%string in
                match Fs.writeFileSync cwd filePath (frontmatter ++ body)%string
                        fs1 with
                | (Throw e, fs2) => (Throw e, fs2)
                | (Ok _, fs2) => (Ok (Created filePath), fs2)
                end
            end
      end
  end.
Proof.
  unfold create. run.
  destruct (createFileName a) as [f|e]; [|reflexivity].
  run.
  destruct (Fs.mkdirSync cwd _ fs) as [[[]|e] fs1]; [|reflexivity].
  run. rewrite existsSync_eq.
  destruct (present cwd fs1 _); run; [reflexivity|].
  destruct (buildFrontmatter _ _ _ _ _ _) as [fm|e]; [|reflexivity].
  run.
  destruct (Fs.writeFileSync cwd _ _ fs1) as [[[]|e] fs2]; reflexivity.
Qed.

Lemma findExisting_eq cwd paths fs :
  findExisting cwd paths fs = (Ok (find (present cwd fs) paths), fs).
Proof.
  induction paths as [|p paths IH]; simpl; [reflexivity|].
  run. rewrite existsSync_eq.
  destruct (present cwd fs p); [reflexivity|]. exact IH.
Qed.

Lemma get_eq cwd ap a fs :
  get cwd ap a fs =
  match getFileName a with
  | Throw e => (Throw e, fs)
  | Ok f =>
      let paths := possiblePaths ap a f in
      match find (present cwd fs) paths with
      | Some p => (Ok (Resolved p true), fs)
      | None => (Ok (Resolved (hd [] paths) false), fs)
      end
  end.
Proof.
  unfold get. run.
  destruct (getFileName a) as [f|e]; [|reflexivity].
  run. rewrite findExisting_eq.
  destruct (find _ _); reflexivity.
Qed.

(** C3. Once the prologue has returned, [move] fails with
    [InvalidTransition] exactly when [fromState] equals [toState]: it
    does so before it looks at any file, leaving what the prologue left,
    whether the source file is there or not; and for every two distinct
    states, in any order, the move of a file that is in the source
    directory and not in the target directory goes through. *)
Theorem C3_invalid_transition (cwd : Path.path) (hint : option string)
        (now : string) (a : MoveArgs) (fs fs1 : Fs.t) (ap : Path.path) :
  prologue cwd hint fs = (Ok ap, fs1) ->
  (m_fromState a = m_toState a ->
   callTool cwd hint now (Move a) fs = (Throw InvalidTransition, fs1))
  /\ (forall fs', callTool cwd hint now (Move a) fs = (Throw InvalidTransition, fs') ->
                  m_fromState a = m_toState a)
  /\ (m_fromState a <> m_toState a ->
      forall f c,
        moveFileName a = Ok f -> allChars notSlash f = true ->
        Fs.nameFits f = true ->
        fs1 (Path.locate cwd (directoryOf ap task (m_fromState a) ++ [f]))
        = Some (Fs.File c) ->
        fs1 (Path.locate cwd (directoryOf ap task (m_toState a) ++ [f])) = None ->
        exists fs2,
          callTool cwd hint now (Move a) fs =
          (Ok (Moved (directoryOf ap task (m_fromState a) ++ [f])
                     (directoryOf ap task (m_toState a) ++ [f])), fs2)).
Proof.
  intros P. rewrite (callTool_after_prologue _ _ _ _ _ _ _ P).
  destruct (prologue_ok _ _ _ _ _ P) as [r [_ [_ [_ [_ Prov]]]]].
  simpl handler. rewrite move_eq. split; [|split].
  - intros E. apply TaskState_eqb_eq in E. now rewrite E.
  - intros fs'. destruct (TaskState_eqb (m_fromState a) (m_toState a)) eqn:E.
    + intros _. now apply TaskState_eqb_eq.
    + intros H. exfalso.
      destruct (moveFileName a) as [f|e] eqn:F.
      * cbv zeta in H. destruct (present cwd fs1 _); [|discriminate].
        destruct (Fs.mkdirSync cwd _ fs1) as [[[]|e] fs2] eqn:M.
        -- destruct (present cwd fs2 _); [discriminate|].
           destruct (Fs.renameSync cwd _ _ fs2) as [[[]|e] fs3] eqn:R;
             [discriminate|].
           apply renameSync_errors in R. destruct R as [code [q ->]].
           discriminate.
        -- apply mkdirSync_errors in M. destruct M as [code ->].
           discriminate.
      * apply moveFileName_errors in F. inversion H. congruence.
  - intros N f c F Plain Fit S T.
    destruct (TaskState_eqb (m_fromState a) (m_toState a)) eqn:E;
      [apply TaskState_eqb_eq in E; contradiction|].
    rewrite F. cbv zeta.
    destruct (moveFileName_ensure _ _ F) as [name Ef].
    assert (L : (3 <= String.length f)%nat) by (subst f; apply ensureMd_length).
    rewrite !join_name by assumption.
    rewrite locate_name in S, T by assumption.
    destruct (provisioned_directory _ _ _ task (m_fromState a) Prov) as [F1 D1].
    destruct (provisioned_directory _ _ _ task (m_toState a) Prov) as [F2 D2].
    rewrite present_snoc by assumption. rewrite F1, Fit, S. cbn [andb].
    rewrite dirsAlong_mkdir by assumption.
    rewrite present_snoc by assumption. rewrite T, andb_false_r.
    erewrite renameSync_file; eauto.
    + now rewrite fits_snoc, F1, Fit.
    + now rewrite fits_snoc, F2, Fit.
    + now apply dirsAlong_stat.
Qed.

(** ** A repository to run the handlers in *)

Lemma demo_prologue : prologue demoCwd None demoFs = (Ok demoAgelum, demoFs1).
Proof. apply pair_fst_snd. vm_compute. reflexivity. Qed.

Lemma demo_prologue2 : prologue demoCwd None demoFs2 = (Ok demoAgelum, demoFs2).
Proof. lazy. reflexivity. Qed.

(** C3, at a request to move the task from [pending] to [pending]. *)
Lemma C3_witness :
  prologue demoCwd None demoFs = (Ok demoAgelum, demoFs1)
  /\ callTool demoCwd None demoNow (Move (moveFixBug pending pending)) demoFs
     = (Throw InvalidTransition, demoFs1).
Proof.
  split; [exact demo_prologue|].
  exact (proj1 (C3_invalid_transition demoCwd None demoNow
                  (moveFixBug pending pending) demoFs demoFs1 demoAgelum
                  demo_prologue) eq_refl).
Defined.

(** C3 does not hold of every call.  Outside a repository a move from
    [pending] to [pending] fails with [RootNotFound]; and inside one,
    the directories of the store are made before the move fails with
    [InvalidTransition]. *)
Lemma C3_counterexample :
  m_fromState (moveFixBug pending pending) = m_toState (moveFixBug pending pending)
  /\ callTool demoCwd None demoNow (Move (moveFixBug pending pending)) Fs.empty
     = (Throw RootNotFound, Fs.empty)
  /\ fst (callTool demoCwd None demoNow (Move (moveFixBug pending pending)) demoFs)
     = Throw InvalidTransition
  /\ demoFs (demoAgelum ++ ["tasks"; "pending"]%string) = None
  /\ snd (callTool demoCwd None demoNow (Move (moveFixBug pending pending)) demoFs)
       (demoAgelum ++ ["tasks"; "pending"]%string) = Some Fs.Dir.
Proof. repeat split; vm_compute; reflexivity. Qed.

(** ** [get]: the candidate paths *)



(** ** [create] *)

Lemma writeFileSync_new cwd fs dir f data :
  (3 <= String.length f)%nat -> Fs.fits (dir ++ [f]) = true ->
  fs (Path.locate cwd dir ++ [f]) = None ->
  Fs.stat fs (Path.locate cwd dir) = Some Fs.Dir ->
  Fs.writeFileSync cwd (dir ++ [f]) data fs =
  (Ok tt, Fs.set fs (Path.locate cwd dir ++ [f]) (Some (Fs.File data))).
Proof.
  intros L F N D. unfold Fs.writeFileSync.
  rewrite F, locate_name by assumption. cbn [negb].
  now rewrite stat_nonroot, N, removelast_snoc, D.
Qed.

(** A name the file system does not take. *)
Lemma writeFileSync_long cwd p data fs :
  Fs.fits p = false ->
  Fs.writeFileSync cwd p data fs = (Throw (FsError ENAMETOOLONG p), fs).
Proof. intros F. unfold Fs.writeFileSync. now rewrite F. Qed.

(** What a [create] that returned has done: one file written at a path
    that was free, in a directory of the tree. *)
Lemma create_ok cwd now ap a fs1 p fs2 :
  provisioned cwd ap fs1 ->
  create cwd now ap a fs1 = (Ok (Created p), fs2) ->
  exists f data,
    createFileName a = Ok f
    /\ p = directoryOf ap (c_type a) (orDefault pending (c_state a)) ++ [f]
    /\ Fs.nameFits f = true
    /\ fs1 (Path.locate cwd p) = None
    /\ fs2 = Fs.set fs1 (Path.locate cwd p) (Some (Fs.File data)).
Proof.
  intros Prov H. rewrite create_eq in H.
  destruct (createFileName a) as [f|e] eqn:F; [|discriminate].
  cbv zeta in H.
  destruct (provisioned_directory _ _ _ (c_type a)
              (orDefault pending (c_state a)) Prov) as [Fd Dd].
  destruct (createFileName_plain _ _ F) as [_ [L _]].
  rewrite dirsAlong_mkdir in H by assumption.
  rewrite (createFileName_join _ _ _ F) in H.
  rewrite present_snoc in H by assumption. rewrite Fd in H. cbn [andb] in H.
  destruct (Fs.nameFits f) eqn:Nf.
  - cbn [andb] in H. destruct (fs1 _) eqn:N; [discriminate|].
    destruct (buildFrontmatter _ _ _ _ _ _) as [fm|e]; [|discriminate].
    rewrite writeFileSync_new in H;
      [|exact L|now rewrite fits_snoc, Fd, Nf|exact N|now apply dirsAlong_stat].
    inversion H. subst. rewrite locate_name by assumption. eauto 8.
  - cbn [andb] in H.
    destruct (buildFrontmatter _ _ _ _ _ _) as [fm|e]; [|discriminate].
    rewrite writeFileSync_long in H by (now rewrite fits_snoc, Fd, Nf).
    discriminate.
Qed.





(** ** Two calls in a row *)

Lemma stat_set_other fs p n q : q <> p -> Fs.stat (Fs.set fs p n) q = Fs.stat fs q.
Proof. intros H. destruct q; [reflexivity|]. simpl. now apply set_other. Qed.

Lemma wellFormed_empty : wellFormed Fs.empty.
Proof. intros p c H. now contradiction H. Qed.

Lemma snoc_neq_self {A} (l : list A) (x : A) : l <> l ++ [x].
Proof.
  intros E. apply (f_equal (@List.length A)) in E.
  rewrite length_app in E. simpl in E. lia.
Qed.

Lemma wellFormed_set_dir fs p x :
  wellFormed fs -> Fs.stat fs p = Some Fs.Dir ->
  wellFormed (Fs.set fs (p ++ [x]) (Some Fs.Dir)).
Proof.
  intros W D q c H.
  destruct (list_eq_dec string_dec (q ++ [c]) (p ++ [x])) as [E|N].
  - apply app_inj_tail in E. destruct E as [-> _].
    rewrite stat_set_other by apply snoc_neq_self. exact D.
  - rewrite set_other in H by exact N. apply W in H.
    destruct (list_eq_dec string_dec q (p ++ [x])) as [->|N'].
    + rewrite stat_nonroot. apply set_same.
    + now rewrite stat_set_other.
Qed.

Lemma mkdirFrom_wellFormed asked rest : forall made fs res fs',
  wellFormed fs -> Fs.stat fs made = Some Fs.Dir ->
  Fs.mkdirFrom asked made rest fs = (res, fs') -> wellFormed fs'.
Proof.
  induction rest as [|c rest IH]; simpl; intros made fs res fs' W D H.
  - inversion H. now subst.
  - destruct (Fs.stat fs (made ++ [c])) as [[x|]|] eqn:E.
    + inversion H. now subst.
    + eapply IH; [exact W|exact E|exact H].
    + eapply IH; [|
        |exact H].
      * now apply wellFormed_set_dir.
      * rewrite stat_nonroot. apply set_same.
Qed.

Lemma mkdirSync_wellFormed cwd p fs :
  wellFormed fs -> wellFormed (snd (Fs.mkdirSync cwd p fs)).
Proof.
  intros W. unfold Fs.mkdirSync. destruct (Fs.fits p); [|exact W].
  destruct (Fs.mkdirFrom p [] (Path.locate cwd p) fs) as [res fs'] eqn:E.
  apply (mkdirFrom_wellFormed p _ [] fs res fs' W eq_refl E).
Qed.

(** In a well-formed file system all that is above an entry is there. *)
Lemma wellFormed_prefixes fs : wellFormed fs -> forall p,
  Fs.stat fs p <> None ->
  forall k, (0 < k <= List.length p)%nat -> fs (firstn k p) <> None.
Proof.
  intros W p. induction p as [|c p IH] using rev_ind; intros H k Hk.
  - simpl in Hk. lia.
  - rewrite stat_nonroot in H. rewrite length_app in Hk. simpl in Hk.
    destruct (Nat.eq_dec k (List.length p + 1)) as [->|N].
    + rewrite firstn_all2 by (rewrite length_app; simpl; lia). exact H.
    + rewrite firstn_app.
      replace (k - List.length p)%nat with 0%nat by lia.
      rewrite app_nil_r. apply IH; [|lia].
      apply W in H. congruence.
Qed.

(** [mkdirSync] changes the file system only along its path. *)
Lemma mkdirFrom_changes asked rest : forall made fs res fs' q,
  Fs.mkdirFrom asked made rest fs = (res, fs') -> fs' q <> fs q ->
  exists k, (0 < k <= List.length rest)%nat /\ q = made ++ firstn k rest.
Proof.
  induction rest as [|c rest IH]; simpl; intros made fs res fs' q H N.
  - inversion H. subst. congruence.
  - assert (Step : forall fs1,
                     Fs.mkdirFrom asked (made ++ [c]) rest fs1 = (res, fs') ->
                     fs' q <> fs1 q ->
                     exists k, (0 < k <= S (List.length rest))%nat
                               /\ q = made ++ firstn k (c :: rest)).
    { intros fs1 H1 N1. destruct (IH _ _ _ _ _ H1 N1) as [k [Hk ->]].
      exists (S k). split; [lia|]. simpl. now rewrite <- app_assoc. }
    destruct (Fs.stat fs (made ++ [c])) as [[x|]|] eqn:E.
    + inversion H. subst. congruence.
    + eauto.
    + destruct (list_eq_dec string_dec q (made ++ [c])) as [->|Nq].
      * exists 1%nat. split; [lia|reflexivity].
      * apply (Step _ H). now rewrite set_other.
Qed.

Lemma mkdirSync_changes cwd p fs res fs' q :
  Fs.mkdirSync cwd p fs = (res, fs') -> fs' q <> fs q ->
  exists k, (0 < k <= List.length (Path.locate cwd p))%nat
            /\ q = firstn k (Path.locate cwd p).
Proof.
  unfold Fs.mkdirSync. destruct (Fs.fits p).
  - intros H N. exact (mkdirFrom_changes _ _ _ _ _ _ _ H N).
  - intros H N. inversion H. subst. congruence.
Qed.

(** What the walk finds depends on the [.git] entries only. *)
Lemma walkUp_ext cwd fs fs' :
  (forall d, hasGit cwd fs' d = hasGit cwd fs d) ->
  forall fuel p, fst (walkUp cwd fuel p fs') = fst (walkUp cwd fuel p fs).
Proof.
  intros H. induction fuel as [|fuel IH]; intros p; [reflexivity|].
  simpl. run. rewrite !existsSync_eq.
  fold (hasGit cwd fs' p). fold (hasGit cwd fs p). rewrite H.
  destruct (hasGit cwd fs p); [reflexivity|].
  destruct (Path.eqb (Path.dirname p) p); [reflexivity|]. apply IH.
Qed.

(** A string followed to a directory is followed through directories
    only. *)
Lemma walk_from_dir fs segs place x :
  Fs.walk fs place segs = Some x -> Fs.stat fs x = Some Fs.Dir ->
  Fs.stat fs place = Some Fs.Dir.
Proof.
  destruct segs as [|seg segs]; simpl.
  - destruct (Fs.stat fs place) eqn:E; [|discriminate].
    intros H D. inversion H. subst. congruence.
  - destruct (Fs.stat fs place) as [[|]|]; try discriminate. reflexivity.
Qed.

(** It leads to the same directory in a file system that has the
    directories of the first. *)
Lemma walk_ext fs fs' segs : forall place x,
  (forall q, Fs.stat fs q = Some Fs.Dir -> Fs.stat fs' q = Some Fs.Dir) ->
  Fs.walk fs place segs = Some x -> Fs.stat fs x = Some Fs.Dir ->
  Fs.walk fs' place segs = Some x.
Proof.
  induction segs as [|seg segs IH]; intros place x K H D.
  - simpl in *. destruct (Fs.stat fs place); [|discriminate].
    inversion H. subst. now rewrite (K _ D).
  - pose proof (walk_from_dir _ _ _ _ H D) as Dp.
    cbn [Fs.walk] in *. rewrite Dp in H. rewrite (K _ Dp).
    destruct ((seg =? "") || (seg =? "."))%string; [now apply IH|].
    destruct (seg =? "..")%string; [now apply IH|].
    destruct (Fs.nameFits seg); [|discriminate].
    destruct (Fs.stat fs (place ++ [seg])) eqn:E; [|discriminate].
    rewrite (K _ (walk_from_dir _ _ _ _ H D)). now apply IH.
Qed.

Lemma existsSyncGiven_ext cwd s fs fs' :
  (forall q, Fs.stat fs q = Some Fs.Dir -> Fs.stat fs' q = Some Fs.Dir) ->
  Fs.existsSyncGiven cwd s fs = (Ok true, fs) ->
  Fs.stat fs (Path.locate cwd (Path.read (Path.Given s))) = Some Fs.Dir ->
  Fs.existsSyncGiven cwd s fs' = (Ok true, fs').
Proof.
  unfold Fs.existsSyncGiven. intros K H D.
  destruct (s =? "")%string; [discriminate|].
  destruct (Fs.walk fs _ _) as [x|] eqn:W; [|discriminate].
  pose proof (walk_read _ _ _ _ _ W) as [Ex _].
  simpl in D. rewrite <- Ex in D.
  now rewrite (walk_ext _ _ _ _ _ K W D).
Qed.

(** The root that is found is the same in a file system that has the
    same [.git] entries and the directories of the first, when the
    root is a directory. *)
Lemma findRepoRootPath_ext cwd hint fs fs' r :
  (forall d, hasGit cwd fs' d = hasGit cwd fs d) ->
  (forall q, Fs.stat fs q = Some Fs.Dir -> Fs.stat fs' q = Some Fs.Dir) ->
  Fs.stat fs (Path.locate cwd (Path.read r)) = Some Fs.Dir ->
  findRepoRootPath cwd hint fs = (Ok (Some r), fs) ->
  findRepoRootPath cwd hint fs' = (Ok (Some r), fs').
Proof.
  intros G K D. unfold findRepoRootPath. run.
  destruct (walkUp_spec cwd MAX_DEPTH cwd fs) as [found [W _]].
  destruct (walkUp_spec cwd MAX_DEPTH cwd fs') as [found' [W' _]].
  pose proof (walkUp_ext cwd fs fs' G MAX_DEPTH cwd) as E.
  rewrite W, W' in E. simpl in E. inversion E. subst found'.
  rewrite W, W'. destruct found as [p|].
  - intros H. inversion H. reflexivity.
  - destruct hint as [root|]; [|discriminate].
    destruct (JS.truthy root); [|discriminate].
    destruct (existsSyncGiven_reads cwd root fs) as [b P]. rewrite P.
    destruct b; [|discriminate].
    intros H. inversion H. subst r.
    now rewrite (existsSyncGiven_ext _ _ _ _ K P D).
Qed.

(** The root that was found has a [.git] entry or is the hint, which
    exists. *)
Lemma findRepoRootPath_found cwd hint fs r :
  findRepoRootPath cwd hint fs = (Ok (Some r), fs) ->
  hasGit cwd fs (Path.read r) = true \/ present cwd fs (Path.read r) = true.
Proof.
  unfold findRepoRootPath. run.
  destruct (walkUp_spec cwd MAX_DEPTH cwd fs) as [found [-> S]].
  destruct S as [[k [_ [G [_ ->]]]]|[_ ->]].
  - intros H. inversion H. subst. now left.
  - destruct hint as [root|]; [|discriminate].
    destruct (JS.truthy root); [|discriminate].
    destruct (existsSyncGiven_reads cwd root fs) as [b P]. rewrite P.
    destruct b; [|discriminate].
    intros H. inversion H. subst. right.
    now apply existsSyncGiven_present.
Qed.

Lemma join_git d : Path.join d ".git" = d ++ [".git"%string].
Proof. reflexivity. Qed.

Lemma hasGit_eq cwd fs d :
  hasGit cwd fs d =
  Fs.fits d && match fs (Path.locate cwd d ++ [".git"%string]) with
               | Some _ => true
               | None => false
               end.
Proof.
  unfold hasGit. rewrite join_git, present_snoc by (simpl; lia).
  now rewrite andb_true_r.
Qed.

Lemma node_eq_dec (x y : option Fs.node) : {x = y} + {x <> y}.
Proof. decide equality. decide equality. apply string_dec. Qed.

Lemma agelum_snoc r : getAgelumPath r = Path.read r ++ ["agelum"%string].
Proof. unfold getAgelumPath. apply join_name; [reflexivity|simpl; lia]. Qed.

(** The places of the tree below the repository root: none of their
    components is [.git]. *)
Lemma structure_below cwd r dir :
  In dir AGELUM_STRUCTURE ->
  exists tl, Path.locate cwd (Path.join (getAgelumPath r) dir)
             = Path.locate cwd (Path.read r) ++ tl
             /\ ~ In ".git"%string tl.
Proof.
  intros H. exists ("agelum"%string :: Path.segments dir). simpl in H.
  rewrite agelum_snoc.
  repeat (destruct H as [<-|H];
          [split;
           [unfold Path.join; simpl; unfold Path.enter; simpl;
            rewrite !locate_snoc by discriminate;
            rewrite <- ?app_assoc; reflexivity
           |simpl; intuition discriminate]|]).
  contradiction.
Qed.

Lemma loop_changes cwd r q dirs : forall fs res fs',
  (forall dir, In dir dirs -> In dir AGELUM_STRUCTURE) ->
  fold_right
    (fun dir rest => Fs.mkdirSync cwd (Path.join (getAgelumPath r) dir) ;;; rest)
    (Fs.ret (getAgelumPath r)) dirs fs = (res, fs') ->
  fs' q <> fs q -> alongTree (Path.locate cwd (Path.read r)) q.
Proof.
  induction dirs as [|d dirs IH]; intros fs res fs' Sub H N.
  - inversion H. subst. congruence.
  - simpl in H. unfold Fs.bind at 1 in H.
    destruct (Fs.mkdirSync cwd (Path.join (getAgelumPath r) d) fs)
      as [res1 fs2] eqn:E.
    destruct (node_eq_dec (fs2 q) (fs q)) as [Same|Diff].
    + destruct res1 as [[]|e]; [|inversion H; subst; congruence].
      apply (IH fs2 res fs'); [|exact H|congruence].
      intros dir Hd. apply Sub. now right.
    + destruct (mkdirSync_changes _ _ _ _ _ _ E Diff) as [k [Hk ->]].
      destruct (structure_below cwd r d) as [tl [Et Ht]]; [apply Sub; now left|].
      exists tl, k. rewrite <- Et. auto.
Qed.

(** Provisioning changes the file system only along the paths of the
    tree. *)
Lemma ensure_changes cwd r fs res fs1 q :
  ensureAgelumStructure cwd r fs = (res, fs1) -> fs1 q <> fs q ->
  alongTree (Path.locate cwd (Path.read r)) q.
Proof.
  unfold ensureAgelumStructure. unfold Fs.bind at 1. intros H N.
  destruct (Fs.mkdirSync cwd (getAgelumPath r) fs) as [res1 fs2] eqn:E.
  destruct (node_eq_dec (fs2 q) (fs q)) as [Same|Diff].
  - destruct res1 as [[]|e]; [|inversion H; subst; congruence].
    apply (loop_changes cwd r q AGELUM_STRUCTURE fs2 res fs1);
      [auto|exact H|congruence].
  - destruct (mkdirSync_changes _ _ _ _ _ _ E Diff) as [k [Hk ->]].
    exists ["agelum"%string], k.
    rewrite agelum_snoc, locate_snoc in * by discriminate.
    split; [simpl; intuition discriminate|]. split; [exact Hk|reflexivity].
Qed.

(** The root of a prologue that returned was there before it. *)
Lemma prologue_root cwd hint fs r :
  wellFormed fs ->
  findRepoRootPath cwd hint fs = (Ok (Some r), fs) ->
  Fs.stat fs (Path.locate cwd (Path.read r)) <> None.
Proof.
  intros W F. destruct (findRepoRootPath_found _ _ _ _ F) as [H|H].
  - rewrite hasGit_eq in H.
    rewrite (W (Path.locate cwd (Path.read r)) ".git"%string); [discriminate|].
    destruct (fs (_ ++ [".git"%string])); [discriminate|].
    rewrite andb_false_r in H. discriminate.
  - unfold present in H.
    destruct (Fs.stat fs _); [discriminate|].
    rewrite andb_false_r in H. discriminate.
Qed.

(** In a well-formed file system the prologue makes no [.git] entry. *)
Lemma prologue_hasGit cwd hint fs ap fs1 :
  wellFormed fs -> prologue cwd hint fs = (Ok ap, fs1) ->
  forall d, hasGit cwd fs1 d = hasGit cwd fs d.
Proof.
  intros W P d. destruct (prologue_ok _ _ _ _ _ P) as [r [F [E [_ [G _]]]]].
  rewrite !hasGit_eq.
  set (L := Path.locate cwd d). set (R := Path.locate cwd (Path.read r)).
  destruct (node_eq_dec (fs1 (L ++ [".git"%string])) (fs (L ++ [".git"%string])))
    as [->|N]; [reflexivity|].
  exfalso.
  assert (None_before : fs (L ++ [".git"%string]) = None).
  { destruct (G (L ++ [".git"%string])) as [Eq|[Eq _]]; [contradiction|exact Eq]. }
  assert (Root : Fs.stat fs R <> None) by (now apply (prologue_root _ hint)).
  destruct (ensure_changes _ _ _ _ _ _ E N) as [tl [k [Ht [Hk Eq]]]].
  fold R in Hk, Eq.
  destruct (Nat.le_gt_cases k (List.length R)) as [Le|Gt].
  - rewrite firstn_app in Eq.
    replace (k - List.length R)%nat with 0%nat in Eq by lia.
    rewrite app_nil_r in Eq. rewrite Eq in None_before.
    apply (wellFormed_prefixes fs W R Root k); [lia|exact None_before].
  - rewrite firstn_app, firstn_all2 in Eq by lia.
    destruct (firstn (k - List.length R) tl) as [|x l] eqn:Fn.
    + rewrite length_app in Hk.
      destruct tl; [simpl in Hk; lia|].
      destruct (k - List.length R)%nat eqn:Z; [lia|discriminate].
    + assert (In : In ".git"%string (firstn (k - List.length R) tl)).
      { rewrite Fn. destruct (@exists_last _ (x :: l)) as [l' [y Ey]];
          [discriminate|].
        rewrite Ey in Eq |- *. rewrite app_assoc in Eq.
        apply app_inj_tail in Eq. destruct Eq as [_ <-].
        apply in_or_app. right. now left. }
      apply Ht. rewrite <- (firstn_skipn (k - List.length R) tl).
      apply in_or_app. now left.
Qed.

Lemma provisioned_set_file cwd ap fs p data :
  fs p = None -> provisioned cwd ap fs ->
  provisioned cwd ap (Fs.set fs p (Some (Fs.File data))).
Proof.
  intros N [F [H1 H2]].
  assert (K : forall q, dirsAlong fs q ->
                        dirsAlong (Fs.set fs p (Some (Fs.File data))) q).
  { intros q H k Hk. rewrite set_other; [now apply H|].
    intros E. specialize (H k Hk). congruence. }
  split; [exact F|]. split; auto.
Qed.

(** The root of a prologue that returned is a directory. *)
Lemma provisioned_root_dir cwd r fs :
  provisioned cwd (getAgelumPath r) fs ->
  Fs.stat fs (Path.locate cwd (Path.read r)) = Some Fs.Dir.
Proof.
  intros [_ [H _]]. rewrite agelum_snoc, locate_snoc in H by discriminate.
  revert H. generalize (Path.locate cwd (Path.read r)). intros R H.
  destruct R as [|c R]; [reflexivity|].
  specialize (H (List.length (c :: R))).
  rewrite firstn_app, firstn_all, Nat.sub_diag in H.
  cbn [firstn] in H. rewrite app_nil_r in H. apply H.
  rewrite length_app. simpl. lia.
Qed.

Lemma prologue_root_dir cwd hint fs ap fs1 r :
  findRepoRootPath cwd hint fs = (Ok (Some r), fs) ->
  ensureAgelumStructure cwd r fs = (Ok ap, fs1) ->
  Fs.stat fs (Path.locate cwd (Path.read r)) <> None ->
  Fs.stat fs (Path.locate cwd (Path.read r)) = Some Fs.Dir.
Proof.
  intros F E N.
  destruct (ensure_made _ _ _ _ _ E) as [-> Prov].
  pose proof (provisioned_root_dir _ _ _ Prov) as D.
  pose proof (ensure_grows _ _ _ _ _ E) as G.
  destruct (Fs.stat fs _) as [n|] eqn:S; [|congruence].
  rewrite (grows_stat _ _ _ _ G S) in D. exact D.
Qed.

(** A file written after the prologue, under a name other than [.git],
    leaves the prologue of the next call with the same answer and
    nothing to do. *)
Lemma prologue_after_write cwd hint fs fs1 ap dir f data :
  wellFormed fs -> prologue cwd hint fs = (Ok ap, fs1) ->
  f <> ".git"%string -> fs1 (dir ++ [f]) = None ->
  prologue cwd hint (Fs.set fs1 (dir ++ [f]) (Some (Fs.File data)))
  = (Ok ap, Fs.set fs1 (dir ++ [f]) (Some (Fs.File data))).
Proof.
  intros W P Ng Free.
  destruct (prologue_ok _ _ _ _ _ P) as [r [Root [En [Eap [G Prov]]]]].
  unfold prologue. run.
  rewrite (findRepoRootPath_ext cwd hint fs _ r); [| | | |exact Root].
  - subst ap. apply ensure_there. now apply provisioned_set_file.
  - intros d. rewrite <- (prologue_hasGit _ _ _ _ _ W P d).
    rewrite !hasGit_eq.
    rewrite set_other; [reflexivity|].
    intros E. apply app_inj_tail in E. destruct E as [_ E]. congruence.
  - intros q Hq. destruct q as [|x q]; [reflexivity|].
    simpl in *.
    rewrite set_other; [now rewrite (grows_keeps _ _ _ _ G Hq)|].
    intros E. rewrite E in Hq. apply (grows_keeps _ _ _ _ G) in Hq.
    congruence.
  - apply (prologue_root_dir _ _ _ _ _ _ Root En).
    now apply (prologue_root _ hint).
Qed.

(** C4. Once the prologue has returned and the file name is settled:
    if something is at the target path, [create] fails with
    [AlreadyExists] and no file is written, changed or removed; and after
    a [create] that returned, in a well-formed file system, a second
    [create] of the same document, with any content and at any time,
    fails with [AlreadyExists] and leaves the file system exactly as the
    first call left it, the file of the first call with its content
    included. *)
Theorem C4_create_existing (cwd : Path.path) (hint : option string)
        (now : string) (a : CreateArgs) (fs fs1 : Fs.t) (ap : Path.path)
        (f : string) :
  prologue cwd hint fs = (Ok ap, fs1) ->
  createFileName a = Ok f ->
  let p := directoryOf ap (c_type a) (orDefault pending (c_state a)) ++ [f] in
  (present cwd fs1 p = true ->
   callTool cwd hint now (Create a) fs = (Throw (AlreadyExists p), fs1)
   /\ sameFiles fs fs1)
  /\ (wellFormed fs ->
      forall fs2,
        callTool cwd hint now (Create a) fs = (Ok (Created p), fs2) ->
        (exists data, fs2 (Path.locate cwd p) = Some (Fs.File data))
        /\ forall now2 a2,
            sameDocument a a2 ->
            callTool cwd hint now2 (Create a2) fs2 = (Throw (AlreadyExists p), fs2)).
Proof.
  intros P F p.
  destruct (prologue_ok _ _ _ _ _ P) as [r [Root [En [Eap [G Prov]]]]].
  assert (Existing : forall now' a' fs',
            provisioned cwd ap fs' -> createFileName a' = Ok f ->
            directoryOf ap (c_type a') (orDefault pending (c_state a')) ++ [f] = p ->
            present cwd fs' p = true ->
            create cwd now' ap a' fs' = (Throw (AlreadyExists p), fs')).
  { intros now' a' fs' Prov' F' Ep Pr. rewrite create_eq, F'. cbv zeta.
    destruct (provisioned_directory _ _ _ (c_type a')
                (orDefault pending (c_state a')) Prov') as [Fd Dd].
    rewrite dirsAlong_mkdir by assumption.
    rewrite (createFileName_join _ _ _ F'), Ep, Pr. reflexivity. }
  split.
  - intros Pr. rewrite (callTool_after_prologue _ _ _ _ _ _ _ P). simpl handler.
    split; [now apply Existing|now apply grows_sameFiles].
  - intros W fs2 H.
    rewrite (callTool_after_prologue _ _ _ _ _ _ _ P) in H. simpl handler in H.
    destruct (create_ok _ _ _ _ _ _ _ Prov H)
      as [f' [data [F' [_ [Fit [Free ->]]]]]].
    assert (Ef : f' = f) by congruence. subst f'.
    destruct (createFileName_plain _ _ F) as [_ [L Ng]].
    destruct (provisioned_directory _ _ _ (c_type a)
                (orDefault pending (c_state a)) Prov) as [Fd Dd].
    split; [exists data; apply set_same|].
    intros now2 a2 [Ty [Ti [St [Pr [Sp Fn]]]]].
    assert (F2 : createFileName a2 = Ok f).
    { rewrite <- F. unfold createFileName. now rewrite Ty, Ti, Pr, Sp, Fn. }
    assert (El : Path.locate cwd p
                 = Path.locate cwd (directoryOf ap (c_type a)
                                      (orDefault pending (c_state a))) ++ [f])
      by (unfold p; now apply locate_name).
    rewrite El in *.
    assert (P2 : forall fs', fs' = Fs.set fs1 (Path.locate cwd (directoryOf ap (c_type a)
                                      (orDefault pending (c_state a))) ++ [f]) (Some (Fs.File data)) ->
                 prologue cwd hint fs' = (Ok ap, fs')).
    { intros fs' ->. now apply (prologue_after_write _ _ fs). }
    rewrite (callTool_after_prologue _ _ _ _ _ _ _ (P2 _ eq_refl)).
    simpl handler.
    apply Existing.
    + now apply provisioned_set_file.
    + exact F2.
    + unfold p. now rewrite Ty, St.
    + unfold p. rewrite present_snoc by assumption.
      now rewrite Fd, Fit, set_same.
Qed.

Lemma demoFs_wellFormed : wellFormed demoFs.
Proof.
  unfold demoFs. apply mkdirSync_wellFormed, mkdirSync_wellFormed.
  exact wellFormed_empty.
Qed.

Lemma demo_create :
  callTool demoCwd None demoNow (Create fixBug) demoFs
  = (Ok (Created fixBugPath), demoFs2).
Proof. apply pair_fst_snd. vm_compute. reflexivity. Qed.

(** C4, at a second [create] of the task [fixBug] with another content. *)
Lemma C4_witness :
  prologue demoCwd None demoFs = (Ok demoAgelum, demoFs1)
  /\ createFileName fixBug = Ok "03 Fix bug (5).md"%string
  /\ wellFormed demoFs
  /\ callTool demoCwd None demoNow (Create fixBug) demoFs
     = (Ok (Created fixBugPath), demoFs2)
  /\ callTool demoCwd None "2026-01-02T00:00:00.000Z" (Create fixBugAgain) demoFs2
     = (Throw (AlreadyExists fixBugPath), demoFs2).
Proof.
  split; [exact demo_prologue|]. split; [reflexivity|].
  split; [exact demoFs_wellFormed|]. split; [exact demo_create|].
  refine (proj2 (proj2 (C4_create_existing demoCwd None demoNow fixBug demoFs
                          demoFs1 demoAgelum _ demo_prologue eq_refl)
                   demoFs_wellFormed demoFs2 demo_create) _ fixBugAgain _).
  repeat split.
Defined.

(** ** [move] *)

Lemma under_app b l l' : Path.under (b ++ l) (b ++ l') = Path.under l l'.
Proof.
  induction b as [|x b IH]; simpl; [reflexivity|].
  now rewrite String.eqb_refl.
Qed.

Lemma under_self p : Path.under p p = Some [].
Proof.
  rewrite <- (app_nil_r p) at 1. rewrite <- (app_nil_r p) at 2.
  rewrite under_app. reflexivity.
Qed.

Lemma under_root_inv d q : Path.under d q = Some [] -> q = d.
Proof.
  revert q. induction d as [|x d IH]; intros [|y q]; simpl; try congruence.
  destruct (String.eqb_spec x y); [|discriminate].
  intros H. subst. f_equal. auto.
Qed.

(** The same segments entered from two sibling directories lead to the
    same path, or to two paths that differ in that one component and
    have names only after it. *)
Lemma enter_siblings b x y r seg :
  x <> "."%string -> x <> ".."%string -> y <> "."%string -> y <> ".."%string ->
  Forall (fun c => c <> "."%string /\ c <> ".."%string) r ->
  Path.enter (b ++ x :: r) seg = Path.enter (b ++ y :: r) seg
  \/ exists r', Forall (fun c => c <> "."%string /\ c <> ".."%string) r'
                /\ Path.enter (b ++ x :: r) seg = b ++ x :: r'
                /\ Path.enter (b ++ y :: r) seg = b ++ y :: r'.
Proof.
  intros X1 X2 Y1 Y2 Names. unfold Path.enter.
  destruct (seg =? "")%string; [right; eauto|].
  destruct (String.eqb_spec seg "."); [right; eauto|].
  destruct (String.eqb_spec seg "..").
  - unfold Path.up.
    destruct (snoc_cases r) as [->|[r0 [z ->]]].
    + rewrite !last_snoc.
      apply String.eqb_neq in X1, X2, Y1, Y2. rewrite X1, X2, Y1, Y2.
      cbn [orb]. rewrite !removelast_snoc. now left.
    + apply Forall_app in Names. destruct Names as [Names Z].
      inversion Z as [|? ? [Z1 Z2] _]. subst.
      apply String.eqb_neq in Z1, Z2.
      replace (b ++ x :: r0 ++ [z]) with ((b ++ x :: r0) ++ [z])
        by (now rewrite <- app_assoc).
      replace (b ++ y :: r0 ++ [z]) with ((b ++ y :: r0) ++ [z])
        by (now rewrite <- app_assoc).
      rewrite !last_snoc, Z1, Z2. cbn [orb]. rewrite !removelast_snoc.
      right. eauto.
  - right. exists (r ++ [seg]). rewrite <- !app_assoc.
    split; [|split; reflexivity].
    apply Forall_app. split; [exact Names|]. constructor; [|constructor].
    split; assumption.
Qed.

Lemma join_siblings segs : forall b x y r,
  x <> "."%string -> x <> ".."%string -> y <> "."%string -> y <> ".."%string ->
  Forall (fun c => c <> "."%string /\ c <> ".."%string) r ->
  fold_left Path.enter segs (b ++ x :: r) = fold_left Path.enter segs (b ++ y :: r)
  \/ exists r', Forall (fun c => c <> "."%string /\ c <> ".."%string) r'
                /\ fold_left Path.enter segs (b ++ x :: r) = b ++ x :: r'
                /\ fold_left Path.enter segs (b ++ y :: r) = b ++ y :: r'.
Proof.
  induction segs as [|seg segs IH]; intros b x y r X1 X2 Y1 Y2 Names; simpl.
  - right. eauto.
  - destruct (enter_siblings b x y r seg X1 X2 Y1 Y2 Names)
      as [E|[r' [Names' [E1 E2]]]].
    + left. now rewrite E.
    + rewrite E1, E2. now apply IH.
Qed.

Lemma stateName_inj s1 s2 : stateName s1 = stateName s2 -> s1 = s2.
Proof. destruct s1, s2; simpl; intros H; try reflexivity; discriminate. Qed.

(** Names followed from a place are added to it. *)
Lemma locate_names cwd p r :
  p <> [] -> Forall (fun c => c <> "."%string /\ c <> ".."%string) r ->
  Path.locate cwd (p ++ r) = Path.locate cwd p ++ r.
Proof.
  intros N Names. revert p N.
  induction Names as [|c r [C1 C2] _ IH]; intros p N.
  - now rewrite !app_nil_r.
  - replace (p ++ c :: r) with ((p ++ [c]) ++ r) by (now rewrite <- app_assoc).
    rewrite IH by (now destruct p). rewrite locate_snoc by assumption.
    now rewrite <- app_assoc.
Qed.

(** The source and the target of a move between two states are the
    same path, or they lead to two places of which neither lies within
    the other. *)
Lemma move_paths_apart cwd ap s1 s2 f :
  s1 <> s2 ->
  let src := Path.join (directoryOf ap task s1) f in
  let dst := Path.join (directoryOf ap task s2) f in
  src = dst
  \/ (Path.under (Path.locate cwd src) (Path.locate cwd dst) = None
      /\ Path.under (Path.locate cwd dst) (Path.locate cwd src) = None).
Proof.
  intros N src dst. subst src dst. unfold Path.join.
  assert (D : forall s, directoryOf ap task s = (ap ++ ["tasks"%string]) ++ stateName s :: []).
  { intros s. destruct s; reflexivity. }
  rewrite !D.
  assert (Sn : forall s, stateName s <> "."%string /\ stateName s <> ".."%string)
    by (intros s; destruct s; split; discriminate).
  destruct (join_siblings (Path.segments f) (ap ++ ["tasks"%string])
              (stateName s1) (stateName s2) [])
    as [E|[r' [Names [-> ->]]]];
    try apply Sn; [constructor|now left|right].
  replace ((ap ++ ["tasks"%string]) ++ stateName s1 :: r')
    with (((ap ++ ["tasks"%string]) ++ [stateName s1]) ++ r')
    by (now rewrite <- app_assoc).
  replace ((ap ++ ["tasks"%string]) ++ stateName s2 :: r')
    with (((ap ++ ["tasks"%string]) ++ [stateName s2]) ++ r')
    by (now rewrite <- app_assoc).
  rewrite (locate_names cwd ((ap ++ ["tasks"%string]) ++ [stateName s1]) r'),
    (locate_names cwd ((ap ++ ["tasks"%string]) ++ [stateName s2]) r')
    by (assumption || (now destruct ap)).
  rewrite !(locate_snoc cwd (ap ++ ["tasks"%string])) by apply Sn.
  rewrite <- !app_assoc, !under_app. simpl.
  destruct (String.eqb_spec (stateName s1) (stateName s2)) as [E|_];
    [apply stateName_inj in E; contradiction|].
  destruct (String.eqb_spec (stateName s2) (stateName s1)) as [E|_];
    [apply stateName_inj in E; congruence|].
  split; reflexivity.
Qed.

(** What a [renameSync] that returned has done, when nothing was where
    the target path leads. *)
Lemma renameSync_fits cwd src dst fs fs' :
  Fs.renameSync cwd src dst fs = (Ok tt, fs') ->
  Fs.fits src = true /\ Fs.fits dst = true.
Proof.
  unfold Fs.renameSync.
  destruct (Fs.fits src); [|discriminate].
  destruct (Fs.fits dst); [|discriminate]. auto.
Qed.

Lemma renameSync_ok cwd src dst fs fs' :
  Fs.stat fs (Path.locate cwd dst) = None ->
  Fs.renameSync cwd src dst fs = (Ok tt, fs') ->
  Path.locate cwd src <> [] /\
  ((exists c, fs (Path.locate cwd src) = Some (Fs.File c)
              /\ fs' = Fs.set (Fs.set fs (Path.locate cwd src) None)
                         (Path.locate cwd dst) (Some (Fs.File c)))
   \/ (fs (Path.locate cwd src) = Some Fs.Dir
       /\ Path.under (Path.locate cwd src) (Path.locate cwd dst) = None
       /\ fs' = Fs.moveTree fs (Path.locate cwd src) (Path.locate cwd dst))).
Proof.
  intros Free H. destruct (renameSync_fits _ _ _ _ _ H) as [F1 F2].
  revert H. unfold Fs.renameSync. rewrite F1, F2, Free. cbn [negb].
  set (from := Path.locate cwd src). set (to := Path.locate cwd dst).
  destruct (Path.eqb from []) eqn:E; [discriminate|].
  assert (N : from <> []) by (intros K; rewrite K in E; discriminate).
  split; [exact N|].
  assert (S : Fs.stat fs from = fs from)
    by (destruct from; [contradiction|reflexivity]).
  rewrite S in H. destruct (fs from) as [[c|]|]; [| |discriminate].
  - destruct (Fs.stat fs (removelast to)) as [[x|]|]; try discriminate.
    inversion H. left. eauto.
  - destruct (Fs.stat fs (removelast to)) as [[x|]|]; try discriminate.
    destruct (Path.under from to) eqn:U; [discriminate|].
    inversion H. right. auto.
Qed.

(** A path is absolute or relative as the path it was joined to. *)
Lemma isAbsolute_enter p seg :
  Path.isAbsolute (Path.enter p seg) = Path.isAbsolute p.
Proof.
  unfold Path.enter.
  destruct (seg =? "")%string; [reflexivity|].
  destruct (String.eqb_spec seg "."); [reflexivity|].
  destruct (seg =? "..")%string.
  - unfold Path.up. destruct (snoc_cases p) as [->|[q [x ->]]]; [reflexivity|].
    rewrite last_snoc.
    destruct ((x =? ".") || (x =? ".."))%string eqn:E.
    + apply isAbsolute_app. now destruct q.
    + rewrite removelast_snoc. destruct q as [|c q]; [|reflexivity].
      simpl. apply orb_false_iff in E. destruct E as [E _]. now rewrite E.
  - destruct p as [|c p]; [|reflexivity].
    simpl. apply String.eqb_neq in n. now rewrite n.
Qed.

Lemma isAbsolute_join p s : Path.isAbsolute (Path.join p s) = Path.isAbsolute p.
Proof.
  unfold Path.join. revert p.
  induction (Path.segments s) as [|seg segs IH]; intros p; [reflexivity|].
  simpl. now rewrite IH, isAbsolute_enter.
Qed.

Lemma isAbsolute_read_given s :
  Path.isAbsolute (Path.read (Path.Given s)) = Path.isAbsolute (Path.start s).
Proof. apply (isAbsolute_join (Path.start s) s). Qed.

Lemma isAbsolute_dirname p : Path.isAbsolute (Path.dirname p) = Path.isAbsolute p.
Proof.
  destruct p as [|c [|d p]]; [reflexivity| |reflexivity].
  simpl. destruct (c =? ".")%string eqn:E; simpl; now rewrite ?E.
Qed.

Lemma isAbsolute_ancestor k : forall p,
  Path.isAbsolute (ancestor k p) = Path.isAbsolute p.
Proof.
  induction k as [|k IH]; intros p; [reflexivity|].
  simpl. now rewrite IH, isAbsolute_dirname.
Qed.

Lemma isAbsolute_directoryOf ap type state :
  Path.isAbsolute (directoryOf ap type state) = Path.isAbsolute ap.
Proof.
  unfold directoryOf. destruct (nonTaskTypeToDir type);
    now rewrite !isAbsolute_join.
Qed.

(** The root that the walk found is absolute as the working directory
    is. *)
Lemma findRepoRootPath_computed cwd hint fs p :
  findRepoRootPath cwd hint fs = (Ok (Some (Path.Computed p)), fs) ->
  Path.isAbsolute p = Path.isAbsolute cwd.
Proof.
  unfold findRepoRootPath. run.
  destruct (walkUp_spec cwd MAX_DEPTH cwd fs) as [found [-> S]].
  destruct S as [[k [_ [_ [_ ->]]]]|[_ ->]].
  - intros H. inversion H. apply isAbsolute_ancestor.
  - destruct hint as [root|]; [|discriminate].
    destruct (JS.truthy root); [|discriminate].
    destruct (existsSyncGiven_reads cwd root fs) as [b P]. rewrite P.
    destruct b; discriminate.
Qed.

(** C9. A [move] that returned has taken what was at the source path
    to the target path and nothing else: the paths it returns are the
    file name joined to the directories of [fromState] and [toState]
    under the root that was found, absolute as that root is: as the
    working directory when the root was found from it, and when the
    hint is the root, only if the hint begins with a slash.  The source
    path is free afterwards and the target path is taken; if the source
    was a file, the target is a file with the content the source had
    before the call, and at every other place the files and their
    contents are the ones from before the call.  (Where the source is a
    directory, the same holds at every place outside the source and the
    target.) *)
Theorem C9_move_relocates (cwd : Path.path) (hint : option string)
        (now : string) (a : MoveArgs) (fs fs' : Fs.t) (src dst : Path.path) :
  callTool cwd hint now (Move a) fs = (Ok (Moved src dst), fs') ->
  (exists r f,
     findRepoRootPath cwd hint fs = (Ok (Some r), fs)
     /\ moveFileName a = Ok f
     /\ src = Path.join (directoryOf (getAgelumPath r) task (m_fromState a)) f
     /\ dst = Path.join (directoryOf (getAgelumPath r) task (m_toState a)) f
     /\ Path.isAbsolute src = Path.isAbsolute (Path.read r)
     /\ Path.isAbsolute dst = Path.isAbsolute (Path.read r)
     /\ (forall p, r = Path.Computed p ->
                   Path.isAbsolute (Path.read r) = Path.isAbsolute cwd)
     /\ (forall s, r = Path.Given s ->
                   hint = Some s
                   /\ Path.isAbsolute (Path.read r)
                      = Path.isAbsolute (Path.start s)))
  /\ m_fromState a <> m_toState a
  /\ present cwd fs' src = false
  /\ present cwd fs' dst = true
  /\ (forall content, fs (Path.locate cwd src) = Some (Fs.File content) ->
      fs' (Path.locate cwd dst) = Some (Fs.File content)
      /\ forall q, q <> Path.locate cwd src -> q <> Path.locate cwd dst ->
                   forall c, fs' q = Some (Fs.File c) <-> fs q = Some (Fs.File c))
  /\ (forall q, Path.under (Path.locate cwd src) q = None ->
                Path.under (Path.locate cwd dst) q = None ->
                forall c, fs' q = Some (Fs.File c) <-> fs q = Some (Fs.File c)).
Proof.
  intros H. rewrite callTool_prologue in H. unfold Fs.bind at 1 in H.
  destruct (prologue cwd hint fs) as [[ap|e] fs1] eqn:P; [|discriminate].
  destruct (prologue_ok _ _ _ _ _ P) as [r [Root [_ [Eap [G Prov]]]]].
  simpl handler in H. rewrite move_eq in H.
  destruct (TaskState_eqb (m_fromState a) (m_toState a)) eqn:E; [discriminate|].
  assert (Ne : m_fromState a <> m_toState a).
  { intros K. apply TaskState_eqb_eq in K. congruence. }
  destruct (moveFileName a) as [f|e] eqn:F; [|discriminate].
  cbv zeta in H.
  destruct (present cwd fs1 (Path.join (directoryOf ap task (m_fromState a)) f))
    eqn:There; [|discriminate].
  destruct (provisioned_directory _ _ _ task (m_toState a) Prov) as [Fd Dd].
  rewrite dirsAlong_mkdir in H by assumption.
  destruct (present cwd fs1 (Path.join (directoryOf ap task (m_toState a)) f))
    eqn:Taken; [discriminate|].
  destruct (Fs.renameSync cwd _ _ fs1) as [[[]|e] fs3] eqn:R; [|discriminate].
  inversion H. subst src dst fs3. clear H.
  set (src := Path.join (directoryOf ap task (m_fromState a)) f) in *.
  set (dst := Path.join (directoryOf ap task (m_toState a)) f) in *.
  destruct (renameSync_fits _ _ _ _ _ R) as [Fs Fd'].
  set (from := Path.locate cwd src) in *. set (to := Path.locate cwd dst) in *.
  assert (Free : Fs.stat fs1 to = None).
  { unfold present in Taken. rewrite Fd' in Taken. fold to in Taken.
    destruct (Fs.stat fs1 to); [discriminate|reflexivity]. }
  assert (Nd : to <> []) by (intros K; rewrite K in Free; discriminate).
  assert (Neq : src <> dst).
  { intros K. rewrite K in There. congruence. }
  destruct (renameSync_ok _ _ _ _ _ Free R) as [Ns Cases].
  fold from to in Ns, Cases.
  assert (Sd : forall fs0, Fs.stat fs0 to = fs0 to)
    by (intros; destruct to; [contradiction|reflexivity]).
  assert (Ss : forall fs0, Fs.stat fs0 from = fs0 from)
    by (intros; destruct from; [contradiction|reflexivity]).
  assert (Apart : Path.under from to = None /\ Path.under to from = None).
  { destruct (move_paths_apart cwd ap _ _ f Ne) as [K|K]; [contradiction|exact K]. }
  destruct Apart as [U1 U2].
  assert (Neq' : from <> to).
  { intros K. rewrite K, under_self in U1. discriminate. }
  assert (Src : present cwd fs' src = false).
  { unfold present. fold from. rewrite Ss, Fs. cbn [andb].
    destruct Cases as [[c [_ ->]]|[_ [_ ->]]].
    - rewrite set_other, set_same by exact Neq'. reflexivity.
    - unfold Fs.moveTree. now rewrite U2, under_self. }
  assert (Dst : present cwd fs' dst = true).
  { unfold present. fold to. rewrite Sd, Fd'. cbn [andb].
    destruct Cases as [[c [_ ->]]|[D [_ ->]]].
    - now rewrite set_same.
    - unfold Fs.moveTree. now rewrite under_self, app_nil_r, D. }
  assert (Frame : forall q, Path.under from q = None -> Path.under to q = None ->
                            fs' q = fs1 q).
  { intros q Us Ud.
    assert (q <> from) by (intros ->; rewrite under_self in Us; discriminate).
    assert (q <> to) by (intros ->; rewrite under_self in Ud; discriminate).
    destruct Cases as [[c [_ ->]]|[D [_ ->]]].
    - now rewrite !set_other.
    - unfold Fs.moveTree. now rewrite Ud, Us. }
  split.
  { exists r, f. subst ap.
    split; [exact Root|]. split; [reflexivity|].
    split; [reflexivity|]. split; [reflexivity|].
    assert (A : forall s, Path.isAbsolute
                            (Path.join (directoryOf (getAgelumPath r) task s) f)
                          = Path.isAbsolute (Path.read r)).
    { intros s. rewrite isAbsolute_join, isAbsolute_directoryOf.
      unfold getAgelumPath. apply isAbsolute_join. }
    split; [apply A|]. split; [apply A|]. split.
    - intros p ->. simpl. now apply (findRepoRootPath_computed _ hint fs).
    - intros s ->. split; [|apply isAbsolute_read_given].
      revert Root. unfold findRepoRootPath. run.
      destruct (walkUp_spec cwd MAX_DEPTH cwd fs) as [found [-> _]].
      destruct found; [discriminate|].
      destruct hint as [root|]; [|discriminate].
      destruct (JS.truthy root); [|discriminate].
      destruct (existsSyncGiven_reads cwd root fs) as [b Pb]. rewrite Pb.
      destruct b; [|discriminate]. intros K. inversion K. reflexivity. }
  split; [exact Ne|]. split; [exact Src|]. split; [exact Dst|].
  split.
  - intros content C. apply (grows_keeps _ _ _ _ G) in C.
    destruct Cases as [[c [C' ->]]|[D _]]; [|congruence].
    assert (c = content) by congruence. subst c.
    split; [apply set_same|].
    intros q Hs Hd c. rewrite !set_other by assumption.
    now apply grows_sameFiles.
  - intros q Us Ud c. rewrite (Frame q Us Ud). now apply grows_sameFiles.
Qed.

(** C9, at the move of the task [fixBug] from [pending] to [done]. *)
Lemma C9_witness :
  callTool demoCwd None demoNow (Move (moveFixBug pending done)) demoFs2
  = (Ok (Moved fixBugPath (demoAgelum ++ ["tasks"; "done"; "03 Fix bug (5).md"]%string)),
     snd (callTool demoCwd None demoNow (Move (moveFixBug pending done)) demoFs2))
  /\ present demoCwd
       (snd (callTool demoCwd None demoNow (Move (moveFixBug pending done)) demoFs2))
       fixBugPath = false.
Proof.
  assert (H : callTool demoCwd None demoNow (Move (moveFixBug pending done)) demoFs2
              = (Ok (Moved fixBugPath
                       (demoAgelum ++ ["tasks"; "done"; "03 Fix bug (5).md"]%string)),
                 snd (callTool demoCwd None demoNow (Move (moveFixBug pending done))
                        demoFs2)))
    by (apply pair_fst_snd; vm_compute; reflexivity).
  split; [exact H|].
  exact (proj1 (proj2 (proj2 (C9_move_relocates _ _ _ _ _ _ _ _ H)))).
Defined.

(** C9 does not hold of every root: the paths a move returns are not
    absolute when the root is a relative hint.  In a directory with no
    repository above it and the hint [store], the task [fixBug] is
    moved from [store/agelum/tasks/pending] to
    [store/agelum/tasks/done], and these are the paths returned. *)
Lemma C9_counterexample :
  exists fs',
    callTool demoCwd (Some "store"%string) demoNow (Move (moveFixBug pending done))
      plainFs2
    = (Ok (Moved ("." :: storeTask pending) ("." :: storeTask done)), fs')
    /\ Path.isAbsolute ("." :: storeTask pending) = false
    /\ Path.isAbsolute ("." :: storeTask done) = false
    /\ Path.toString ("." :: storeTask pending)
       = "store/agelum/tasks/pending/03 Fix bug (5).md"%string
    /\ Path.toString ("." :: storeTask done)
       = "store/agelum/tasks/done/03 Fix bug (5).md"%string
    /\ plainFs2 (demoCwd ++ storeTask pending) = fs' (demoCwd ++ storeTask done)
    /\ fs' (demoCwd ++ storeTask pending) = None.
Proof.
  eexists. split; [apply pair_fst_snd; vm_compute; reflexivity|].
  repeat split; vm_compute; reflexivity.
Qed.

(** ** Numbers: decimal digits *)

Lemma digitChar_code d : (d < 10)%N -> JS.code (JS.digitChar d) = (48 + d)%N.
Proof.
  intros H. unfold JS.code, JS.digitChar. apply N_ascii_embedding. lia.
Qed.

Lemma digitChar_isDigit d : (d < 10)%N -> isDigit (JS.digitChar d) = true.
Proof.
  intros H. unfold isDigit. rewrite digitChar_code by assumption.
  apply andb_true_iff. split; apply N.leb_le; lia.
Qed.

Lemma digitOf_digitChar d : (d < 10)%N -> digitOf (JS.digitChar d) = d.
Proof. intros H. unfold digitOf. rewrite digitChar_code by assumption. lia. Qed.

Lemma valueFrom_cons v c s :
  valueFrom v (String c s) = valueFrom (10 * v + digitOf c) s.
Proof. reflexivity. Qed.

Lemma valueFrom_nil v : valueFrom v "" = v.
Proof. reflexivity. Qed.

Lemma valueFrom_app acc a b :
  valueFrom acc (a ++ b) = valueFrom (valueFrom acc a) b.
Proof. revert acc. induction a; simpl; auto. Qed.

(** The digits [decimalFrom] puts before [acc]: all digits, at least
    one, no leading zero for a positive number, and they write [n]. *)
Lemma decimalFrom_spec fuel : forall n acc,
  (n < 2 ^ N.of_nat (S fuel))%N ->
  exists ds,
    JS.decimalFrom (S fuel) n acc = (ds ++ acc)%string
    /\ allChars isDigit ds = true
    /\ (forall v, valueFrom v ds = v * 10 ^ N.of_nat (String.length ds) + n)%N
    /\ ((1 <= n)%N -> (10 ^ N.of_nat (String.length ds - 1) <= n)%N)
    /\ (exists c rest, ds = String c rest
                       /\ ((1 <= n)%N -> c <> "0"%char)).
Proof.
  assert (Small : forall fuel n acc, (n < 10)%N ->
    exists ds,
      JS.decimalFrom (S fuel) n acc = (ds ++ acc)%string
      /\ allChars isDigit ds = true
      /\ (forall v, valueFrom v ds = v * 10 ^ N.of_nat (String.length ds) + n)%N
      /\ ((1 <= n)%N -> (10 ^ N.of_nat (String.length ds - 1) <= n)%N)
      /\ (exists c rest, ds = String c rest
                         /\ ((1 <= n)%N -> c <> "0"%char))).
  { intros fuel' n acc Hn. simpl JS.decimalFrom.
    rewrite N.mod_small by assumption.
    replace (n <? 10)%N with true by (symmetry; now apply N.ltb_lt).
    exists (String (JS.digitChar n) ""). split; [reflexivity|].
    split; [simpl; now rewrite digitChar_isDigit|].
    split; [|split].
    - intros v. simpl String.length. change (N.of_nat 1) with 1%N.
      rewrite N.pow_1_r, valueFrom_cons, valueFrom_nil.
      rewrite digitOf_digitChar by assumption. lia.
    - intros Pos. simpl. exact Pos.
    - exists (JS.digitChar n), ""%string. split; [reflexivity|].
      intros Pos E. apply (f_equal JS.code) in E.
      rewrite digitChar_code in E by assumption.
      change (JS.code "0") with 48%N in E. lia. }
  induction fuel as [|fuel IH]; intros n acc Hn.
  - apply Small. simpl in Hn. lia.
  - destruct (N.lt_ge_cases n 10) as [Lt|Ge]; [now apply Small|].
    assert (Hd : (n mod 10 < 10)%N) by (apply N.mod_lt; lia).
    change (JS.decimalFrom (S (S fuel)) n acc)
      with (let acc' := String (JS.digitChar (n mod 10)) acc in
            if (n <? 10)%N then acc'
            else JS.decimalFrom (S fuel) (n / 10) acc').
    cbv zeta.
    replace (n <? 10)%N with false by (symmetry; now apply N.ltb_ge).
    assert (Q : (1 <= n / 10)%N) by (apply N.div_le_lower_bound; lia).
    destruct (IH (n / 10)%N (String (JS.digitChar (n mod 10)) acc))
      as [ds [E [D [V [Lo [c [rest [Ec Hc]]]]]]]].
    { rewrite Nat2N.inj_succ, N.pow_succ_r' in Hn.
      apply N.Div0.div_lt_upper_bound. lia. }
    exists (ds ++ String (JS.digitChar (n mod 10)) "")%string.
    split; [rewrite E, append_assoc; reflexivity|].
    split; [rewrite allChars_app, D; simpl; now rewrite digitChar_isDigit|].
    split; [|split].
    + intros v. rewrite valueFrom_app, V, valueFrom_cons, valueFrom_nil.
      rewrite digitOf_digitChar by assumption.
      rewrite length_append. simpl String.length.
      rewrite Nat.add_1_r, Nat2N.inj_succ, N.pow_succ_r'.
      pose proof (N.div_mod n 10). lia.
    + intros _. specialize (Lo Q). rewrite length_append.
      rewrite Ec in Lo |- *.
      replace (String.length (String c rest) - 1)%nat
        with (String.length rest) in Lo by (simpl; lia).
      replace (String.length (String c rest)
               + String.length (String (JS.digitChar (n mod 10)) "") - 1)%nat
        with (S (String.length rest)) by (simpl; lia).
      rewrite Nat2N.inj_succ, N.pow_succ_r'.
      pose proof (N.Div0.div_mod n 10) as Dm. clear - Lo Dm.
      generalize dependent (n / 10)%N. generalize (n mod 10)%N.
      intros. lia.
    + exists c, (rest ++ String (JS.digitChar (n mod 10)) "")%string.
      split; [rewrite Ec; reflexivity|].
      intros _. now apply Hc.
Qed.

Lemma decimal_spec n :
  allChars isDigit (JS.decimal n) = true
  /\ (forall v, valueFrom v (JS.decimal n)
                = v * 10 ^ N.of_nat (String.length (JS.decimal n)) + n)%N
  /\ ((1 <= n)%N -> (10 ^ N.of_nat (String.length (JS.decimal n) - 1) <= n)%N)
  /\ (exists c rest, JS.decimal n = String c rest
                     /\ ((1 <= n)%N -> c <> "0"%char)).
Proof.
  unfold JS.decimal.
  destruct (decimalFrom_spec (N.to_nat (N.log2 n)) n "") as [ds [E H]].
  - rewrite Nat2N.inj_succ, N2Nat.id.
    destruct n as [|p]; [reflexivity|].
    apply N.log2_spec. lia.
  - rewrite append_nil_r in E. now rewrite E.
Qed.

Lemma decimal_value n : valueFrom 0 (JS.decimal n) = n.
Proof. destruct (decimal_spec n) as [_ [V _]]. rewrite V. lia. Qed.

Lemma decimal_inj n1 n2 : JS.decimal n1 = JS.decimal n2 -> n1 = n2.
Proof.
  intros E. rewrite <- (decimal_value n1), <- (decimal_value n2). now rewrite E.
Qed.

Lemma valueFrom_zeros v j :
  valueFrom v (JS.repeatChar "0" j) = (v * 10 ^ N.of_nat j)%N.
Proof.
  revert v. induction j as [|j IH]; intros v.
  - simpl. lia.
  - simpl JS.repeatChar. rewrite valueFrom_cons, IH.
    rewrite Nat2N.inj_succ, N.pow_succ_r'.
    change (digitOf "0") with 0%N. lia.
Qed.

(** ** Numbers: binary64 values *)

Open Scope Z_scope.

Lemma digits2_size p : digits2_pos p = Pos.size p.
Proof. induction p; simpl; congruence. Qed.

Lemma size_log2 p : Z.pos (Pos.size p) = Z.log2 (Z.pos p) + 1.
Proof. destruct p; simpl; lia. Qed.

(** The mantissa and the exponent of a binary64 number. *)
Lemma bounded_spec m e :
  bounded JS.prec JS.emax m e = true <->
  Z.max (Z.log2 (Z.pos m) + e - 52) (-1074) = e /\ e <= 971.
Proof.
  unfold bounded, canonical_mantissa, fexp, emin, JS.prec, JS.emax.
  rewrite andb_true_iff, Z.eqb_eq, Z.leb_le, digits2_size, size_log2.
  change (3 - 1024 - 53) with (-1074). change (1024 - 53) with 971.
  replace (Z.log2 (Z.pos m) + 1 + e - 53) with (Z.log2 (Z.pos m) + e - 52) by lia.
  tauto.
Qed.

Lemma bounded_mantissa m e :
  bounded JS.prec JS.emax m e = true -> Z.pos m < 2 ^ 53.
Proof.
  intros H. apply bounded_spec in H. destruct H as [H _].
  apply Z.log2_lt_pow2; lia.
Qed.

Lemma integral_log2 m e V :
  integral m e V -> Z.log2 (Z.pos V) = Z.log2 (Z.pos m) + e.
Proof.
  unfold integral. intros H.
  destruct (Z.le_gt_cases 0 e) as [Le|Gt].
  - rewrite Z.max_r, Z.max_l in H by lia. rewrite Z.pow_0_r, Z.mul_1_r in H.
    rewrite H, Z.log2_mul_pow2 by lia. lia.
  - rewrite Z.max_l, Z.max_r in H by lia. rewrite Z.pow_0_r, Z.mul_1_r in H.
    rewrite <- H, Z.log2_mul_pow2 by lia. lia.
Qed.

Lemma floorLog2_integer V : JS.floorLog2 V 1 = Z.log2 (Z.pos V).
Proof.
  unfold JS.floorLog2. change (Z.log2 1) with 0. rewrite Z.sub_0_r.
  pose proof (Z.log2_nonneg (Z.pos V)) as L.
  rewrite Z.max_l, Z.max_r by lia. rewrite Z.pow_0_r, Z.mul_1_r, Z.mul_1_l.
  destruct (Z.leb_spec (2 ^ Z.log2 (Z.pos V)) (Z.pos V)) as [_|H]; [reflexivity|].
  pose proof (Z.log2_spec (Z.pos V)). lia.
Qed.

(** The number of an integer that a binary64 number is, is that
    number: rounding is exact there. *)
Lemma roundQ_exact m e V :
  bounded JS.prec JS.emax m e = true -> integral m e V ->
  JS.roundQ V 1 = S754_finite false m e.
Proof.
  intros B I. pose proof (bounded_mantissa _ _ B) as M.
  apply bounded_spec in B. destruct B as [C Le].
  unfold JS.roundQ. rewrite floorLog2_integer, (integral_log2 _ _ _ I), C.
  cbv zeta. unfold integral in I. rewrite !I, Z.mul_1_l.
  assert (P : 0 < 2 ^ Z.max e 0) by (apply Z.pow_pos_nonneg; lia).
  rewrite Z.div_mul, Z.mod_mul by lia.
  replace (2 * 0 ?= 2 ^ Z.max e 0) with Lt by (symmetry; apply Z.compare_lt_iff; lia).
  replace (Z.pos m =? 2 ^ 53) with false by (symmetry; apply Z.eqb_neq; lia).
  change (JS.emax - JS.prec) with 971.
  replace (e <=? 971) with true by (symmetry; now apply Z.leb_le).
  reflexivity.
Qed.

(** ** Numbers: the shortest digits *)

Lemma represents_spec m e s j :
  JS.represents m e s j = true ->
  exists p, s = Z.pos p
            /\ JS.roundQ (fst (JS.scaled p j)) (snd (JS.scaled p j))
               = S754_finite false m e.
Proof.
  unfold JS.represents. destruct s as [|p|p]; try discriminate.
  destruct (JS.scaled p j) as [a b] eqn:S.
  destruct (JS.roundQ a b) as [| | |[] m' e'] eqn:R; try discriminate.
  rewrite andb_true_iff, Pos.eqb_eq, Z.eqb_eq. intros [-> ->].
  exists p. rewrite S. auto.
Qed.

Lemma candidate_represents m e j s :
  JS.candidate m e j = Some s -> JS.represents m e s j = true.
Proof.
  unfold JS.candidate. cbv zeta.
  destruct (JS.represents m e (_ / _) j) eqn:Lo;
    destruct (JS.represents m e (_ / _ + 1) j) eqn:Hi; try discriminate.
  - destruct (_ ?= _).
    + destruct (Z.even _); intros H; inversion H; subst; assumption.
    + intros H; inversion H; subst; assumption.
    + intros H; inversion H; subst; assumption.
  - intros H; inversion H; subst; assumption.
  - intros H; inversion H; subst; assumption.
Qed.

(** An integer that a binary64 number is, is its candidate with
    exponent 0. *)
Lemma candidate_integral m e V :
  bounded JS.prec JS.emax m e = true -> integral m e V ->
  JS.candidate m e 0 = Some (Z.pos V).
Proof.
  intros B I. unfold JS.candidate. cbv zeta.
  change (Z.max (- 0) 0) with 0. change (Z.max 0 0) with 0.
  rewrite Z.pow_0_r, !Z.mul_1_r. unfold integral in I. rewrite <- I.
  assert (P : 0 < 2 ^ Z.max (- e) 0) by (apply Z.pow_pos_nonneg; lia).
  rewrite Z.div_mul, Z.mod_mul by lia.
  assert (R : JS.represents m e (Z.pos V) 0 = true).
  { unfold JS.represents, JS.scaled. change (0 <=? 0) with true.
    change (Z.to_pos (10 ^ 0)) with 1%positive. rewrite Pos.mul_1_r.
    cbv beta iota zeta.
    rewrite (roundQ_exact m e V B I).
    now rewrite Pos.eqb_refl, Z.eqb_refl. }
  rewrite R.
  replace (2 * 0 ?= 2 ^ Z.max (- e) 0) with Lt
    by (symmetry; apply Z.compare_lt_iff; lia).
  destruct (JS.represents m e (Z.pos V + 1) 0); reflexivity.
Qed.

(** The search from a non-negative exponent stops at a non-negative
    exponent when exponent 0 has a candidate. *)
Lemma shortestFrom_stops m e : forall fuel j0,
  JS.candidate m e 0 <> None ->
  0 <= j0 -> (Z.to_nat j0 < fuel)%nat ->
  exists s j, JS.shortestFrom m e fuel j0 = Some (s, j)
              /\ 0 <= j <= j0 /\ JS.candidate m e j = Some s.
Proof.
  induction fuel as [|fuel IH]; intros j0 C0 Hj Hf; [lia|].
  simpl. destruct (JS.candidate m e j0) as [s|] eqn:C.
  - exists s, j0. repeat split; auto; lia.
  - assert (j0 <> 0) by (intros ->; contradiction).
    destruct (IH (j0 - 1)) as [s [j [E [R K]]]]; [assumption|lia|lia|].
    exists s, j. repeat split; auto; lia.
Qed.

Lemma topExponent_integral m e V : integral m e V -> 0 <= JS.topExponent m e.
Proof.
  intros I. unfold JS.topExponent. rewrite <- (integral_log2 _ _ _ I).
  pose proof (Z.log2_nonneg (Z.pos V)).
  assert (0 <= (Z.log2 (Z.pos V) + 2) * 30103 / 100000)
    by (apply Z.div_pos; lia).
  lia.
Qed.

(** The digits of an integer: a positive [s] and an exponent [j >= 0]
    with [s * 10^j] a number that rounds to it. *)
Lemma shortest_integral m e V :
  bounded JS.prec JS.emax m e = true -> integral m e V ->
  exists s j, JS.shortest m e = Some (Z.pos s, j) /\ 0 <= j
              /\ JS.roundQ (s * Z.to_pos (10 ^ j)) 1 = S754_finite false m e.
Proof.
  intros B I. unfold JS.shortest. cbv zeta.
  pose proof (topExponent_integral _ _ _ I) as T.
  destruct (shortestFrom_stops m e (Z.to_nat (JS.topExponent m e + 1100))
              (JS.topExponent m e)) as [s [j [E [R C]]]].
  - rewrite (candidate_integral _ _ _ B I). discriminate.
  - exact T.
  - lia.
  - apply candidate_represents, represents_spec in C.
    destruct C as [p [-> C]]. exists p, j. split; [exact E|]. split; [lia|].
    unfold JS.scaled in C.
    replace (0 <=? j) with true in C by (symmetry; apply Z.leb_le; lia).
    exact C.
Qed.

(** ** Numbers: the layout of the digits *)

Lemma digit_notE c : isDigit c = true -> notE c = true.
Proof.
  unfold isDigit, notE. intros H.
  destruct (Ascii.eqb_spec c "e"); [subst; discriminate|reflexivity].
Qed.

Lemma mantissa_notE ds : allChars isDigit ds = true -> allChars notE (mantissa ds) = true.
Proof.
  intros H. apply (allChars_impl _ _ _ digit_notE) in H.
  destruct ds as [|d [|d' rest]]; simpl in *; assumption.
Qed.

Lemma mantissa_inj ds1 ds2 : mantissa ds1 = mantissa ds2 -> ds1 = ds2.
Proof.
  destruct ds1 as [|a [|a' r1]], ds2 as [|b [|b' r2]]; simpl;
    intros H; try reflexivity; try discriminate; inversion H; subst;
    reflexivity.
Qed.

(** A string splits at the first occurrence of a character in one way. *)
Lemma split_unique (c : ascii) a1 : forall a2 b1 b2,
  allChars (fun x => negb (x =? c)%char) a1 = true ->
  allChars (fun x => negb (x =? c)%char) a2 = true ->
  (a1 ++ String c b1)%string = (a2 ++ String c b2)%string ->
  a1 = a2 /\ b1 = b2.
Proof.
  induction a1 as [|x a1 IH]; intros [|y a2] b1 b2 H1 H2 E; simpl in *.
  - inversion E. auto.
  - inversion E. subst. rewrite Ascii.eqb_refl in H2. discriminate.
  - inversion E. subst. rewrite Ascii.eqb_refl in H1. discriminate.
  - inversion E. subst. apply andb_true_iff in H1, H2.
    destruct (IH a2 b1 b2) as [-> ->]; tauto.
Qed.

(** The layout of the digits of an integer: [n] is at least the number
    of digits. *)
Lemma layout_integer ds n :
  Z.of_nat (String.length ds) <= n -> (1 <= String.length ds)%nat ->
  JS.layout ds n =
  if n <=? 21
  then (ds ++ JS.repeatChar "0" (Z.to_nat (n - Z.of_nat (String.length ds))))%string
  else (mantissa ds ++ "e" ++ "+" ++ JS.decimal (Z.to_N (n - 1)))%string.
Proof.
  intros K L. unfold JS.layout. cbv zeta.
  replace (Z.of_nat (String.length ds) <=? n) with true
    by (symmetry; now apply Z.leb_le).
  destruct (Z.leb_spec n 21) as [Le|Gt]; [reflexivity|].
  simpl andb. rewrite andb_false_r.
  replace (n <=? 0) with false by (symmetry; apply Z.leb_gt; lia).
  rewrite andb_false_r.
  replace (0 <=? n - 1) with true by (symmetry; apply Z.leb_le; lia).
  rewrite Z.abs_eq by lia. reflexivity.
Qed.

Lemma length_repeatChar c n : String.length (JS.repeatChar c n) = n.
Proof. induction n; simpl; congruence. Qed.

Lemma allChars_repeatChar (P : ascii -> bool) c n :
  P c = true -> allChars P (JS.repeatChar c n) = true.
Proof. intros H. induction n; simpl; [reflexivity|]. now rewrite H. Qed.

Lemma pow10_pos j : 0 <= j -> Z.pos (Z.to_pos (10 ^ j)) = 10 ^ j.
Proof. intros H. apply Z2Pos.id. apply Z.pow_pos_nonneg; lia. Qed.

(** Two integers with the same layout are the same integer. *)
Lemma layout_inj s1 j1 s2 j2 :
  0 <= j1 -> 0 <= j2 ->
  JS.layout (JS.decimal (N.pos s1))
            (Z.of_nat (String.length (JS.decimal (N.pos s1))) + j1)
  = JS.layout (JS.decimal (N.pos s2))
              (Z.of_nat (String.length (JS.decimal (N.pos s2))) + j2) ->
  (s1 * Z.to_pos (10 ^ j1) = s2 * Z.to_pos (10 ^ j2))%positive.
Proof.
  intros H1 H2.
  destruct (decimal_spec (N.pos s1)) as [D1 [V1 [_ [c1 [r1 [E1 _]]]]]].
  destruct (decimal_spec (N.pos s2)) as [D2 [V2 [_ [c2 [r2 [E2 _]]]]]].
  set (ds1 := JS.decimal (N.pos s1)) in *.
  set (ds2 := JS.decimal (N.pos s2)) in *.
  assert (L1 : (1 <= String.length ds1)%nat) by (rewrite E1; simpl; lia).
  assert (L2 : (1 <= String.length ds2)%nat) by (rewrite E2; simpl; lia).
  rewrite !layout_integer by lia.
  replace (Z.of_nat (String.length ds1) + j1 - Z.of_nat (String.length ds1))
    with j1 by lia.
  replace (Z.of_nat (String.length ds2) + j2 - Z.of_nat (String.length ds2))
    with j2 by lia.
  assert (Same : ds1 = ds2 -> j1 = j2 ->
                 (s1 * Z.to_pos (10 ^ j1) = s2 * Z.to_pos (10 ^ j2))%positive).
  { intros Ed Ej. apply decimal_inj in Ed. inversion Ed. now subst. }
  assert (Mixed : forall a b t, allChars isDigit a = true ->
                    a <> (b ++ String "e" t)%string).
  { intros a b t Da E. rewrite E, allChars_app in Da. simpl in Da.
    rewrite andb_false_r in Da. discriminate. }
  destruct (Z.leb_spec (Z.of_nat (String.length ds1) + j1) 21) as [Le1|Gt1];
    destruct (Z.leb_spec (Z.of_nat (String.length ds2) + j2) 21) as [Le2|Gt2];
    intros E.
  - apply (f_equal (valueFrom 0)) in E.
    rewrite !valueFrom_app, !valueFrom_zeros in E.
    unfold ds1, ds2 in E. rewrite !decimal_value, !Z_nat_N in E.
    apply Pos2Z.inj. rewrite !Pos2Z.inj_mul, !pow10_pos by assumption.
    apply (f_equal Z.of_N) in E. rewrite !N2Z.inj_mul, !N2Z.inj_pow in E.
    rewrite !Z2N.id in E by lia. exact E.
  - exfalso. eapply (Mixed (ds1 ++ _)%string); [|exact E].
    rewrite allChars_app, D1. now apply allChars_repeatChar.
  - exfalso. symmetry in E. eapply (Mixed (ds2 ++ _)%string); [|exact E].
    rewrite allChars_app, D2. now apply allChars_repeatChar.
  - apply split_unique in E; try (now apply mantissa_notE).
    destruct E as [Em Ed]. inversion Ed as [Ed'].
    apply decimal_inj in Ed'. apply mantissa_inj in Em.
    apply Same; [exact Em|]. rewrite Em in Ed'. lia.
Qed.

(** The layout of a positive integer begins with its first digit. *)
Lemma layout_head s j :
  0 <= j ->
  exists c rest,
    JS.layout (JS.decimal (N.pos s))
              (Z.of_nat (String.length (JS.decimal (N.pos s))) + j)
    = String c rest /\ c <> "0"%char.
Proof.
  intros H. destruct (decimal_spec (N.pos s)) as [_ [_ [_ [c [r [E Hc]]]]]].
  rewrite layout_integer; [|lia|rewrite E; simpl; lia].
  rewrite E. exists c.
  destruct (_ <=? 21).
  - eexists. split; [reflexivity|]. apply Hc. lia.
  - destruct r; eexists; (split; [reflexivity|apply Hc; lia]).
Qed.

(** ** Numbers: truncation *)

Lemma pos_shiftl p n : Z.pos (Pos.shiftl p n) = Z.pos p * 2 ^ Z.of_N n.
Proof.
  change (Z.pos (Pos.shiftl p n)) with (Z.of_N (N.shiftl (N.pos p) n)).
  rewrite N.shiftl_mul_pow2, N2Z.inj_mul, N2Z.inj_pow. reflexivity.
Qed.

(** The number of a positive integer below [2^53]. *)
Lemma ofPos_spec neg p :
  Z.pos p < 2 ^ 53 ->
  exists m e, JS.ofPos neg p = S754_finite neg m e
              /\ bounded JS.prec JS.emax m e = true /\ integral m e p.
Proof.
  intros H. unfold JS.ofPos. cbv zeta.
  rewrite digits2_size, size_log2. unfold JS.prec.
  pose proof (Z.log2_nonneg (Z.pos p)) as L0.
  assert (L : Z.log2 (Z.pos p) < 53) by (apply Z.log2_lt_pow2; lia).
  eexists. eexists. split; [reflexivity|].
  assert (M : Z.pos (Pos.shiftl p (Z.to_N (53 - (Z.log2 (Z.pos p) + 1))))
              = Z.pos p * 2 ^ (52 - Z.log2 (Z.pos p))).
  { rewrite pos_shiftl, Z2N.id by lia. f_equal. f_equal. lia. }
  split.
  - apply bounded_spec. rewrite M, Z.log2_mul_pow2 by lia. lia.
  - unfold integral. rewrite M, Z.max_l, Z.max_r by lia.
    rewrite Z.pow_0_r, Z.mul_1_r. f_equal. f_equal. lia.
Qed.

(** [Math.trunc] of a finite number that is not below zero: a zero,
    or the binary64 number that is its integer part. *)
Lemma trunc_spec x :
  JS.binary64 x -> JS.isFinite x = true -> JS.ltZero x = false ->
  (integerPart x = 0 /\ exists s, JS.trunc x = S754_zero s)
  \/ (exists m e V, JS.trunc x = S754_finite false m e
                    /\ bounded JS.prec JS.emax m e = true
                    /\ integral m e V /\ integerPart x = Z.pos V).
Proof.
  intros B F N. destruct x as [s|s| |s m e]; try discriminate.
  - left. split; [reflexivity|]. now exists s.
  - destruct s; [discriminate|]. unfold JS.binary64 in B. simpl in B.
    unfold JS.trunc, integerPart. cbv zeta.
    destruct (Z.leb_spec 0 e) as [Le|Gt].
    + right. exists m, e, (Z.to_pos (Z.pos m * 2 ^ e)).
      assert (P : 0 < Z.pos m * 2 ^ e)
        by (apply Z.mul_pos_pos; [lia|apply Z.pow_pos_nonneg; lia]).
      split; [reflexivity|]. split; [exact B|].
      split; [|now rewrite Z2Pos.id].
      unfold integral. rewrite Z2Pos.id, Z.max_r, Z.max_l by lia.
      now rewrite Z.pow_0_r, Z.mul_1_r.
    + rewrite N.shiftr_div_pow2.
      assert (D : Z.of_N (N.pos m / 2 ^ Z.to_N (- e)) = Z.pos m / 2 ^ (- e)).
      { rewrite N2Z.inj_div, N2Z.inj_pow, Z2N.id by lia. reflexivity. }
      destruct (N.pos m / 2 ^ Z.to_N (- e))%N as [|p] eqn:Q.
      * left. split; [now rewrite <- D|]. now exists false.
      * right. rewrite <- D.
        assert (Hp : Z.pos p < 2 ^ 53).
        { pose proof (bounded_mantissa _ _ B).
          change (Z.pos p) with (Z.of_N (N.pos p)). rewrite D.
          assert (0 < 2 ^ (- e)) by (apply Z.pow_pos_nonneg; lia).
          apply Z.le_lt_trans with (Z.pos m); [|assumption].
          apply Z.div_le_upper_bound; nia. }
        destruct (ofPos_spec false p Hp) as [m' [e' [E [B' I']]]].
        exists m', e', p. auto.
Qed.

(** [String(Math.trunc(x))] of a finite number that is not below zero
    is ["0"], or begins with a digit that is not [0]. *)
Lemma toStringPos_integral m e V :
  bounded JS.prec JS.emax m e = true -> integral m e V ->
  exists s j,
    0 <= j
    /\ JS.roundQ (s * Z.to_pos (10 ^ j)) 1 = S754_finite false m e
    /\ JS.toStringPos m e
       = JS.layout (JS.decimal (N.pos s))
                   (Z.of_nat (String.length (JS.decimal (N.pos s))) + j).
Proof.
  intros B I. destruct (shortest_integral m e V B I) as [s [j [E [Hj R]]]].
  exists s, j. split; [exact Hj|]. split; [exact R|].
  unfold JS.toStringPos. now rewrite E.
Qed.

Lemma integral_inj m e V1 V2 : integral m e V1 -> integral m e V2 -> V1 = V2.
Proof.
  unfold integral. intros H1 H2.
  assert (0 < 2 ^ Z.max (- e) 0) by (apply Z.pow_pos_nonneg; lia).
  apply Pos2Z.inj. nia.
Qed.

(** Two finite numbers that are not below zero have the same
    [String(Math.trunc(x))] exactly when they have the same integer
    part. *)
Lemma toString_trunc_inj x1 x2 :
  JS.binary64 x1 -> JS.isFinite x1 = true -> JS.ltZero x1 = false ->
  JS.binary64 x2 -> JS.isFinite x2 = true -> JS.ltZero x2 = false ->
  (JS.toString (JS.trunc x1) = JS.toString (JS.trunc x2)
   <-> integerPart x1 = integerPart x2).
Proof.
  intros B1 F1 N1 B2 F2 N2.
  destruct (trunc_spec x1 B1 F1 N1) as [[Z1 [s1 T1]]|[m1 [e1 [V1 [T1 [C1 [I1 P1]]]]]]];
    destruct (trunc_spec x2 B2 F2 N2) as [[Z2 [s2 T2]]|[m2 [e2 [V2 [T2 [C2 [I2 P2]]]]]]];
    rewrite T1, T2; simpl JS.toString.
  - split; [congruence|reflexivity].
  - destruct (toStringPos_integral m2 e2 V2 C2 I2) as [s [j [Hj [_ ->]]]].
    destruct (layout_head s j Hj) as [c [rest [-> Hc]]].
    split; [|lia]. intros E. inversion E. congruence.
  - destruct (toStringPos_integral m1 e1 V1 C1 I1) as [s [j [Hj [_ ->]]]].
    destruct (layout_head s j Hj) as [c [rest [-> Hc]]].
    split; [|lia]. intros E. inversion E. congruence.
  - split.
    + destruct (toStringPos_integral m1 e1 V1 C1 I1) as [s [j [Hj [R ->]]]].
      destruct (toStringPos_integral m2 e2 V2 C2 I2) as [s' [j' [Hj' [R' ->]]]].
      intros E. apply layout_inj in E; try assumption.
      rewrite E, R' in R. inversion R. subst.
      rewrite P1, P2. f_equal. eapply integral_inj; eauto.
    + intros E. assert (V1 = V2) by lia. subst V2.
      pose proof (roundQ_exact _ _ _ C1 I1) as R1.
      rewrite (roundQ_exact _ _ _ C2 I2) in R1. inversion R1. reflexivity.
Qed.

(** ** Numbers: the safe integers *)

(** An integer from [2^53] on rounds to a number with a positive
    exponent. *)
Lemma roundQ_large W m e :
  2 ^ 53 <= Z.pos W -> JS.roundQ W 1 = S754_finite false m e -> 1 <= e.
Proof.
  intros H. unfold JS.roundQ. rewrite floorLog2_integer.
  assert (L : 53 <= Z.log2 (Z.pos W)) by (apply Z.log2_le_pow2; lia).
  rewrite (Z.max_l (Z.log2 (Z.pos W) - 52) (-1074)) by lia. cbv zeta.
  match goal with
  | |- context [if ?b then (2 ^ 52, ?e1 + 1) else (?mq, ?e1)] =>
      generalize mq
  end.
  intros q. destruct (q =? 2 ^ 53).
  - change (2 ^ 52) with 4503599627370496. cbv iota.
    destruct (Z.leb _ _); intros E; [|discriminate].
    assert (Z.log2 (Z.pos W) - 52 + 1 = e) by congruence. lia.
  - destruct q; try discriminate.
    destruct (Z.leb _ _); intros E; [|discriminate].
    assert (Z.log2 (Z.pos W) - 52 = e) by congruence. lia.
Qed.

(** Below [2^53] only the integer itself rounds to a number. *)
Lemma roundQ_small_inv m e V W :
  bounded JS.prec JS.emax m e = true -> integral m e V ->
  Z.pos V < 2 ^ 53 ->
  JS.roundQ W 1 = S754_finite false m e -> W = V.
Proof.
  intros B I Hv R.
  assert (E0 : e <= 0).
  { apply bounded_spec in B. destruct B as [C _].
    rewrite <- (integral_log2 _ _ _ I) in C.
    assert (Z.log2 (Z.pos V) < 53) by (apply Z.log2_lt_pow2; lia). lia. }
  destruct (Z.lt_ge_cases (Z.pos W) (2 ^ 53)) as [Lt|Ge].
  - destruct (ofPos_spec false W Lt) as [m' [e' [_ [B' I']]]].
    rewrite (roundQ_exact _ _ _ B' I') in R. inversion R. subst.
    eapply integral_inj; eauto.
  - apply roundQ_large in R; [lia|assumption].
Qed.

(** [String(Math.trunc(x))] for a finite [x] that is not below zero and
    whose integer part is below [2^53]: the decimal digits of the
    integer part, with no leading zero. *)
Lemma toString_trunc_digits x :
  JS.binary64 x -> JS.isFinite x = true -> JS.ltZero x = false ->
  integerPart x < 2 ^ 53 ->
  allChars isDigit (JS.toString (JS.trunc x)) = true
  /\ Z.of_N (valueFrom 0 (JS.toString (JS.trunc x))) = integerPart x
  /\ plainHead (JS.toString (JS.trunc x)).
Proof.
  intros B F N Small.
  destruct (trunc_spec x B F N) as [[Z0 [s T]]|[m [e [V [T [C [I P]]]]]]];
    rewrite T; simpl JS.toString.
  - split; [reflexivity|]. split; [now rewrite Z0|].
    exists "0"%char, ""%string. split; [reflexivity|]. intros K. now contradiction K.
  - rewrite P in Small.
    destruct (toStringPos_integral m e V C I) as [s [j [Hj [R ->]]]].
    apply (roundQ_small_inv _ _ _ _ C I Small) in R.
    destruct (decimal_spec (N.pos s)) as [D [Val [Lo [c [r [E Hc]]]]]].
    assert (Len : Z.of_nat (String.length (JS.decimal (N.pos s))) + j <= 21).
    { specialize (Lo ltac:(lia)).
      assert (Hs : 10 ^ (Z.of_nat (String.length (JS.decimal (N.pos s))) - 1 + j)
                   <= Z.pos V).
      { rewrite <- R, Pos2Z.inj_mul, pow10_pos by assumption.
        rewrite Z.pow_add_r; [|rewrite E; simpl String.length; lia|lia].
        apply Z.mul_le_mono_nonneg_r; [apply Z.pow_nonneg; lia|].
        apply N2Z.inj_le in Lo. rewrite N2Z.inj_pow in Lo.
        rewrite E in Lo |- *. simpl String.length in Lo |- *.
        rewrite Nat2Z.inj_succ.
        replace (Z.succ (Z.of_nat (String.length r)) - 1)
          with (Z.of_nat (String.length r)) by lia.
        rewrite nat_N_Z in Lo.
        replace (S (String.length r) - 1)%nat with (String.length r) in Lo by lia.
        exact Lo. }
      destruct (Z.le_gt_cases (Z.of_nat (String.length (JS.decimal (N.pos s))) + j) 21)
        as [Ok|Big]; [exact Ok|exfalso].
      assert (10 ^ 21 <= 10 ^ (Z.of_nat (String.length (JS.decimal (N.pos s))) - 1 + j))
        by (apply Z.pow_le_mono_r; lia).
      assert (2 ^ 53 < 10 ^ 21) by reflexivity. lia. }
    rewrite layout_integer; [|lia|rewrite E; simpl; lia].
    replace (_ <=? 21) with true by (symmetry; now apply Z.leb_le).
    replace (Z.of_nat (String.length (JS.decimal (N.pos s))) + j
             - Z.of_nat (String.length (JS.decimal (N.pos s)))) with j by lia.
    split; [rewrite allChars_app, D; now apply allChars_repeatChar|].
    split.
    + rewrite valueFrom_app, valueFrom_zeros, decimal_value, Z_nat_N.
      rewrite N2Z.inj_mul, N2Z.inj_pow, Z2N.id by lia.
      rewrite P, <- R, Pos2Z.inj_mul, pow10_pos by assumption. reflexivity.
    + rewrite E. exists c. eexists. split; [reflexivity|].
      intros _. apply Hc. lia.
Qed.

Lemma toString_trunc_plainHead x :
  JS.binary64 x -> JS.isFinite x = true -> JS.ltZero x = false ->
  plainHead (JS.toString (JS.trunc x)).
Proof.
  intros B F N.
  destruct (trunc_spec x B F N) as [[Z0 [s T]]|[m [e [V [T [C [I P]]]]]]];
    rewrite T; simpl JS.toString.
  - exists "0"%char, ""%string. split; [reflexivity|]. intros K. now contradiction K.
  - destruct (toStringPos_integral m e V C I) as [s [j [Hj [_ ->]]]].
    destruct (layout_head s j Hj) as [c [rest [-> Hc]]].
    exists c, rest. auto.
Qed.

(** Padding to two characters keeps such strings apart. *)
Lemma padStart_inj t1 t2 :
  plainHead t1 -> plainHead t2 ->
  JS.padStart 2 "0" t1 = JS.padStart 2 "0" t2 -> t1 = t2.
Proof.
  intros [c1 [r1 [-> H1]]] [c2 [r2 [-> H2]]]. unfold JS.padStart.
  destruct r1 as [|d1 r1], r2 as [|d2 r2]; simpl; intros E.
  - inversion E. reflexivity.
  - inversion E. subst. exfalso. apply H2; [discriminate|reflexivity].
  - inversion E. subst. exfalso. apply H1; [discriminate|reflexivity].
  - exact E.
Qed.

Lemma length_padStart n c t : (n <= String.length (JS.padStart n c t))%nat.
Proof.
  unfold JS.padStart. rewrite length_append, length_repeatChar. lia.
Qed.

(** ** Priorities and file names *)

Lemma formatPriority_ok x pr :
  formatPriority x = Ok pr ->
  JS.isFinite x = true /\ JS.ltZero x = false
  /\ pr = JS.padStart 2 "0" (JS.toString (JS.trunc x)).
Proof.
  unfold formatPriority.
  destruct (JS.isFinite x), (JS.ltZero x); simpl; try discriminate.
  intros H. inversion H. auto.
Qed.

(** C8. [formatPriority] throws, and then [InvalidPriority], exactly
    when the number is not finite or is below zero.  Otherwise it is
    [String(Math.trunc(x))] padded with zeros at the start to two
    characters: at least two characters long; and for a priority whose
    integer part is below [2^53] these are the decimal digits of the
    integer part, with a [0] in front when there is one digit only.
    So 3 gives ["03"] and 42 gives ["42"]; -1, NaN and the infinities
    are refused. *)
Theorem C8_format_priority (x : JS.number) :
  (formatPriority x = Throw InvalidPriority
   <-> JS.isFinite x = false \/ JS.ltZero x = true)
  /\ (forall e, formatPriority x = Throw e -> e = InvalidPriority)
  /\ (JS.isFinite x = true -> JS.ltZero x = false ->
      let t := JS.toString (JS.trunc x) in
      formatPriority x = Ok (JS.padStart 2 "0" t)
      /\ (2 <= String.length (JS.padStart 2 "0" t))%nat
      /\ (JS.binary64 x -> integerPart x < 2 ^ 53 ->
          allChars isDigit t = true
          /\ Z.of_N (valueFrom 0 t) = integerPart x
          /\ plainHead t
          /\ JS.padStart 2 "0" t
             = if (String.length t <? 2)%nat then ("0" ++ t)%string else t))
  /\ formatPriority three = Ok "03"%string
  /\ formatPriority (JS.ofPos false 42) = Ok "42"%string
  /\ formatPriority (JS.ofPos true 1) = Throw InvalidPriority
  /\ formatPriority JS.NaN = Throw InvalidPriority
  /\ formatPriority (S754_infinity false) = Throw InvalidPriority.
Proof.
  split; [|split; [|split]].
  - unfold formatPriority.
    destruct (JS.isFinite x), (JS.ltZero x); simpl; split; intros H;
      try reflexivity; try discriminate; auto.
    destruct H; discriminate.
  - intros e. unfold formatPriority.
    destruct (negb (JS.isFinite x) || JS.ltZero x); intros H; inversion H.
    reflexivity.
  - intros F N t. split; [|split].
    + unfold formatPriority. now rewrite F, N.
    + apply length_padStart.
    + intros B Small.
      destruct (toString_trunc_digits x B F N Small) as [D [V P]].
      fold t in D, V, P. repeat split; try assumption.
      destruct P as [c [r [E _]]]. rewrite E. unfold JS.padStart.
      destruct r; reflexivity.
  - repeat split; vm_compute; reflexivity.
Qed.

Lemma buildFileName_task_ok title p sp f :
  buildFileName task title (Some p) (Some sp) = Ok f ->
  exists pr, formatPriority p = Ok pr
             /\ f = (pr ++ " " ++ sanitizeFileNamePart title ++ " ("
                     ++ formatStoryPoints sp ++ ").md")%string.
Proof.
  unfold buildFileName.
  destruct (negb (JS.truthy (sanitizeFileNamePart title))); [discriminate|].
  destruct (formatPriority p) as [pr|e]; [|discriminate].
  intros H. inversion H. eauto.
Qed.

(** C1, as the code has it.  The file name of a task is a function of
    its title, priority and story points; and two tasks with the same
    title and story points have the same file name exactly when their
    priorities have the same integer part: the priority is truncated
    before it is written. *)
Theorem C1_encode_priority (title : string) (p1 p2 sp : JS.number)
        (f1 f2 : string) :
  JS.binary64 p1 -> JS.binary64 p2 ->
  buildFileName task title (Some p1) (Some sp) = Ok f1 ->
  buildFileName task title (Some p2) (Some sp) = Ok f2 ->
  (f1 = f2 <-> integerPart p1 = integerPart p2).
Proof.
  intros B1 B2 H1 H2.
  destruct (buildFileName_task_ok _ _ _ _ H1) as [pr1 [P1 ->]].
  destruct (buildFileName_task_ok _ _ _ _ H2) as [pr2 [P2 ->]].
  destruct (formatPriority_ok _ _ P1) as [F1 [N1 ->]].
  destruct (formatPriority_ok _ _ P2) as [F2 [N2 ->]].
  rewrite <- (toString_trunc_inj p1 p2 B1 F1 N1 B2 F2 N2).
  split.
  - intros E. apply append_inv_tail in E.
    apply padStart_inj in E; [exact E| |]; now apply toString_trunc_plainHead.
  - intros E. now rewrite E.
Qed.

(** The claim as the specification words it fails: the priorities 3
    and 3.5 differ and give one file name. *)
Lemma C1_counterexample :
  JS.binary64 three /\ JS.binary64 threeAndHalf
  /\ three <> threeAndHalf
  /\ JS.isFinite threeAndHalf = true /\ JS.ltZero threeAndHalf = false
  /\ buildFileName task "Fix bug" (Some three) (Some five)
     = Ok "03 Fix bug (5).md"%string
  /\ buildFileName task "Fix bug" (Some threeAndHalf) (Some five)
     = Ok "03 Fix bug (5).md"%string.
Proof.
  repeat split; try (vm_compute; reflexivity). discriminate.
Qed.

(** C1, at the priorities 3 and 3.5 of the task [Fix bug]. *)
Lemma C1_witness :
  JS.binary64 three /\ JS.binary64 threeAndHalf
  /\ buildFileName task "Fix bug" (Some three) (Some five)
     = Ok "03 Fix bug (5).md"%string
  /\ buildFileName task "Fix bug" (Some threeAndHalf) (Some five)
     = Ok "03 Fix bug (5).md"%string
  /\ integerPart three = integerPart threeAndHalf.
Proof.
  assert (B1 : JS.binary64 three) by reflexivity.
  assert (B2 : JS.binary64 threeAndHalf) by reflexivity.
  assert (H1 : buildFileName task "Fix bug" (Some three) (Some five)
               = Ok "03 Fix bug (5).md"%string) by (vm_compute; reflexivity).
  assert (H2 : buildFileName task "Fix bug" (Some threeAndHalf) (Some five)
               = Ok "03 Fix bug (5).md"%string) by (vm_compute; reflexivity).
  split; [exact B1|]. split; [exact B2|].
  split; [exact H1|]. split; [exact H2|].
  exact (proj1 (C1_encode_priority "Fix bug" three threeAndHalf five _ _
                  B1 B2 H1 H2) eq_refl).
Defined.

(** ** An explicit file name in [move] and [get] *)

(** C2 at that input: [create] sanitises the explicit file name and
    [move] does not, so the two handlers settle on different names, and
    the move of the task just created fails with [SourceNotFound]. *)
Theorem C2_move_keeps_raw_name :
  createFileName slashTask = Ok "a-b.md"%string
  /\ moveFileName slashMove = Ok "a/b.md"%string
  /\ fst (callTool demoCwd None demoNow (Create slashTask) demoFs)
     = Ok (Created (demoAgelum ++ ["tasks"; "pending"; "a-b.md"]%string))
  /\ fst (callTool demoCwd None demoNow (Move slashMove)
            (snd (callTool demoCwd None demoNow (Create slashTask) demoFs)))
     = Throw (SourceNotFound (demoAgelum ++ ["tasks"; "pending"; "a"; "b.md"]%string)).
Proof. repeat split; vm_compute; reflexivity. Qed.

(** C6 at that input: [create] returns the path of [draft v2.md], and
    the [get] that follows answers another path, with [exists: false]. *)
Theorem C6_get_keeps_raw_name :
  fst (callTool demoCwd None demoNow (Create colonDoc) demoFs)
  = Ok (Created (demoAgelum ++ ["docs"; "draft v2.md"]%string))
  /\ fst (callTool demoCwd None demoNow (Get colonGet)
            (snd (callTool demoCwd None demoNow (Create colonDoc) demoFs)))
     = Ok (Resolved (demoAgelum ++ ["docs"; "draft: v2.md"]%string) false).
Proof. split; vm_compute; reflexivity. Qed.

(** ** Names that sanitising leaves as they are *)

Close Scope Z_scope.

Lemma space_isWhiteSpace : JS.isWhiteSpace " " = true.
Proof. reflexivity. Qed.

Lemma plainChar_not_space c : plainChar c = true -> (c =? " ")%char = false.
Proof.
  intros H. destruct (Ascii.eqb_spec c " "); [subst; discriminate|reflexivity].
Qed.

Lemma plainChar_parts c :
  plainChar c = true ->
  isSeparator c = false /\ isReserved c = false /\ JS.isWhiteSpace c = false.
Proof.
  unfold plainChar. rewrite !andb_true_iff, !negb_true_iff. tauto.
Qed.

Lemma replaceClass_keeps set by_ s :
  allChars (fun c => negb (set c)) s = true -> JS.replaceClass set by_ s = s.
Proof.
  induction s as [|c s IH]; simpl; [reflexivity|].
  rewrite andb_true_iff, negb_true_iff. intros [H1 H2].
  now rewrite H1, IH.
Qed.

Lemma tidyFrom_chars (P : ascii -> bool) :
  P " "%char = true -> (forall c, plainChar c = true -> P c = true) ->
  forall s a, tidyFrom a s = true -> allChars P s = true.
Proof.
  intros Hs Hp. induction s as [|c s IH]; intros a; simpl; [reflexivity|].
  destruct (Ascii.eqb_spec c " ") as [->|N]; rewrite andb_true_iff; intros [H1 H2].
  - rewrite Hs. simpl. eauto.
  - rewrite (Hp c H1). simpl. eauto.
Qed.

Lemma tidyFrom_runs s : forall a inRun,
  tidyFrom a s = true -> (inRun = true -> a = true) ->
  JS.replaceRunsFrom JS.isWhiteSpace " " inRun s = s.
Proof.
  induction s as [|c s IH]; intros a inRun; simpl; [reflexivity|].
  destruct (Ascii.eqb_spec c " ") as [->|N]; rewrite andb_true_iff; intros [H1 H2] R.
  - rewrite space_isWhiteSpace. apply negb_true_iff in H1. subst a.
    destruct inRun; [now discriminate R|].
    simpl. f_equal. apply (IH true); auto.
  - destruct (plainChar_parts c H1) as [_ [_ W]]. rewrite W.
    f_equal. apply (IH false); [assumption|discriminate].
Qed.

Lemma tidyFrom_trimEnd s : forall a,
  tidyFrom a s = true -> s <> ""%string -> JS.trimEnd s = s.
Proof.
  induction s as [|c s IH]; intros a H N; [contradiction|].
  simpl in *. destruct s as [|d s].
  - simpl. destruct (Ascii.eqb_spec c " ") as [->|Nc].
    + rewrite andb_true_iff in H. destruct H as [_ H]. discriminate.
    + rewrite andb_true_iff in H. destruct H as [H _].
      destruct (plainChar_parts c H) as [_ [_ W]]. now rewrite W.
  - assert (E : JS.trimEnd (String d s) = String d s).
    { destruct (c =? " ")%char; rewrite andb_true_iff in H; destruct H as [_ H];
        eapply IH; eauto; discriminate. }
    rewrite E. reflexivity.
Qed.

(** Sanitising leaves a tidy string as it is. *)
Lemma sanitize_tidy s : tidy s = true -> sanitizeFileNamePart s = s.
Proof.
  intros T. unfold sanitizeFileNamePart.
  rewrite (replaceClass_keeps isSeparator).
  2:{ apply (tidyFrom_chars _ eq_refl) with (a := true); [|exact T].
      intros c H. destruct (plainChar_parts c H) as [-> _]. reflexivity. }
  rewrite (replaceClass_keeps isReserved).
  2:{ apply (tidyFrom_chars _ eq_refl) with (a := true); [|exact T].
      intros c H. destruct (plainChar_parts c H) as [_ [-> _]]. reflexivity. }
  unfold JS.replaceRuns. rewrite (tidyFrom_runs s true false T) by discriminate.
  unfold JS.trim.
  assert (S : JS.trimStart s = s).
  { destruct s as [|c s]; [reflexivity|]. unfold tidy in T. simpl in *.
    destruct (c =? " ")%char; [discriminate|].
    apply andb_true_iff in T. destruct T as [H _].
    destruct (plainChar_parts c H) as [_ [_ W]]. now rewrite W. }
  rewrite S. apply (tidyFrom_trimEnd s true T).
  intros ->. discriminate.
Qed.

Lemma word_tidyFrom w :
  allChars plainChar w = true -> tidyFrom false w = true.
Proof.
  induction w as [|c w IH]; simpl; [reflexivity|].
  rewrite andb_true_iff. intros [H1 H2].
  now rewrite (plainChar_not_space c H1), H1, IH.
Qed.

Lemma word_tidy w :
  allChars plainChar w = true -> w <> ""%string -> tidy w = true.
Proof.
  destruct w as [|c w]; [contradiction|]. unfold tidy. simpl.
  rewrite andb_true_iff. intros [H1 H2] _.
  now rewrite (plainChar_not_space c H1), H1, word_tidyFrom.
Qed.

Lemma tidyFrom_app_word s w : forall a,
  tidyFrom a s = true -> allChars plainChar w = true ->
  tidyFrom a (s ++ w) = true.
Proof.
  induction s as [|c s IH]; intros a; simpl.
  - rewrite negb_true_iff. intros -> W. now apply word_tidyFrom.
  - destruct (c =? " ")%char; rewrite !andb_true_iff; intros [H1 H2] W;
      split; auto.
Qed.

Lemma tidyFrom_app_space s t : forall a,
  tidyFrom a s = true -> tidy t = true ->
  tidyFrom a (s ++ " " ++ t) = true.
Proof.
  induction s as [|c s IH]; intros a; simpl.
  - rewrite negb_true_iff. intros -> T. exact T.
  - destruct (c =? " ")%char; rewrite !andb_true_iff; intros [H1 H2] T;
      split; auto.
Qed.

Lemma runs_loose s : forall inRun,
  allChars (fun c => negb (isSeparator c) && negb (isReserved c)) s = true ->
  looseFrom inRun (JS.replaceRunsFrom JS.isWhiteSpace " " inRun s) = true.
Proof.
  induction s as [|c s IH]; intros inRun; simpl; [reflexivity|].
  rewrite andb_true_iff. intros [H1 H2].
  destruct (JS.isWhiteSpace c) eqn:W.
  - destruct inRun; [now apply IH|]. simpl. now apply IH.
  - simpl. destruct (Ascii.eqb_spec c " ") as [->|N]; [discriminate|].
    unfold plainChar. rewrite H1, W. simpl. now apply IH.
Qed.

Lemma trimStart_loose s : forall a,
  looseFrom a s = true -> looseFrom true (JS.trimStart s) = true.
Proof.
  induction s as [|c s IH]; intros a; simpl; [reflexivity|].
  destruct (Ascii.eqb_spec c " ") as [->|N].
  - rewrite space_isWhiteSpace, andb_true_iff. intros [_ H]. eauto.
  - rewrite andb_true_iff. intros [H1 H2].
    destruct (plainChar_parts c H1) as [_ [_ W]]. rewrite W. simpl.
    destruct (Ascii.eqb_spec c " ") as [E|_]; [contradiction|].
    now rewrite H1, H2.
Qed.

Lemma trimEnd_tidy s : forall a,
  looseFrom a s = true ->
  JS.trimEnd s = ""%string \/ tidyFrom a (JS.trimEnd s) = true.
Proof.
  induction s as [|c s IH]; intros a; simpl; [now left|].
  destruct (Ascii.eqb_spec c " ") as [->|N]; rewrite andb_true_iff;
    intros [H1 H2].
  - rewrite space_isWhiteSpace.
    destruct (IH true H2) as [E|T].
    + rewrite E. now left.
    + destruct (JS.trimEnd s) as [|d r] eqn:E; [now left|].
      right. change (tidyFrom a (String " " (String d r)))
        with (negb a && tidyFrom true (String d r)).
      now rewrite H1, T.
  - destruct (plainChar_parts c H1) as [_ [_ W]]. rewrite W.
    destruct (IH false H2) as [E|T].
    + rewrite E. right. simpl.
      destruct (Ascii.eqb_spec c " ") as [K|_]; [contradiction|].
      now rewrite H1.
    + destruct (JS.trimEnd s) as [|d r] eqn:E.
      * right. simpl. destruct (Ascii.eqb_spec c " ") as [K|_]; [contradiction|].
        now rewrite H1.
      * right. change (tidyFrom a (String c (String d r)))
          with (if (c =? " ")%char then negb a && tidyFrom true (String d r)
                else plainChar c && tidyFrom false (String d r)).
        destruct (Ascii.eqb_spec c " ") as [K|_]; [contradiction|].
        now rewrite H1, T.
Qed.

(** A sanitised string is empty or tidy. *)
Lemma sanitize_is_tidy value :
  sanitizeFileNamePart value = ""%string
  \/ tidy (sanitizeFileNamePart value) = true.
Proof.
  unfold sanitizeFileNamePart, JS.trim, JS.replaceRuns, tidy.
  apply trimEnd_tidy. apply (trimStart_loose _ false). apply runs_loose.
  assert (A : allChars (fun c => negb (isSeparator c))
                (JS.replaceClass isSeparator "-" value) = true).
  { apply allChars_replaceClass; [reflexivity|].
    intros c S _. now rewrite S. }
  apply allChars_replaceClass; [reflexivity|].
  intros c R I. rewrite R, andb_true_r.
  exact (proj1 (allChars_In _ _) A c I).
Qed.

(** Sanitising twice is sanitising once. *)
Lemma sanitize_idempotent value :
  sanitizeFileNamePart (sanitizeFileNamePart value) = sanitizeFileNamePart value.
Proof.
  destruct (sanitize_is_tidy value) as [E|T].
  - rewrite E. reflexivity.
  - now apply sanitize_tidy.
Qed.

Lemma trim_tidy s : tidy s = true -> JS.trim s = s.
Proof.
  intros T. unfold JS.trim.
  assert (S : JS.trimStart s = s).
  { destruct s as [|c s]; [reflexivity|]. unfold tidy in T. simpl in *.
    destruct (c =? " ")%char; [discriminate|].
    apply andb_true_iff in T. destruct T as [H _].
    destruct (plainChar_parts c H) as [_ [_ W]]. now rewrite W. }
  rewrite S. apply (tidyFrom_trimEnd s true T).
  intros ->. discriminate.
Qed.

(** ** Derived file names *)

Lemma isDigit_plain c : isDigit c = true -> plainChar c = true.
Proof.
  destruct c as [[] [] [] [] [] [] [] []]; try discriminate; reflexivity.
Qed.

Lemma digits_plain s : allChars isDigit s = true -> allChars plainChar s = true.
Proof. apply allChars_impl. exact isDigit_plain. Qed.

Lemma allChars_substring P s : forall n m,
  allChars P s = true -> allChars P (substring n m s) = true.
Proof.
  induction s as [|c s IH]; intros [|n] [|m]; simpl; try reflexivity;
    rewrite andb_true_iff; intros [H1 H2]; auto.
  rewrite H1. simpl. auto.
Qed.

Lemma decimal_plain n : allChars plainChar (JS.decimal n) = true.
Proof. apply digits_plain. apply decimal_spec. Qed.

Lemma layout_plain ds n :
  allChars plainChar ds = true -> allChars plainChar (JS.layout ds n) = true.
Proof.
  intros D. unfold JS.layout.
  destruct (_ && _).
  { rewrite allChars_app, D. now apply allChars_repeatChar. }
  destruct (_ && _).
  { rewrite !allChars_app, !allChars_substring by assumption. reflexivity. }
  destruct (_ && _).
  { change (allChars plainChar (JS.repeatChar "0" (Z.to_nat (- n)) ++ ds) = true).
    rewrite allChars_app, D, andb_true_r.
    now apply allChars_repeatChar. }
  rewrite !allChars_app, decimal_plain, andb_true_r.
  assert (S : allChars plainChar (if (0 <=? n - 1)%Z then "+" else "-")%string = true)
    by now destruct (0 <=? n - 1)%Z.
  rewrite S, !andb_true_r.
  destruct ds as [|d [|e r]]; [reflexivity|exact D|].
  simpl in *. apply andb_true_iff in D. destruct D as [-> D]. exact D.
Qed.

Lemma toStringPos_plain m e : allChars plainChar (JS.toStringPos m e) = true.
Proof.
  unfold JS.toStringPos. destruct (JS.shortest m e) as [[s j]|]; [|reflexivity].
  apply layout_plain, decimal_plain.
Qed.

(** [String(x)] has no character that sanitising would change. *)
Lemma toString_plain x : allChars plainChar (JS.toString x) = true.
Proof.
  destruct x as [s|[]| |[] m e]; try reflexivity; simpl JS.toString.
  - change (allChars plainChar (String "-" (JS.toStringPos m e)) = true).
    simpl. apply toStringPos_plain.
  - apply toStringPos_plain.
Qed.

Lemma formatStoryPoints_plain sp : allChars plainChar (formatStoryPoints sp) = true.
Proof. unfold formatStoryPoints. destruct (JS.isInteger sp); apply toString_plain. Qed.

Lemma formatPriority_plain x pr :
  formatPriority x = Ok pr -> allChars plainChar pr = true /\ pr <> ""%string.
Proof.
  intros H. apply formatPriority_ok in H. destruct H as [_ [_ ->]]. split.
  - unfold JS.padStart. rewrite allChars_app, toString_plain, andb_true_r.
    now apply allChars_repeatChar.
  - intros E. pose proof (length_padStart 2 "0" (JS.toString (JS.trunc x))) as L.
    rewrite E in L. simpl in L. lia.
Qed.

Lemma toLowerCase_app a b :
  JS.toLowerCase (a ++ b) = (JS.toLowerCase a ++ JS.toLowerCase b)%string.
Proof. induction a; simpl; congruence. Qed.

Lemma substring_all t : substring 0 (String.length t) t = t.
Proof. induction t; simpl; congruence. Qed.

Lemma substring_skip a t m :
  substring (String.length a) m (a ++ t) = substring 0 m t.
Proof.
  induction a as [|c a IH]; simpl; [reflexivity|].
  exact IH.
Qed.

Lemma endsWith_app a t : JS.endsWith (a ++ t) t = true.
Proof.
  unfold JS.endsWith. rewrite length_append.
  replace (String.length a + String.length t - String.length t)%nat
    with (String.length a) by lia.
  rewrite substring_skip, substring_all, String.eqb_refl, andb_true_r.
  apply Nat.leb_le. lia.
Qed.

Lemma endsWith_md s : JS.endsWith (JS.toLowerCase (s ++ ".md")) ".md" = true.
Proof. rewrite toLowerCase_app. apply endsWith_app. Qed.

(** A tidy name that ends in [.md] is the name the handlers settle on,
    sanitised or not. *)
Lemma ensureMd_tidy s :
  tidy (s ++ ".md") = true ->
  ensureMdExtension (s ++ ".md") = (s ++ ".md")%string
  /\ ensureMdExtension (sanitizeFileNamePart (s ++ ".md")) = (s ++ ".md")%string.
Proof.
  intros T. rewrite (sanitize_tidy _ T).
  assert (E : ensureMdExtension (s ++ ".md") = (s ++ ".md")%string).
  { unfold ensureMdExtension. rewrite (trim_tidy _ T), endsWith_md. reflexivity. }
  now rewrite E.
Qed.

(** The names [buildFileName] derives are tidy and end in [.md]. *)
Lemma buildFileName_tidy type title p sp name :
  buildFileName type title p sp = Ok name ->
  exists stem, name = (stem ++ ".md")%string /\ tidy name = true.
Proof.
  unfold buildFileName.
  destruct (sanitize_is_tidy title) as [E|T]; [rewrite E; discriminate|].
  destruct (JS.truthy (sanitizeFileNamePart title)); [|discriminate].
  simpl negb. cbv iota.
  assert (W : forall x, tidy ("(" ++ formatStoryPoints x ++ ").md") = true).
  { intros x. apply word_tidy; [|discriminate].
    change ("(" ++ ?y)%string with (String "(" y). simpl.
    rewrite allChars_app, formatStoryPoints_plain. reflexivity. }
  assert (A : forall x,
             tidy (sanitizeFileNamePart title ++ " (" ++ formatStoryPoints x ++ ").md")
             = true).
  { intros x. apply (tidyFrom_app_space _ _ true T (W x)). }
  assert (S : forall a x, (a ++ " (" ++ formatStoryPoints x ++ ").md")%string
                          = ((a ++ " (" ++ formatStoryPoints x ++ ")") ++ ".md")%string).
  { intros a x. rewrite !append_assoc. reflexivity. }
  destruct type.
  1:{ destruct p as [p|]; [|discriminate]. destruct sp as [sp|]; [|discriminate].
      destruct (formatPriority p) as [pr|] eqn:P; [|discriminate].
      intros H. inversion H. subst name. clear H.
      destruct (formatPriority_plain _ _ P) as [Pl Ne].
      split with (pr ++ " " ++ sanitizeFileNamePart title ++ " ("
                    ++ formatStoryPoints sp ++ ")")%string.
      split; [rewrite !append_assoc; reflexivity|].
      apply (tidyFrom_app_space _ _ true (word_tidy _ Pl Ne) (A sp)). }
  all: destruct sp as [sp|]; intros H; inversion H; subst name; clear H.
  all: try (eexists; split; [apply S|apply A]).
  all: eexists; split; [reflexivity|];
    apply (tidyFrom_app_word _ _ true T); reflexivity.
Qed.

(** Sanitising and the extension step leave a derived name as it is. *)
Lemma buildFileName_fixed type title p sp name :
  buildFileName type title p sp = Ok name ->
  ensureMdExtension name = name
  /\ ensureMdExtension (sanitizeFileNamePart name) = name.
Proof.
  intros H. destruct (buildFileName_tidy _ _ _ _ _ H) as [stem [-> T]].
  now apply ensureMd_tidy.
Qed.

Lemma sanitize_empty : sanitizeFileNamePart "" = ""%string.
Proof. reflexivity. Qed.

Lemma buildFileName_title type title p sp name :
  buildFileName type title p sp = Ok name -> JS.truthy title = true.
Proof.
  unfold buildFileName. destruct title; [discriminate|reflexivity].
Qed.

(** Without an explicit file name, [move] settles on the name [create]
    settled on for the same title, priority and story points. *)
Lemma derived_name_move (c : CreateArgs) (m : MoveArgs) f :
  c_type c = task -> c_fileName c = None -> m_fileName m = None ->
  m_title m = Some (c_title c) ->
  m_priority m = c_priority c -> m_storyPoints m = c_storyPoints c ->
  createFileName c = Ok f -> moveFileName m = Ok f.
Proof.
  unfold createFileName, moveFileName. intros -> -> -> -> -> ->.
  cbn [orDefault truthyOpt negb].
  destruct (buildFileName task (c_title c) (c_priority c) (c_storyPoints c))
    as [name|] eqn:B; [|discriminate].
  rewrite (buildFileName_title _ _ _ _ _ B). cbn [negb].
  destruct (buildFileName_fixed _ _ _ _ _ B) as [E1 E2].
  now rewrite E1, E2.
Qed.

Lemma getFileName_derived type title p sp state name :
  buildFileName type title p sp = Ok name ->
  getFileName {| g_type := type; g_title := Some title; g_state := state;
                 g_priority := p; g_storyPoints := sp; g_fileName := None |}
  = Ok name.
Proof.
  intros B. unfold getFileName.
  cbn [g_type g_title g_priority g_storyPoints g_fileName orDefault truthyOpt negb].
  rewrite (buildFileName_title _ _ _ _ _ B). cbn [negb].
  destruct (buildFileName_fixed _ _ _ _ _ B) as [E _].
  destruct (buildFileName_tidy _ _ _ _ _ B) as [stem [_ T]].
  assert (N : JS.truthy name = true) by (destruct name; [discriminate|reflexivity]).
  destruct type.
  1:{ destruct p as [p|], sp as [sp|];
        try (unfold buildFileName in B;
             destruct (negb (JS.truthy (sanitizeFileNamePart title)));
             discriminate).
      rewrite B. cbn [truthyOpt]. rewrite N. cbn [negb truthyOpt orDefault].
      now rewrite N, E. }
  all: rewrite B; cbn [truthyOpt orDefault]; now rewrite N, E.
Qed.

(** Without an explicit file name, [get] settles on the name [create]
    settled on for the same type, title, priority and story points. *)
Lemma derived_name_get (c : CreateArgs) (g : GetArgs) f :
  c_fileName c = None -> g_fileName g = None ->
  g_type g = c_type c -> g_title g = Some (c_title c) ->
  g_priority g = c_priority c -> g_storyPoints g = c_storyPoints c ->
  createFileName c = Ok f -> getFileName g = Ok f.
Proof.
  destruct g as [ty ti st pr sp fn]. cbn. intros Fc -> -> -> -> ->.
  unfold createFileName. rewrite Fc.
  destruct (buildFileName (c_type c) (c_title c) (c_priority c) (c_storyPoints c))
    as [name|] eqn:B; [|discriminate].
  destruct (buildFileName_fixed _ _ _ _ _ B) as [_ E]. rewrite E.
  intros H. inversion H. subst f. now apply getFileName_derived.
Qed.

(** X17. After a [create] that derived the file name, the [get] with the
    same type, title, priority, story points and state (the same
    [state] argument, left out where [create] had none, or the state
    the document was created in) finds the file at the path [create]
    returned, and changes nothing. *)
Lemma get_after_create cwd hint now now2 (c : CreateArgs) (g : GetArgs) fs fs2 p :
  wellFormed fs ->
  c_fileName c = None -> g_fileName g = None ->
  g_type g = c_type c -> g_title g = Some (c_title c) ->
  g_priority g = c_priority c -> g_storyPoints g = c_storyPoints c ->
  g_state g = c_state c \/ g_state g = Some (orDefault pending (c_state c)) ->
  callTool cwd hint now (Create c) fs = (Ok (Created p), fs2) ->
  callTool cwd hint now2 (Get g) fs2 = (Ok (Resolved p true), fs2).
Proof.
  intros W Fc Fg Ty Ti Pr Sp St H.
  rewrite callTool_prologue in H. unfold Fs.bind at 1 in H.
  destruct (prologue cwd hint fs) as [[ap|e] fs1] eqn:P; [|discriminate].
  simpl handler in H.
  destruct (prologue_ok _ _ _ _ _ P) as [r [_ [_ [_ [_ Prov]]]]].
  destruct (create_ok _ _ _ _ _ _ _ Prov H) as [f [data [F [-> [Fit [Free ->]]]]]].
  set (dir := directoryOf ap (c_type c) (orDefault pending (c_state c))) in *.
  destruct (createFileName_plain _ _ F) as [_ [L Ng]].
  destruct (provisioned_directory _ _ _ (c_type c)
              (orDefault pending (c_state c)) Prov) as [Fd Dd].
  fold dir in Fd, Dd.
  rewrite locate_name in * by assumption.
  assert (P2 : forall fs', fs' = Fs.set fs1 (Path.locate cwd dir ++ [f])
                                   (Some (Fs.File data)) ->
                           prologue cwd hint fs' = (Ok ap, fs')).
  { intros fs' ->. now apply (prologue_after_write _ _ fs). }
  rewrite (callTool_after_prologue _ _ _ _ _ _ _ (P2 _ eq_refl)).
  simpl handler. rewrite get_eq, (derived_name_get c g f) by assumption.
  cbv zeta.
  assert (Ps : exists rest, possiblePaths ap g f = (dir ++ [f]) :: rest).
  { unfold possiblePaths, dir. rewrite Ty.
    assert (St' : g_state g = None /\ c_state c = None
                  \/ g_state g = Some (orDefault pending (c_state c))).
    { destruct St as [St|St]; [|now right].
      destruct (c_state c); [right|left]; auto. }
    destruct St' as [[Sg Sc]|Sg]; rewrite Sg, ?Sc;
      rewrite !(createFileName_join _ _ _ F);
      destruct (c_type c); eexists; reflexivity. }
  destruct Ps as [rest ->]. cbn [find hd].
  rewrite present_snoc by assumption.
  now rewrite Fd, Fit, set_same.
Qed.

(** * Further properties of the module *)

(** ** [sanitizeFileNamePart] *)

Lemma double_space_untidy a b : forall x,
  tidyFrom x (a ++ "  " ++ b) = false.
Proof.
  induction a as [|c a IH]; intros x.
  - change (negb x && (negb true && tidyFrom true b) = false).
    now rewrite andb_false_r.
  - change (tidyFrom x (String c (a ++ "  " ++ b)) = false). simpl.
    destruct (c =? " ")%char; rewrite IH; now rewrite andb_false_r.
Qed.

(** X1. What [sanitizeFileNamePart] returns holds no slash, no
    backslash and no reserved character, no white space but single
    spaces, and neither begins nor ends with one. *)
Theorem X1_sanitize_shape (value : string) :
  let r := sanitizeFileNamePart value in
  allChars (fun c => negb (isSeparator c) && negb (isReserved c)
                     && (negb (JS.isWhiteSpace c) || (c =? " ")%char)) r = true
  /\ JS.trim r = r
  /\ (forall a b, r <> (a ++ "  " ++ b)%string).
Proof.
  intros r. destruct (sanitize_is_tidy value) as [E|T]; fold r in E || fold r in T.
  - rewrite E. split; [reflexivity|]. split; [reflexivity|].
    intros [|c a] b; discriminate.
  - split; [|split].
    + apply (tidyFrom_chars _ eq_refl) with (a := true); [|exact T].
      intros c H. destruct (plainChar_parts c H) as [-> [-> ->]]. reflexivity.
    + now apply trim_tidy.
    + intros a b E. unfold tidy in T. rewrite E, double_space_untidy in T.
      discriminate.
Qed.

(** X2. Sanitising twice is sanitising once, and the strings it leaves
    as they are are the empty string and the tidy ones: words of plain
    characters with one space between them. *)
Theorem X2_sanitize_fixed (s : string) :
  sanitizeFileNamePart (sanitizeFileNamePart s) = sanitizeFileNamePart s
  /\ (sanitizeFileNamePart s = s <-> s = ""%string \/ tidy s = true).
Proof.
  split; [apply sanitize_idempotent|]. split.
  - intros E. rewrite <- E. apply sanitize_is_tidy.
  - intros [->|T]; [reflexivity|now apply sanitize_tidy].
Qed.

Lemma separator_not_blank c : isSeparator c = true -> blankChar c = false.
Proof.
  destruct c as [[] [] [] [] [] [] [] []]; try discriminate; reflexivity.
Qed.

Lemma blank_after_classes v :
  allChars JS.isWhiteSpace
    (JS.replaceClass isReserved "" (JS.replaceClass isSeparator "-" v))
  = allChars blankChar v.
Proof.
  induction v as [|c v IH]; [reflexivity|].
  cbn [JS.replaceClass allChars].
  destruct (isSeparator c) eqn:S.
  - rewrite (separator_not_blank c S). reflexivity.
  - cbn [JS.replaceClass]. unfold blankChar at 1.
    destruct (isReserved c) eqn:R.
    + exact IH.
    + cbn [allChars orb]. now rewrite IH.
Qed.

Lemma blank_after_runs t : forall inRun,
  allChars JS.isWhiteSpace (JS.replaceRunsFrom JS.isWhiteSpace " " inRun t)
  = allChars JS.isWhiteSpace t.
Proof.
  induction t as [|c t IH]; intros inRun; [reflexivity|].
  cbn [JS.replaceRunsFrom allChars].
  destruct (JS.isWhiteSpace c) eqn:W.
  - destruct inRun; [apply IH|]. exact (IH true).
  - cbn [allChars]. now rewrite W.
Qed.

Lemma blank_after_trimStart t :
  allChars JS.isWhiteSpace (JS.trimStart t) = allChars JS.isWhiteSpace t.
Proof.
  induction t as [|c t IH]; [reflexivity|]. cbn [JS.trimStart allChars].
  destruct (JS.isWhiteSpace c) eqn:W; [exact IH|].
  cbn [allChars]. now rewrite W.
Qed.

Lemma trimEnd_empty t :
  JS.trimEnd t = ""%string <-> allChars JS.isWhiteSpace t = true.
Proof.
  induction t as [|c t IH]; [split; reflexivity|].
  cbn [JS.trimEnd allChars]. rewrite andb_true_iff, <- IH.
  destruct (JS.trimEnd t); destruct (JS.isWhiteSpace c); split;
    try discriminate; try tauto.
  all: intros [? ?]; discriminate.
Qed.

(** X3. [sanitizeFileNamePart] returns the empty string exactly for the
    strings made of reserved characters and white space only; a slash or
    a backslash counts as content, for it becomes a hyphen. *)
Theorem X3_sanitize_empty (value : string) :
  sanitizeFileNamePart value = ""%string <-> allChars blankChar value = true.
Proof.
  unfold sanitizeFileNamePart, JS.trim, JS.replaceRuns.
  now rewrite trimEnd_empty, blank_after_trimStart, blank_after_runs,
    blank_after_classes.
Qed.

(** ** [ensureMdExtension] *)

(** The string is empty or begins with a character that is no white
    space: [trimStart] leaves it as it is. *)
Lemma trimStart_keeps t :
  match t with String c _ => JS.isWhiteSpace c = false | EmptyString => True end ->
  JS.trimStart t = t.
Proof. destruct t as [|c t]; [reflexivity|]. simpl. now intros ->. Qed.

Lemma trimStart_head t :
  match JS.trimStart t with
  | String c _ => JS.isWhiteSpace c = false
  | EmptyString => True
  end.
Proof.
  induction t as [|c t IH]; [exact I|]. simpl.
  destruct (JS.isWhiteSpace c) eqn:W; [exact IH|exact W].
Qed.

Lemma trimEnd_head t :
  match t with String c _ => JS.isWhiteSpace c = false | EmptyString => True end ->
  match JS.trimEnd t with
  | String c _ => JS.isWhiteSpace c = false
  | EmptyString => True
  end.
Proof.
  destruct t as [|c t]; [trivial|]. cbn [JS.trimEnd]. intros W.
  destruct (JS.trimEnd t); [rewrite W|]; exact W.
Qed.

Lemma trimEnd_trimEnd t : JS.trimEnd (JS.trimEnd t) = JS.trimEnd t.
Proof.
  induction t as [|c t IH]; [reflexivity|]. cbn [JS.trimEnd].
  destruct (JS.trimEnd t) as [|d r] eqn:E.
  - destruct (JS.isWhiteSpace c) eqn:W; [reflexivity|].
    cbn [JS.trimEnd]. now rewrite W.
  - cbn [JS.trimEnd] in *. now rewrite IH.
Qed.

Lemma trim_head t :
  match JS.trim t with
  | String c _ => JS.isWhiteSpace c = false
  | EmptyString => True
  end.
Proof. apply trimEnd_head, trimStart_head. Qed.

Lemma trim_trim t : JS.trim (JS.trim t) = JS.trim t.
Proof.
  unfold JS.trim at 1.
  rewrite (trimStart_keeps (JS.trim t)) by apply trim_head.
  apply trimEnd_trimEnd.
Qed.

Lemma trimEnd_app a b :
  JS.trimEnd b = b -> b <> ""%string -> JS.trimEnd (a ++ b) = (a ++ b)%string.
Proof.
  intros E N. induction a as [|c a IH]; [exact E|].
  change (JS.trimEnd (String c (a ++ b)) = String c (a ++ b)).
  cbn [JS.trimEnd]. rewrite IH.
  destruct (a ++ b)%string eqn:K; [|reflexivity].
  destruct a; [contradiction|discriminate].
Qed.

Lemma trim_md t : JS.trim (JS.trim t ++ ".md") = (JS.trim t ++ ".md")%string.
Proof.
  unfold JS.trim at 1. rewrite trimStart_keeps.
  - apply trimEnd_app; [reflexivity|discriminate].
  - pose proof (trim_head t) as H. destruct (JS.trim t); [reflexivity|exact H].
Qed.

Lemma ensureMd_trimmed (fileName : string) :
  JS.trim (ensureMdExtension fileName) = ensureMdExtension fileName
  /\ JS.endsWith (JS.toLowerCase (ensureMdExtension fileName)) ".md" = true.
Proof.
  destruct (ensureMd_cases fileName) as [[E ->]|[_ ->]].
  - split; [apply trim_trim|exact E].
  - split; [apply trim_md|apply endsWith_md].
Qed.

Lemma ensureMd_again (fileName : string) :
  ensureMdExtension (ensureMdExtension fileName) = ensureMdExtension fileName.
Proof.
  destruct (ensureMd_trimmed fileName) as [T E].
  unfold ensureMdExtension at 1. now rewrite T, E.
Qed.

(** X4. The name [ensureMdExtension] returns is trimmed and ends in
    [.md], in any case of the letters; applying it again changes
    nothing. *)
Theorem X4_ensureMd_idempotent (fileName : string) :
  let r := ensureMdExtension fileName in
  JS.trim r = r
  /\ JS.endsWith (JS.toLowerCase r) ".md" = true
  /\ ensureMdExtension r = r.
Proof.
  intros r. destruct (ensureMd_trimmed fileName) as [T E].
  split; [exact T|]. split; [exact E|]. apply ensureMd_again.
Qed.

(** ** [buildFileName] *)

(** Case analysis over a table of outcomes. *)
Ltac table :=
  repeat match goal with
         | |- _ /\ _ => split
         | |- _ <-> _ => split
         | |- forall _, _ => intro
         | H : _ /\ _ |- _ => destruct H
         | H : exists _, _ |- _ => destruct H
         | H : _ \/ _ |- _ => destruct H
         | H : Some _ = Some _ |- _ => inversion H; clear H; subst
         | H : Throw _ = Throw _ |- _ => inversion H; clear H; subst
         | H : Ok _ = Ok _ |- _ => inversion H; clear H; subst
         | H : ?x <> ?x |- _ => contradiction H; reflexivity
         | H : ?t = ?t -> _ |- _ => specialize (H eq_refl)
         end;
  try discriminate; try congruence; eauto 8.

(** X5. The outcome of [buildFileName], error by error, in the order of
    its checks: a title that sanitises to nothing is refused first; a
    task then needs a priority, then story points, and only then is the
    priority checked.  The story points are never checked, and for the
    other types a name is built whatever the priority and the story
    points are. *)
Theorem X5_buildFileName_outcome (type : DocumentType) (title : string)
        (p sp : option JS.number) :
  let r := buildFileName type title p sp in
  let named := sanitizeFileNamePart title <> ""%string in
  (r = Throw InvalidTitle <-> sanitizeFileNamePart title = ""%string)
  /\ (r = Throw PriorityRequired <-> named /\ type = task /\ p = None)
  /\ (r = Throw StoryPointsRequired <->
      named /\ type = task /\ p <> None /\ sp = None)
  /\ (r = Throw InvalidPriority <->
      named /\ type = task /\ sp <> None
      /\ exists x, p = Some x /\ (JS.isFinite x = false \/ JS.ltZero x = true))
  /\ (forall e, r = Throw e ->
      e = InvalidTitle \/ e = PriorityRequired \/ e = StoryPointsRequired
      \/ e = InvalidPriority)
  /\ ((exists name, r = Ok name) <->
      named /\ (type = task ->
                sp <> None
                /\ exists x, p = Some x /\ JS.isFinite x = true
                             /\ JS.ltZero x = false)).
Proof.
  intros r named. unfold r, named, buildFileName, formatPriority, JS.truthy.
  destruct (String.eqb_spec (sanitizeFileNamePart title) "") as [E|N];
    cbn [negb].
  - rewrite E. table.
  - assert (Q : forall x, JS.isFinite x = false \/ JS.ltZero x = true
                          \/ (JS.isFinite x = true /\ JS.ltZero x = false)).
    { intros x. destruct (JS.isFinite x), (JS.ltZero x); auto. }
    destruct type; destruct p as [x|]; destruct sp as [y|];
      try (destruct (Q x) as [F|[L|[F L]]];
           [rewrite F|rewrite L; rewrite orb_true_r|rewrite F, L]);
      cbn [negb orb]; table.
Qed.

(** X6. A name that [buildFileName] has built is left as it is by
    [sanitizeFileNamePart] and by [ensureMdExtension], and holds no
    slash: the steps [create] applies to a file name change no derived
    name. *)
Theorem X6_derived_name_normalised (type : DocumentType) (title : string)
        (p sp : option JS.number) (name : string) :
  buildFileName type title p sp = Ok name ->
  sanitizeFileNamePart name = name
  /\ ensureMdExtension name = name
  /\ ensureMdExtension (sanitizeFileNamePart name) = name
  /\ allChars notSlash name = true.
Proof.
  intros B. destruct (buildFileName_fixed _ _ _ _ _ B) as [E1 E2].
  destruct (buildFileName_tidy _ _ _ _ _ B) as [stem [_ T]].
  split; [now apply sanitize_tidy|]. split; [exact E1|]. split; [exact E2|].
  rewrite <- (sanitize_tidy _ T). apply sanitize_noSlash.
Qed.

(** X6, at the name of the task [Fix bug] with priority 3 and 5 story
    points. *)
Lemma X6_witness :
  buildFileName task "Fix bug" (Some three) (Some five)
  = Ok "03 Fix bug (5).md"%string
  /\ ensureMdExtension (sanitizeFileNamePart "03 Fix bug (5).md")
     = "03 Fix bug (5).md"%string.
Proof.
  assert (B : buildFileName task "Fix bug" (Some three) (Some five)
              = Ok "03 Fix bug (5).md"%string) by (vm_compute; reflexivity).
  split; [exact B|].
  exact (proj1 (proj2 (proj2 (X6_derived_name_normalised _ _ _ _ _ B)))).
Defined.

(** X7. With no explicit file name, [move] and [get] settle on the
    file name [create] settled on for the same type, title, priority and
    story points. *)
Theorem X7_derived_names_agree (c : CreateArgs) (m : MoveArgs) (g : GetArgs)
        (f : string) :
  c_fileName c = None -> createFileName c = Ok f ->
  (c_type c = task -> m_fileName m = None -> m_title m = Some (c_title c) ->
   m_priority m = c_priority c -> m_storyPoints m = c_storyPoints c ->
   moveFileName m = Ok f)
  /\ (g_fileName g = None -> g_type g = c_type c ->
      g_title g = Some (c_title c) ->
      g_priority g = c_priority c -> g_storyPoints g = c_storyPoints c ->
      getFileName g = Ok f).
Proof.
  intros Fc F. split; intros.
  - now apply (derived_name_move c m f).
  - now apply (derived_name_get c g f).
Qed.

(** X7, at the task [fixBug] and the requests to move and to find it by
    its fields. *)
Lemma X7_witness :
  createFileName fixBug = Ok "03 Fix bug (5).md"%string
  /\ moveFileName (moveFixBug pending doing) = Ok "03 Fix bug (5).md"%string
  /\ getFileName getFixBugByFields = Ok "03 Fix bug (5).md"%string.
Proof.
  assert (F : createFileName fixBug = Ok "03 Fix bug (5).md"%string)
    by (vm_compute; reflexivity).
  split; [exact F|].
  pose (H := X7_derived_names_agree fixBug (moveFixBug pending doing)
               getFixBugByFields _ eq_refl F).
  split.
  - exact (proj1 H eq_refl eq_refl eq_refl eq_refl eq_refl).
  - exact (proj2 H eq_refl eq_refl eq_refl eq_refl eq_refl).
Defined.

(** ** The file name [get] settles on *)

Lemma buildFileName_errors type title p sp e :
  buildFileName type title p sp = Throw e ->
  e = InvalidTitle
  \/ (type = task /\ (p = None \/ sp = None)
      /\ (e = PriorityRequired \/ e = StoryPointsRequired))
  \/ (type = task /\ e = InvalidPriority).
Proof.
  unfold buildFileName, formatPriority.
  destruct (negb (JS.truthy (sanitizeFileNamePart title)));
    [intros H; inversion H; auto|].
  destruct type; destruct p as [x|]; destruct sp as [y|];
    try destruct (negb (JS.isFinite x) || JS.ltZero x);
    intros H; inversion H; auto 8.
Qed.

Lemma ensureMd_truthy s : JS.truthy (ensureMdExtension s) = true.
Proof.
  pose proof (ensureMd_length s) as L.
  destruct (ensureMdExtension s); [simpl in L; lia|reflexivity].
Qed.

Lemma buildFileName_truthy name ty t p sp :
  buildFileName ty t p sp = Ok name -> JS.truthy name = true.
Proof.
  intros H. destruct (buildFileName_tidy _ _ _ _ _ H) as [stem [_ T]].
  destruct name; [discriminate|reflexivity].
Qed.

Lemma getFileName_errors (a : GetArgs) (e : error) :
  getFileName a = Throw e ->
  e = TitleOrFileNameRequired \/ e = InvalidTitle \/ e = InvalidPriority.
Proof.
  destruct a as [ty ti st pr sp fn]. unfold getFileName.
  cbn [g_type g_title g_state g_priority g_storyPoints g_fileName].
  destruct (truthyOpt fn) eqn:Fn; cbn [negb].
  - destruct ty; cbn [negb]; rewrite ?Fn; cbn [negb]; rewrite ?Fn; discriminate.
  - destruct (JS.truthy (orDefault "" ti)); cbn [negb];
      [|intros H; inversion H; auto].
    destruct ty.
    1:{ destruct pr as [x|], sp as [y|];
          try (rewrite Fn; cbn [negb truthyOpt]; rewrite ensureMd_truthy;
               discriminate).
        destruct (buildFileName task _ _ _) as [name|e'] eqn:E.
        - cbn [truthyOpt]. rewrite (buildFileName_truthy _ _ _ _ _ E).
          cbn [negb truthyOpt]. rewrite (buildFileName_truthy _ _ _ _ _ E).
          discriminate.
        - intros H. inversion H. subst e'.
          destruct (buildFileName_errors _ _ _ _ _ E)
            as [->|[[_ [[K|K] _]]|[_ ->]]]; auto; discriminate. }
    all: destruct (buildFileName _ _ _ _) as [name|e'] eqn:E;
      [cbn [truthyOpt]; rewrite (buildFileName_truthy _ _ _ _ _ E);
       discriminate|];
      intros H; inversion H; subst e';
      destruct (buildFileName_errors _ _ _ _ _ E)
        as [->|[[K _]|[K _]]]; auto; discriminate.
Qed.

(** X8. [get] never answers that it could not resolve the file name:
    it fails on the name only for a missing title (with no file name), a
    title that sanitises to nothing or an invalid priority.  For a task
    with a title but without both a priority and story points it falls
    back on the sanitised title with the extension. *)
Theorem X8_get_name_resolution (a : GetArgs) :
  (forall e, getFileName a = Throw e ->
             e = TitleOrFileNameRequired \/ e = InvalidTitle
             \/ e = InvalidPriority)
  /\ (g_type a = task -> truthyOpt (g_fileName a) = false ->
      JS.truthy (orDefault "" (g_title a)) = true ->
      g_priority a = None \/ g_storyPoints a = None ->
      getFileName a
      = Ok (ensureMdExtension (sanitizeFileNamePart (orDefault "" (g_title a))))).
Proof.
  split; [apply getFileName_errors|].
  destruct a as [ty ti st pr sp fn]. unfold getFileName.
  cbn [g_type g_title g_state g_priority g_storyPoints g_fileName].
  intros -> Fn Ti K. rewrite Fn, Ti. cbn [negb].
  assert (E : match pr, sp with
              | Some _, Some _ =>
                  match buildFileName task (orDefault "" ti) pr sp with
                  | Ok name => Ok (Some name)
                  | Throw e => Throw e
                  end
              | _, _ => Ok fn
              end = Ok fn).
  { destruct K as [->| ->]; [reflexivity|]. now destruct pr. }
  rewrite E, Fn. cbn [negb truthyOpt orDefault].
  now rewrite ensureMd_truthy, ensureMd_again.
Qed.

(** ** What a call leaves untouched *)

Lemma writeFileSync_throws cwd p data fs e fs' :
  Fs.writeFileSync cwd p data fs = (Throw e, fs') -> fs' = fs.
Proof.
  unfold Fs.writeFileSync.
  destruct (Fs.fits p); cbn [negb];
    [|intros H; inversion H; reflexivity].
  destruct (Fs.stat fs (Path.locate cwd p)) as [[c|]|];
    destruct (Fs.stat fs (removelast (Path.locate cwd p))) as [[d|]|];
    intros H; inversion H; reflexivity.
Qed.

Lemma renameSync_throws cwd src dst fs e fs' :
  Fs.renameSync cwd src dst fs = (Throw e, fs') -> fs' = fs.
Proof.
  unfold Fs.renameSync.
  destruct (Fs.fits src); cbn [negb]; [|intros H; inversion H; reflexivity].
  destruct (Fs.fits dst); cbn [negb]; [|intros H; inversion H; reflexivity].
  destruct (Path.eqb (Path.locate cwd src) []);
    [intros H; inversion H; reflexivity|].
  destruct (Fs.stat fs (Path.locate cwd src)) as [[c|]|];
    destruct (Fs.stat fs (removelast (Path.locate cwd dst))) as [[d|]|];
    destruct (Fs.stat fs (Path.locate cwd dst)) as [[d'|]|];
    try destruct (Path.under (Path.locate cwd src) (Path.locate cwd dst));
    intros H; inversion H; reflexivity.
Qed.

(** X10. A call that does not return from [create] or from [move]
    touches no file: whatever the tool, the arguments and the outcome,
    a [get], an unknown tool and every call that fails leave each path
    as it was, or make a directory where nothing was. *)
Theorem X10_only_directories_added (cwd : Path.path) (hint : option string)
        (now : string) (req : request) (fs fs' : Fs.t) (r : result reply) :
  callTool cwd hint now req fs = (r, fs') ->
  (forall p, r <> Ok (Created p)) ->
  (forall src dst, r <> Ok (Moved src dst)) ->
  grows fs fs'.
Proof.
  intros H NC NM. rewrite callTool_prologue in H. unfold Fs.bind at 1 in H.
  destruct (prologue cwd hint fs) as [[ap|e] fs1] eqn:P;
    pose proof (prologue_grows _ _ _ _ _ P) as G;
    [|inversion H; subst; exact G].
  apply (grows_trans _ fs1); [exact G|]. clear G P.
  destruct req as [a|a|a|name]; simpl handler in H.
  - rewrite create_eq in H.
    destruct (createFileName a) as [f|e];
      [|inversion H; apply grows_refl].
    cbv zeta in H.
    destruct (Fs.mkdirSync cwd _ fs1) as [[[]|e] fs2] eqn:M;
      pose proof (mkdirSync_grows _ _ _ _ _ M) as G;
      [|inversion H; subst; exact G].
    destruct (present cwd fs2 _); [inversion H; subst; exact G|].
    destruct (buildFrontmatter _ _ _ _ _ _) as [fm|e];
      [|inversion H; subst; exact G].
    destruct (Fs.writeFileSync cwd _ _ fs2) as [[[]|e] fs3] eqn:Wr;
      inversion H; subst.
    + exfalso. eapply NC. reflexivity.
    + now rewrite (writeFileSync_throws _ _ _ _ _ _ Wr).
  - rewrite move_eq in H.
    destruct (TaskState_eqb _ _); [inversion H; apply grows_refl|].
    destruct (moveFileName a) as [f|e]; [|inversion H; apply grows_refl].
    cbv zeta in H.
    destruct (present cwd fs1 _); [|inversion H; apply grows_refl].
    destruct (Fs.mkdirSync cwd _ fs1) as [[[]|e] fs2] eqn:M;
      pose proof (mkdirSync_grows _ _ _ _ _ M) as G;
      [|inversion H; subst; exact G].
    destruct (present cwd fs2 _); [inversion H; subst; exact G|].
    destruct (Fs.renameSync cwd _ _ fs2) as [[[]|e] fs3] eqn:Rn;
      inversion H; subst.
    + exfalso. eapply NM. reflexivity.
    + now rewrite (renameSync_throws _ _ _ _ _ _ Rn).
  - rewrite get_eq in H.
    destruct (getFileName a) as [f|e]; [|inversion H; apply grows_refl].
    cbv zeta in H.
    destruct (find _ _); inversion H; apply grows_refl.
  - inversion H. apply grows_refl.
Qed.

(** X10, at a call of a tool the server does not have. *)
Lemma X10_witness :
  callTool demoCwd None demoNow (Other "list") demoFs
  = (Throw (UnknownOperation "list"), demoFs1)
  /\ grows demoFs demoFs1.
Proof.
  assert (H : callTool demoCwd None demoNow (Other "list") demoFs
              = (Throw (UnknownOperation "list"), demoFs1)).
  { rewrite (callTool_after_prologue _ _ _ _ _ _ _ demo_prologue). reflexivity. }
  split; [exact H|].
  apply (X10_only_directories_added _ _ _ _ _ _ _ H); discriminate.
Defined.

(** ** [create], once the directories are there *)

(** The text [create] writes under the front matter; a name longer
    than the file system takes is found out when the file is written. *)
Lemma create_after_prologue cwd now ap a fs1 :
  provisioned cwd ap fs1 ->
  create cwd now ap a fs1 =
  match createFileName a with
  | Throw e => (Throw e, fs1)
  | Ok f =>
      let state := orDefault pending (c_state a) in
      let p := directoryOf ap (c_type a) state ++ [f] in
      if Fs.nameFits f then
        match fs1 (Path.locate cwd p) with
        | Some _ => (Throw (AlreadyExists p), fs1)
        | None =>
            match buildFrontmatter now (c_type a) (c_title a) (Some state)
                    (c_priority a) (c_storyPoints a) with
            | Throw e => (Throw e, fs1)
            | Ok fm =>
                (Ok (Created p),
                 Fs.set fs1 (Path.locate cwd p)
                   (Some (Fs.File (fm ++ LF ++ "# " ++ c_title a ++ LF ++ LF
                                      ++ orDefault "" (c_content a) ++ LF)%string)))
            end
        end
      else
        match buildFrontmatter now (c_type a) (c_title a) (Some state)
                (c_priority a) (c_storyPoints a) with
        | Throw e => (Throw e, fs1)
        | Ok fm => (Throw (FsError ENAMETOOLONG p), fs1)
        end
  end.
Proof.
  intros Prov. rewrite create_eq.
  destruct (createFileName a) as [f|e] eqn:F; [|reflexivity].
  cbv zeta.
  destruct (provisioned_directory _ _ _ (c_type a)
              (orDefault pending (c_state a)) Prov) as [Fd Dd].
  destruct (createFileName_plain _ _ F) as [_ [L _]].
  rewrite dirsAlong_mkdir by assumption.
  rewrite (createFileName_join _ _ _ F), present_snoc, locate_name
    by assumption.
  rewrite Fd. cbn [andb].
  destruct (Fs.nameFits f) eqn:Nf; cbn [andb].
  - destruct (fs1 _) eqn:N; [reflexivity|].
    destruct (buildFrontmatter _ _ _ _ _ _) as [fm|e]; [|reflexivity].
    rewrite writeFileSync_new;
      [reflexivity|exact L|now rewrite fits_snoc, Fd, Nf|exact N
       |now apply dirsAlong_stat].
  - destruct (buildFrontmatter _ _ _ _ _ _) as [fm|e]; [|reflexivity].
    rewrite writeFileSync_long by (now rewrite fits_snoc, Fd, Nf).
    reflexivity.
Qed.

Lemma grows_none fs fs' q : grows fs fs' -> fs' q = None -> fs q = None.
Proof. intros G H. destruct (G q) as [E|[E _]]; congruence. Qed.

(** X11. A [create] that returned has written one file and nothing
    else: the path it answers lies in the directory of the type (and of
    the state, for a task) under a name without a slash; nothing was
    where that path leads; the file holds the front matter, the heading
    with the title and the content; and every other file is as it
    was. *)
Theorem X11_create_effect (cwd : Path.path) (hint : option string)
        (now : string) (a : CreateArgs) (fs fs' : Fs.t) (p : Path.path) :
  callTool cwd hint now (Create a) fs = (Ok (Created p), fs') ->
  let state := orDefault pending (c_state a) in
  (exists r f,
     findRepoRootPath cwd hint fs = (Ok (Some r), fs)
     /\ createFileName a = Ok f
     /\ allChars notSlash f = true
     /\ p = directoryOf (getAgelumPath r) (c_type a) state ++ [f])
  /\ fs (Path.locate cwd p) = None
  /\ (exists fm,
        buildFrontmatter now (c_type a) (c_title a) (Some state)
          (c_priority a) (c_storyPoints a) = Ok fm
        /\ fs' (Path.locate cwd p)
           = Some (Fs.File (fm ++ LF ++ "# " ++ c_title a ++ LF ++ LF
                               ++ orDefault "" (c_content a) ++ LF)%string))
  /\ (forall q, q <> Path.locate cwd p ->
                forall c, fs' q = Some (Fs.File c) <-> fs q = Some (Fs.File c)).
Proof.
  intros H state. rewrite callTool_prologue in H. unfold Fs.bind at 1 in H.
  destruct (prologue cwd hint fs) as [[ap|e] fs1] eqn:P; [|discriminate].
  destruct (prologue_ok _ _ _ _ _ P) as [r [Root [_ [Eap [G Prov]]]]].
  simpl handler in H. rewrite (create_after_prologue _ _ _ _ _ Prov) in H.
  destruct (createFileName a) as [f|e] eqn:F; [|discriminate].
  cbv zeta in H. fold state in H.
  destruct (Fs.nameFits f);
    [|destruct (buildFrontmatter _ _ _ _ _ _); discriminate].
  destruct (fs1 _) eqn:N; [discriminate|].
  destruct (buildFrontmatter _ _ _ _ _ _) as [fm|e] eqn:B; [|discriminate].
  injection H as Hp Hfs. subst p fs' ap.
  split; [|split; [|split]].
  - exists r, f. destruct (createFileName_plain _ _ F) as [S _]. auto.
  - exact (grows_none _ _ _ G N).
  - exists fm. split; [reflexivity|]. apply set_same.
  - intros q Nq c. rewrite set_other by exact Nq.
    apply (grows_sameFiles _ _ G).
Qed.

(** X11, at the [create] of the task [fixBug]. *)
Lemma X11_witness :
  callTool demoCwd None demoNow (Create fixBug) demoFs
  = (Ok (Created fixBugPath), demoFs2)
  /\ demoFs (Path.locate demoCwd fixBugPath) = None.
Proof.
  split; [exact demo_create|].
  exact (proj1 (proj2 (X11_create_effect _ _ _ _ _ _ _ demo_create))).
Defined.

Lemma createFileName_errors a e :
  createFileName a = Throw e ->
  c_fileName a = None
  /\ (e = InvalidTitle \/ e = PriorityRequired \/ e = StoryPointsRequired
      \/ e = InvalidPriority).
Proof.
  unfold createFileName. destruct (c_fileName a); [discriminate|].
  destruct (buildFileName _ _ _ _) as [name|e'] eqn:B; [discriminate|].
  intros H. inversion H. subst e'. split; [reflexivity|].
  destruct (buildFileName_errors _ _ _ _ _ B) as [K|[[_ [_ K]]|[_ K]]]; tauto.
Qed.

Lemma buildFrontmatter_outcome now type title state p sp :
  (exists fm, buildFrontmatter now type title (Some state) p sp = Ok fm)
  \/ (buildFrontmatter now type title (Some state) p sp = Throw InvalidPriority
      /\ type = task
      /\ exists x, p = Some x /\ (JS.isFinite x = false \/ JS.ltZero x = true)).
Proof.
  unfold buildFrontmatter, frontmatterLines, formatPriority.
  destruct type; eauto.
  destruct p as [x|]; eauto.
  destruct (JS.isFinite x) eqn:F, (JS.ltZero x) eqn:L; cbn [negb orb]; eauto 8.
Qed.





(** ** [move]: what it refuses *)

(** X14. Once the prologue has returned, the states differ and the
    file name is settled, [move] fails with [SourceNotFound] when
    nothing is at the source path, and with [TargetExists] when
    something is at the target path: it never writes over a file.  In
    both cases nothing is changed. *)
Theorem X14_move_refusals (cwd : Path.path) (hint : option string)
        (now : string) (a : MoveArgs) (fs fs1 : Fs.t) (ap : Path.path)
        (f : string) :
  prologue cwd hint fs = (Ok ap, fs1) ->
  m_fromState a <> m_toState a ->
  moveFileName a = Ok f ->
  let src := Path.join (directoryOf ap task (m_fromState a)) f in
  let dst := Path.join (directoryOf ap task (m_toState a)) f in
  (present cwd fs1 src = false ->
   callTool cwd hint now (Move a) fs = (Throw (SourceNotFound src), fs1))
  /\ (present cwd fs1 src = true -> present cwd fs1 dst = true ->
      callTool cwd hint now (Move a) fs = (Throw (TargetExists dst), fs1)).
Proof.
  intros P Ne F src dst.
  destruct (prologue_ok _ _ _ _ _ P) as [r [_ [_ [_ [_ Prov]]]]].
  rewrite (callTool_after_prologue _ _ _ _ _ _ _ P). simpl handler.
  rewrite move_eq.
  destruct (TaskState_eqb (m_fromState a) (m_toState a)) eqn:E;
    [apply TaskState_eqb_eq in E; contradiction|].
  rewrite F. cbv zeta. fold src dst. split.
  - intros ->. reflexivity.
  - intros -> T.
    destruct (provisioned_directory _ _ _ task (m_toState a) Prov) as [Fd Dd].
    rewrite dirsAlong_mkdir by assumption.
    now rewrite T.
Qed.

(** X14, at the move of a task that was never created. *)
Lemma X14_witness :
  prologue demoCwd None demoFs = (Ok demoAgelum, demoFs1)
  /\ callTool demoCwd None demoNow (Move (moveFixBug pending doing)) demoFs
     = (Throw (SourceNotFound fixBugPath), demoFs1).
Proof.
  split; [exact demo_prologue|].
  assert (Ne : pending <> doing) by discriminate.
  assert (F : moveFileName (moveFixBug pending doing)
              = Ok "03 Fix bug (5).md"%string) by (vm_compute; reflexivity).
  exact (proj1 (X14_move_refusals demoCwd None demoNow
                  (moveFixBug pending doing) demoFs demoFs1 demoAgelum _
                  demo_prologue Ne F) eq_refl).
Defined.

(** ** [move], there and back *)

Lemma dirsAlong_moved fs src dst c q :
  fs src = Some (Fs.File c) -> fs dst = None -> dirsAlong fs q ->
  dirsAlong (Fs.set (Fs.set fs src None) dst (Some (Fs.File c))) q.
Proof.
  intros S D H k Hk. specialize (H k Hk).
  rewrite !set_other; [exact H| |]; intros E; rewrite E in H; congruence.
Qed.

Lemma provisioned_moved cwd ap fs src dst c :
  fs src = Some (Fs.File c) -> fs dst = None -> provisioned cwd ap fs ->
  provisioned cwd ap (Fs.set (Fs.set fs src None) dst (Some (Fs.File c))).
Proof.
  intros S D [F [H1 H2]]. split; [exact F|].
  split; [|intros dir Hd]; apply dirsAlong_moved; auto.
Qed.

(** A file taken from one place to a free one, under a name other than
    [.git], leaves the prologue of the next call with the same answer
    and nothing to do. *)
Lemma prologue_after_move cwd hint fs fs1 ap d1 d2 f c :
  wellFormed fs -> prologue cwd hint fs = (Ok ap, fs1) ->
  f <> ".git"%string ->
  fs1 (d1 ++ [f]) = Some (Fs.File c) -> fs1 (d2 ++ [f]) = None ->
  let fs2 := Fs.set (Fs.set fs1 (d1 ++ [f]) None) (d2 ++ [f])
               (Some (Fs.File c)) in
  prologue cwd hint fs2 = (Ok ap, fs2).
Proof.
  intros W P Ng S D fs2.
  destruct (prologue_ok _ _ _ _ _ P) as [r [Root [En [Eap [G Prov]]]]].
  subst ap. unfold prologue. run.
  rewrite (findRepoRootPath_ext cwd hint fs _ r); [| | | |exact Root].
  - apply ensure_there. now apply provisioned_moved.
  - intros d. rewrite <- (prologue_hasGit _ _ _ _ _ W P d).
    rewrite !hasGit_eq. unfold fs2.
    rewrite !set_other; [reflexivity| |];
      intros E; apply app_inj_tail in E; destruct E as [_ E]; congruence.
  - intros q Hq. destruct q as [|x q]; [reflexivity|].
    simpl in *. apply (grows_keeps _ _ _ _ G) in Hq. unfold fs2.
    rewrite !set_other; [exact Hq| |]; intros E; rewrite E in Hq; congruence.
  - apply (prologue_root_dir _ _ _ _ _ _ Root En).
    now apply (prologue_root _ hint).
Qed.

Lemma TaskState_eqb_sym a b : TaskState_eqb a b = TaskState_eqb b a.
Proof. destruct a, b; reflexivity. Qed.

Lemma moveFileName_back a : moveFileName (moveBack a) = moveFileName a.
Proof. reflexivity. Qed.

(** X15. A task file moved from one state to another and back is where
    it was: after a [move] of a file under a name without a slash, the
    [move] with the two states exchanged returns, and it leaves every
    place, files and directories, as the prologue of the first call
    left it; no file has changed since before the first call. *)
Theorem X15_move_there_and_back (cwd : Path.path) (hint : option string)
        (now now2 : string) (a : MoveArgs) (fs fs' : Fs.t)
        (src dst : Path.path) (f content : string) :
  wellFormed fs ->
  moveFileName a = Ok f -> allChars notSlash f = true ->
  fs (Path.locate cwd src) = Some (Fs.File content) ->
  callTool cwd hint now (Move a) fs = (Ok (Moved src dst), fs') ->
  exists fs'',
    callTool cwd hint now2 (Move (moveBack a)) fs' = (Ok (Moved dst src), fs'')
    /\ (forall q, fs'' q = snd (prologue cwd hint fs) q)
    /\ sameFiles fs fs''.
Proof.
  intros W F S Src H.
  rewrite callTool_prologue in H. unfold Fs.bind at 1 in H.
  destruct (prologue cwd hint fs) as [[ap|e] fs1] eqn:P; [|discriminate].
  destruct (prologue_ok _ _ _ _ _ P) as [r [_ [_ [_ [G Prov]]]]].
  simpl handler in H. rewrite move_eq in H.
  destruct (TaskState_eqb (m_fromState a) (m_toState a)) eqn:E; [discriminate|].
  rewrite F in H. cbv zeta in H.
  destruct (moveFileName_ensure _ _ F) as [name Ef].
  assert (L : (3 <= String.length f)%nat)
    by (rewrite Ef; apply ensureMd_length).
  assert (Ng : f <> ".git"%string) by (rewrite Ef; apply ensureMd_not_git).
  rewrite !(join_name _ f S L) in H.
  set (d1 := directoryOf ap task (m_fromState a)) in *.
  set (d2 := directoryOf ap task (m_toState a)) in *.
  destruct (provisioned_directory _ _ _ task (m_fromState a) Prov) as [F1 D1].
  destruct (provisioned_directory _ _ _ task (m_toState a) Prov) as [F2 D2].
  fold d1 in F1, D1. fold d2 in F2, D2.
  rewrite present_snoc in H by assumption. rewrite F1 in H. cbn [andb] in H.
  destruct (Fs.nameFits f) eqn:Fit; [|discriminate]. cbn [andb] in H.
  destruct (fs1 (Path.locate cwd d1 ++ [f])) eqn:There; [|discriminate].
  rewrite dirsAlong_mkdir in H by assumption.
  rewrite present_snoc in H by assumption. rewrite F2, Fit in H.
  cbn [andb] in H.
  destruct (fs1 (Path.locate cwd d2 ++ [f])) eqn:Free; [discriminate|].
  destruct (Fs.renameSync cwd _ _ fs1) as [[[]|e] fs3] eqn:R; [|discriminate].
  injection H as Hs Hd Hf. subst src dst fs3.
  rewrite locate_name in Src by assumption.
  pose proof (grows_keeps _ _ _ _ G Src) as Src1.
  assert (Fit1 : Fs.fits (d1 ++ [f]) = true) by (now rewrite fits_snoc, F1, Fit).
  assert (Fit2 : Fs.fits (d2 ++ [f]) = true) by (now rewrite fits_snoc, F2, Fit).
  rewrite (renameSync_file cwd fs1 d1 d2 f f content L L Fit1 Fit2 Src1) in R;
    [|now apply dirsAlong_stat|exact Free].
  injection R as R. subst fs'.
  set (l1 := Path.locate cwd d1) in *. set (l2 := Path.locate cwd d2) in *.
  set (fs2 := Fs.set (Fs.set fs1 (l1 ++ [f]) None) (l2 ++ [f])
                (Some (Fs.File content))).
  assert (Nsd : l1 ++ [f] <> l2 ++ [f]) by (intros K; congruence).
  assert (P2 : prologue cwd hint fs2 = (Ok ap, fs2))
    by (now apply (prologue_after_move _ _ fs fs1)).
  assert (Prov2 : provisioned cwd ap fs2) by (now apply provisioned_moved).
  assert (A : fs2 (l2 ++ [f]) = Some (Fs.File content)) by apply set_same.
  assert (B : fs2 (l1 ++ [f]) = None).
  { unfold fs2. rewrite set_other by exact Nsd. apply set_same. }
  eexists. split; [|split].
  - rewrite (callTool_after_prologue _ _ _ _ _ _ _ P2). simpl handler.
    rewrite move_eq, moveFileName_back, F. cbn [moveBack m_fromState m_toState].
    rewrite TaskState_eqb_sym, E. cbv zeta.
    rewrite !(join_name _ f S L). fold d1 d2.
    rewrite present_snoc by assumption. fold l2. rewrite F2, Fit, A.
    cbn [andb].
    rewrite dirsAlong_mkdir;
      [|exact F1|exact (proj2 (provisioned_directory _ _ _ task
                                 (m_fromState a) Prov2))].
    rewrite present_snoc by assumption. fold l1. rewrite B, andb_false_r.
    rewrite (renameSync_file cwd fs2 d2 d1 f f content L L Fit2 Fit1 A);
      [reflexivity| |exact B].
    apply dirsAlong_stat.
    exact (proj2 (provisioned_directory _ _ _ task (m_fromState a) Prov2)).
  - intros q. simpl snd. fold l1 l2.
    destruct (list_eq_dec string_dec q (l1 ++ [f])) as [->|N1];
      [now rewrite set_same|].
    rewrite set_other by exact N1.
    destruct (list_eq_dec string_dec q (l2 ++ [f])) as [->|N2];
      [now rewrite set_same|].
    rewrite set_other by exact N2. unfold fs2.
    now rewrite !set_other by assumption.
  - intros q c. fold l1 l2.
    assert (K : Fs.set (Fs.set fs2 (l2 ++ [f]) None) (l1 ++ [f])
                  (Some (Fs.File content)) q = fs1 q).
    { destruct (list_eq_dec string_dec q (l1 ++ [f])) as [->|N1];
        [now rewrite set_same|].
      rewrite set_other by exact N1.
      destruct (list_eq_dec string_dec q (l2 ++ [f])) as [->|N2];
        [now rewrite set_same|].
      rewrite set_other by exact N2. unfold fs2.
      now rewrite !set_other by assumption. }
    rewrite K. apply (grows_sameFiles _ _ G).
Qed.

(** The file systems of the examples are well formed. *)
Lemma wellFormed_set_file fs p x data :
  wellFormed fs -> Fs.stat fs p = Some Fs.Dir -> fs (p ++ [x]) = None ->
  wellFormed (Fs.set fs (p ++ [x]) (Some (Fs.File data))).
Proof.
  intros W D Free q c H.
  destruct (list_eq_dec string_dec (q ++ [c]) (p ++ [x])) as [E|N].
  - apply app_inj_tail in E. destruct E as [-> _].
    rewrite stat_set_other by apply snoc_neq_self. exact D.
  - rewrite set_other in H by exact N. apply W in H.
    destruct (list_eq_dec string_dec q (p ++ [x])) as [->|N'].
    + rewrite stat_nonroot, Free in H. discriminate.
    + now rewrite stat_set_other.
Qed.

Lemma loop_wellFormed cwd ap dirs : forall fs res fs',
  wellFormed fs ->
  fold_right (fun dir rest => Fs.mkdirSync cwd (Path.join ap dir) ;;; rest)
    (Fs.ret ap) dirs fs = (res, fs') ->
  wellFormed fs'.
Proof.
  induction dirs as [|d dirs IH]; simpl; intros fs res fs' W H.
  - inversion H. now subst.
  - unfold Fs.bind at 1 in H.
    pose proof (mkdirSync_wellFormed cwd (Path.join ap d) fs W) as W2.
    destruct (Fs.mkdirSync cwd (Path.join ap d) fs) as [[[]|e] fs2] eqn:M;
      simpl in W2.
    + exact (IH _ _ _ W2 H).
    + inversion H. now subst.
Qed.

Lemma prologue_wellFormed cwd hint fs res fs1 :
  wellFormed fs -> prologue cwd hint fs = (res, fs1) -> wellFormed fs1.
Proof.
  intros W. unfold prologue, Fs.bind.
  destruct (findRepoRootPath_reads cwd hint fs) as [found ->].
  destruct found as [r|]; [|intros H; inversion H; now subst].
  unfold ensureAgelumStructure, Fs.bind at 1.
  pose proof (mkdirSync_wellFormed cwd (getAgelumPath r) fs W) as W2.
  destruct (Fs.mkdirSync cwd (getAgelumPath r) fs) as [[[]|e] fs2] eqn:M;
    simpl in W2.
  - apply loop_wellFormed. exact W2.
  - intros H. inversion H. now subst.
Qed.

Lemma demoFs2_wellFormed : wellFormed demoFs2.
Proof.
  pose proof demo_create as H.
  rewrite (callTool_after_prologue _ _ _ _ _ _ _ demo_prologue) in H.
  simpl handler in H.
  pose proof (prologue_wellFormed _ _ _ _ _ demoFs_wellFormed demo_prologue) as W.
  destruct (prologue_ok _ _ _ _ _ demo_prologue) as [r [_ [_ [_ [_ Prov]]]]].
  destruct (create_ok _ _ _ _ _ _ _ Prov H) as [f [data [F [E [Fit [Free ->]]]]]].
  destruct (createFileName_plain _ _ F) as [_ [L _]].
  rewrite E in *. rewrite locate_name in * by assumption.
  apply wellFormed_set_file; [exact W| |exact Free].
  apply dirsAlong_stat. now apply provisioned_directory.
Qed.

(** X15, at the task [fixBug], moved to [done] and back. *)
Lemma X15_witness :
  wellFormed demoFs2
  /\ callTool demoCwd None demoNow (Move (moveFixBug pending done)) demoFs2
     = (Ok (Moved fixBugPath fixBugDone),
        snd (callTool demoCwd None demoNow (Move (moveFixBug pending done))
               demoFs2))
  /\ exists fs'',
       callTool demoCwd None demoNow (Move (moveBack (moveFixBug pending done)))
         (snd (callTool demoCwd None demoNow (Move (moveFixBug pending done))
                 demoFs2))
       = (Ok (Moved fixBugDone fixBugPath), fs'')
       /\ sameFiles demoFs2 fs''.
Proof.
  assert (H : callTool demoCwd None demoNow (Move (moveFixBug pending done)) demoFs2
              = (Ok (Moved fixBugPath fixBugDone),
                 snd (callTool demoCwd None demoNow
                        (Move (moveFixBug pending done)) demoFs2)))
    by (apply pair_fst_snd; vm_compute; reflexivity).
  assert (F : moveFileName (moveFixBug pending done)
              = Ok "03 Fix bug (5).md"%string) by (vm_compute; reflexivity).
  assert (S : exists content,
                demoFs2 (Path.locate demoCwd fixBugPath) = Some (Fs.File content))
    by (eexists; vm_compute; reflexivity).
  split; [exact demoFs2_wellFormed|]. split; [exact H|].
  destruct S as [content S].
  destruct (X15_move_there_and_back demoCwd None demoNow demoNow
              (moveFixBug pending done) demoFs2 _ fixBugPath fixBugDone
              _ content demoFs2_wellFormed F eq_refl S H)
    as [fs'' [H2 [_ Same]]].
  exists fs''. split; [exact H2|exact Same].
Defined.

(** ** [create], then [move] *)

(** X16. A task that [create] has put under a derived name can be
    moved by its fields: the [move] from the state it was created in,
    with the same title, priority and story points, takes the file just
    written to the directory of the other state and changes no other
    place; if something is at the target path already it fails with
    [TargetExists] and changes nothing. *)
Theorem X16_move_after_create (cwd : Path.path) (hint : option string)
        (now now2 : string) (c : CreateArgs) (m : MoveArgs) (fs fs2 : Fs.t)
        (p : Path.path) :
  wellFormed fs ->
  c_type c = task -> c_fileName c = None -> m_fileName m = None ->
  m_title m = Some (c_title c) ->
  m_priority m = c_priority c -> m_storyPoints m = c_storyPoints c ->
  m_fromState m = orDefault pending (c_state c) ->
  m_toState m <> m_fromState m ->
  callTool cwd hint now (Create c) fs = (Ok (Created p), fs2) ->
  exists r f,
    findRepoRootPath cwd hint fs = (Ok (Some r), fs)
    /\ createFileName c = Ok f
    /\ let dst := directoryOf (getAgelumPath r) task (m_toState m) ++ [f] in
       (fs2 (Path.locate cwd dst) = None ->
        exists fs3,
          callTool cwd hint now2 (Move m) fs2 = (Ok (Moved p dst), fs3)
          /\ fs3 (Path.locate cwd dst) = fs2 (Path.locate cwd p)
          /\ fs3 (Path.locate cwd p) = None
          /\ forall q, q <> Path.locate cwd p -> q <> Path.locate cwd dst ->
                       fs3 q = fs2 q)
       /\ (fs2 (Path.locate cwd dst) <> None ->
           callTool cwd hint now2 (Move m) fs2 = (Throw (TargetExists dst), fs2)).
Proof.
  intros W Ty Fc Fm Ti Pr Sp From Ne H.
  rewrite callTool_prologue in H. unfold Fs.bind at 1 in H.
  destruct (prologue cwd hint fs) as [[ap|e] fs1] eqn:P; [|discriminate].
  simpl handler in H.
  destruct (prologue_ok _ _ _ _ _ P) as [r [Root [_ [Eap [_ Prov]]]]].
  destruct (create_ok _ _ _ _ _ _ _ Prov H) as [f [data [F [-> [Fit [Free ->]]]]]].
  rewrite Ty in *. rewrite <- From in *.
  set (d1 := directoryOf ap task (m_fromState m)) in *.
  set (d2 := directoryOf ap task (m_toState m)).
  destruct (createFileName_plain _ _ F) as [S [L Ng]].
  destruct (provisioned_directory _ _ _ task (m_fromState m) Prov) as [F1 D1].
  destruct (provisioned_directory _ _ _ task (m_toState m) Prov) as [F2 D2].
  fold d1 in F1, D1. fold d2 in F2, D2.
  rewrite locate_name in * by assumption.
  set (l1 := Path.locate cwd d1) in *. set (l2 := Path.locate cwd d2) in *.
  assert (P2 : prologue cwd hint (Fs.set fs1 (l1 ++ [f]) (Some (Fs.File data)))
               = (Ok ap, Fs.set fs1 (l1 ++ [f]) (Some (Fs.File data))))
    by (now apply (prologue_after_write _ _ fs)).
  set (fs2 := Fs.set fs1 (l1 ++ [f]) (Some (Fs.File data))) in *.
  assert (Prov2 : provisioned cwd ap fs2) by (now apply provisioned_set_file).
  assert (Fmv : moveFileName m = Ok f)
    by (now apply (derived_name_move c m f)).
  assert (A : fs2 (l1 ++ [f]) = Some (Fs.File data)) by apply set_same.
  assert (Fit1 : Fs.fits (d1 ++ [f]) = true) by (now rewrite fits_snoc, F1, Fit).
  assert (Fit2 : Fs.fits (d2 ++ [f]) = true) by (now rewrite fits_snoc, F2, Fit).
  exists r, f. split; [exact Root|]. split; [exact F|].
  rewrite <- Eap. cbv zeta. fold d2.
  rewrite (locate_name cwd d2 f L). fold l2.
  rewrite (callTool_after_prologue _ _ _ _ _ _ _ P2). simpl handler.
  rewrite move_eq.
  destruct (TaskState_eqb (m_fromState m) (m_toState m)) eqn:E;
    [apply TaskState_eqb_eq in E; congruence|].
  rewrite Fmv. cbv zeta. rewrite !(join_name _ f S L). fold d1 d2.
  rewrite present_snoc by assumption. fold l1. rewrite F1, Fit, A. cbn [andb].
  rewrite dirsAlong_mkdir;
    [|exact F2|exact (proj2 (provisioned_directory _ _ _ task (m_toState m)
                               Prov2))].
  rewrite present_snoc by assumption. fold l2. rewrite F2, Fit. cbn [andb].
  split.
  - intros B. rewrite B.
    rewrite (renameSync_file cwd fs2 d1 d2 f f data L L Fit1 Fit2 A);
      [| |exact B].
    + eexists. split; [reflexivity|]. fold l1 l2.
      assert (Nsd : l1 ++ [f] <> l2 ++ [f]) by (intros K; congruence).
      split; [now rewrite set_same|]. split.
      * rewrite set_other by exact Nsd. apply set_same.
      * intros q N1 N2. now rewrite !set_other by assumption.
    + apply dirsAlong_stat.
      exact (proj2 (provisioned_directory _ _ _ task (m_toState m) Prov2)).
  - intros B. destruct (fs2 (l2 ++ [f])); [reflexivity|contradiction].
Qed.

(** X16, at the task [fixBug], created and then moved to [done]. *)
Lemma X16_witness :
  wellFormed demoFs
  /\ callTool demoCwd None demoNow (Create fixBug) demoFs
     = (Ok (Created fixBugPath), demoFs2)
  /\ exists fs3,
       callTool demoCwd None demoNow (Move (moveFixBug pending done)) demoFs2
       = (Ok (Moved fixBugPath fixBugDone), fs3)
       /\ fs3 (Path.locate demoCwd fixBugDone)
          = demoFs2 (Path.locate demoCwd fixBugPath).
Proof.
  split; [exact demoFs_wellFormed|]. split; [exact demo_create|].
  assert (Ne : done <> pending) by discriminate.
  destruct (X16_move_after_create demoCwd None demoNow demoNow fixBug
              (moveFixBug pending done) demoFs demoFs2 fixBugPath
              demoFs_wellFormed eq_refl eq_refl eq_refl eq_refl eq_refl
              eq_refl eq_refl Ne demo_create)
    as [r [f [R [F [Go _]]]]].
  assert (Er : r = Path.Computed demoRepo).
  { assert (K : findRepoRootPath demoCwd None demoFs
                = (Ok (Some (Path.Computed demoRepo)), demoFs))
      by (lazy; reflexivity).
    congruence. }
  assert (Ef : f = "03 Fix bug (5).md"%string).
  { assert (K : createFileName fixBug = Ok "03 Fix bug (5).md"%string)
      by (vm_compute; reflexivity).
    congruence. }
  subst r f.
  assert (Free : demoFs2 (Path.locate demoCwd fixBugDone) = None)
    by (vm_compute; reflexivity).
  destruct (Go Free) as [fs3 [M [D _]]].
  exists fs3. split; [exact M|exact D].
Defined.

(** X17, at the task [fixBug], created with no state and then looked
    up by its fields, with no state. *)
Lemma X17_witness :
  wellFormed demoFs
  /\ c_state fixBug = None /\ g_state getFixBugStateless = None
  /\ callTool demoCwd None demoNow (Create fixBug) demoFs
     = (Ok (Created fixBugPath), demoFs2)
  /\ callTool demoCwd None demoNow (Get getFixBugStateless) demoFs2
     = (Ok (Resolved fixBugPath true), demoFs2).
Proof.
  split; [exact demoFs_wellFormed|]. split; [reflexivity|].
  split; [reflexivity|]. split; [exact demo_create|].
  exact (get_after_create demoCwd None demoNow demoNow fixBug
           getFixBugStateless demoFs demoFs2 fixBugPath demoFs_wellFormed
           eq_refl eq_refl eq_refl eq_refl eq_refl eq_refl
           (or_introl eq_refl) demo_create).
Defined.

(** ** The directories of the store *)

(** X18. When [ensureAgelumStructure] returns, the store and its ten
    directories are there, only directories were added, and a second
    run returns the same path and changes nothing. *)
Theorem X18_ensure_idempotent (cwd : Path.path) (r : Path.text)
        (fs fs1 : Fs.t) (ap : Path.path) :
  ensureAgelumStructure cwd r fs = (Ok ap, fs1) ->
  ap = Path.read r ++ ["agelum"%string]
  /\ grows fs fs1
  /\ Fs.stat fs1 (Path.locate cwd ap) = Some Fs.Dir
  /\ (forall dir, In dir AGELUM_STRUCTURE ->
                  Fs.stat fs1 (Path.locate cwd (Path.join ap dir)) = Some Fs.Dir)
  /\ ensureAgelumStructure cwd r fs1 = (Ok ap, fs1).
Proof.
  intros H. destruct (ensure_made _ _ _ _ _ H) as [-> [F [P1 P2]]].
  split; [apply agelum_snoc|]. split; [exact (ensure_grows _ _ _ _ _ H)|].
  split; [now apply dirsAlong_stat|].
  split; [intros dir Hd; apply dirsAlong_stat; auto|].
  apply ensure_there. split; [|split]; assumption.
Qed.

(** X18, at the repository of the examples. *)
Lemma X18_witness :
  ensureAgelumStructure demoCwd (Path.Computed demoRepo) demoFs
  = (Ok demoAgelum, demoFs1)
  /\ ensureAgelumStructure demoCwd (Path.Computed demoRepo) demoFs1
     = (Ok demoAgelum, demoFs1).
Proof.
  assert (H : ensureAgelumStructure demoCwd (Path.Computed demoRepo) demoFs
              = (Ok demoAgelum, demoFs1))
    by (lazy; reflexivity).
  split; [exact H|].
  exact (proj2 (proj2 (proj2 (proj2 (X18_ensure_idempotent _ _ _ _ _ H))))).
Defined.

(** The directory of a type and a state, below the store. *)
Lemma directoryOf_parts ap type state :
  directoryOf ap type state
  = ap ++ match nonTaskTypeToDir type with
          | Some dir => [dir]
          | None => ["tasks"%string; stateName state]
          end.
Proof.
  unfold directoryOf.
  destruct type; cbn [nonTaskTypeToDir];
    try (apply join_name; [reflexivity|simpl; lia]).
  rewrite (join_name ap "tasks") by (reflexivity || (simpl; lia)).
  destruct state; (rewrite join_name; [now rewrite <- app_assoc|reflexivity|simpl; lia]).
Qed.

(** X19. Every document has its directory among the ten that are
    provisioned, and documents of two types, or tasks in two states,
    never share a directory. *)
Theorem X19_directories_apart (ap : Path.path) :
  (forall type state, exists dir,
      In dir AGELUM_STRUCTURE /\ directoryOf ap type state = Path.join ap dir)
  /\ (forall t1 s1 t2 s2,
        directoryOf ap t1 s1 = directoryOf ap t2 s2 ->
        t1 = t2 /\ (t1 = task -> s1 = s2)).
Proof.
  split; [intros; apply directoryOf_structure|].
  intros t1 s1 t2 s2. rewrite !directoryOf_parts. intros H.
  apply app_inv_head in H. revert H.
  destruct t1, t2; cbn [nonTaskTypeToDir]; try discriminate;
    try (split; [reflexivity|discriminate]).
  destruct s1, s2; try discriminate; auto.
Qed.

(** ** The fields a task's file name holds *)

Lemma numberChar_digit c : isDigit c = true -> numberChar c = true.
Proof. unfold numberChar. now intros ->. Qed.

Lemma layout_numberChars ds n :
  allChars numberChar ds = true -> allChars numberChar (JS.layout ds n) = true.
Proof.
  intros D. unfold JS.layout.
  destruct (_ && _).
  { rewrite allChars_app, D. now apply allChars_repeatChar. }
  destruct (_ && _).
  { rewrite !allChars_app, !allChars_substring by assumption. reflexivity. }
  destruct (_ && _).
  { change (allChars numberChar (JS.repeatChar "0" (Z.to_nat (- n)) ++ ds) = true).
    rewrite allChars_app, D, andb_true_r.
    now apply allChars_repeatChar. }
  assert (E : allChars numberChar (JS.decimal (Z.to_N (Z.abs (n - 1)))) = true).
  { eapply allChars_impl; [exact numberChar_digit|apply decimal_spec]. }
  rewrite !allChars_app, E, andb_true_r.
  assert (S : allChars numberChar (if (0 <=? n - 1)%Z then "+" else "-")%string = true)
    by now destruct (0 <=? n - 1)%Z.
  rewrite S, !andb_true_r.
  destruct ds as [|d [|e r]]; [reflexivity|exact D|].
  simpl in *. apply andb_true_iff in D. destruct D as [-> D]. exact D.
Qed.

Lemma toString_numberChars x : allChars numberChar (JS.toString x) = true.
Proof.
  assert (P : forall m e, allChars numberChar (JS.toStringPos m e) = true).
  { intros m e. unfold JS.toStringPos.
    destruct (JS.shortest m e) as [[s j]|]; [|reflexivity].
    apply layout_numberChars.
    eapply allChars_impl; [exact numberChar_digit|apply decimal_spec]. }
  destruct x as [s|[]| |[] m e]; try reflexivity; simpl JS.toString.
  - change (allChars numberChar (String "-" (JS.toStringPos m e)) = true).
    simpl. apply P.
  - apply P.
Qed.

Lemma split_unique_last (c : ascii) a1 : forall a2 b1 b2,
  allChars (fun x => negb (x =? c)%char) b1 = true ->
  allChars (fun x => negb (x =? c)%char) b2 = true ->
  (a1 ++ String c b1)%string = (a2 ++ String c b2)%string ->
  a1 = a2 /\ b1 = b2.
Proof.
  assert (K : forall a b, allChars (fun x => negb (x =? c)%char)
                            (a ++ String c b) = false).
  { intros a b. rewrite allChars_app. simpl. rewrite Ascii.eqb_refl.
    simpl. apply andb_false_r. }
  induction a1 as [|x a1 IH]; intros [|y a2] b1 b2 H1 H2 E; simpl in *.
  - inversion E. auto.
  - inversion E. subst. rewrite K in H1. discriminate.
  - inversion E. subst. rewrite K in H2. discriminate.
  - inversion E. subst. destruct (IH a2 b1 b2) as [-> ->]; auto.
Qed.

(** X9. The file name of a task holds its three fields apart: two
    tasks share a file name only if their titles sanitise to the same
    text, their priorities are written with the same digits and their
    story points with the same text. *)
Theorem X9_task_name_fields (t1 t2 : string) (p1 p2 s1 s2 : JS.number)
        (f : string) :
  buildFileName task t1 (Some p1) (Some s1) = Ok f ->
  buildFileName task t2 (Some p2) (Some s2) = Ok f ->
  formatPriority p1 = formatPriority p2
  /\ sanitizeFileNamePart t1 = sanitizeFileNamePart t2
  /\ formatStoryPoints s1 = formatStoryPoints s2.
Proof.
  intros B1 B2.
  destruct (buildFileName_task_ok _ _ _ _ B1) as [pr1 [P1 E1]].
  destruct (buildFileName_task_ok _ _ _ _ B2) as [pr2 [P2 E2]].
  rewrite P1, P2. rewrite E1 in E2. clear E1 B1 B2.
  assert (NoSpace : forall x pr, formatPriority x = Ok pr ->
            allChars (fun c => negb (c =? " ")%char) pr = true).
  { intros x pr H. destruct (formatPriority_plain _ _ H) as [A _].
    revert A. apply allChars_impl. intros c Hc.
    now rewrite (plainChar_not_space c Hc). }
  assert (NoParen : forall s, allChars (fun c => negb (c =? "(")%char)
                                (formatStoryPoints s ++ ").md") = true).
  { intros s. rewrite allChars_app. rewrite andb_true_iff. split; [|reflexivity].
    unfold formatStoryPoints.
    assert (A : allChars numberChar (JS.toString s) = true)
      by apply toString_numberChars.
    destruct (JS.isInteger s); revert A; apply allChars_impl;
      intros c; unfold numberChar, isDigit;
      destruct (Ascii.eqb_spec c "(") as [->|]; try reflexivity; discriminate. }
  change (pr1 ++ String " " (sanitizeFileNamePart t1 ++ " (" ++ formatStoryPoints s1 ++ ").md")
          = pr2 ++ String " " (sanitizeFileNamePart t2 ++ " (" ++ formatStoryPoints s2 ++ ").md"))%string
    in E2.
  destruct (split_unique " " _ _ _ _ (NoSpace _ _ P1) (NoSpace _ _ P2) E2)
    as [-> E3].
  split; [reflexivity|].
  assert (E4 : ((sanitizeFileNamePart t1 ++ " ")
                  ++ String "(" (formatStoryPoints s1 ++ ").md")
                = (sanitizeFileNamePart t2 ++ " ")
                  ++ String "(" (formatStoryPoints s2 ++ ").md"))%string).
  { rewrite !append_assoc. exact E3. }
  destruct (split_unique_last "(" _ _ _ _ (NoParen s1) (NoParen s2) E4)
    as [T S].
  split; [exact (append_inv_tail _ _ _ T)|exact (append_inv_tail _ _ _ S)].
Qed.

(** X9, at two tasks that share a file name: the titles differ in
    their white space only, and 3 and 3.5 are written with the same
    digits. *)
Lemma X9_witness :
  buildFileName task "Fix bug" (Some three) (Some five)
  = Ok "03 Fix bug (5).md"%string
  /\ buildFileName task "Fix  bug " (Some threeAndHalf) (Some five)
     = Ok "03 Fix bug (5).md"%string
  /\ formatPriority three = formatPriority threeAndHalf
  /\ sanitizeFileNamePart "Fix bug" = sanitizeFileNamePart "Fix  bug ".
Proof.
  assert (B1 : buildFileName task "Fix bug" (Some three) (Some five)
               = Ok "03 Fix bug (5).md"%string) by (vm_compute; reflexivity).
  assert (B2 : buildFileName task "Fix  bug " (Some threeAndHalf) (Some five)
               = Ok "03 Fix bug (5).md"%string) by (vm_compute; reflexivity).
  split; [exact B1|]. split; [exact B2|].
  pose (H := X9_task_name_fields _ _ _ _ _ _ _ B1 B2).
  split; [exact (proj1 H)|exact (proj1 (proj2 H))].
Defined.

(** ** Where an error comes from *)

Lemma ensure_errors cwd r fs e fs' :
  ensureAgelumStructure cwd r fs = (Throw e, fs') ->
  exists code p, e = FsError code p.
Proof.
  unfold ensureAgelumStructure, Fs.bind.
  destruct (Fs.mkdirSync cwd (getAgelumPath r) fs) as [[[]|e0] fs0] eqn:E.
  - generalize AGELUM_STRUCTURE, fs0. clear E.
    induction l as [|d l IH]; simpl; intros fs2 H; [discriminate|].
    unfold Fs.bind in H.
    destruct (Fs.mkdirSync cwd (Path.join (getAgelumPath r) d) fs2)
      as [[[]|e1] fs3] eqn:E1; [eauto|].
    inversion H; subst. apply mkdirSync_errors in E1. destruct E1; eauto.
  - intros H. inversion H; subst. apply mkdirSync_errors in E.
    destruct E; eauto.
Qed.

Lemma prologue_root_not_found cwd hint fs fs1 :
  prologue cwd hint fs = (Throw RootNotFound, fs1) ->
  findRepoRootPath cwd hint fs = (Ok None, fs) /\ fs1 = fs.
Proof.
  unfold prologue, Fs.bind. intros H.
  destruct (findRepoRootPath_reads cwd hint fs) as [found F].
  rewrite F in H. destruct found as [r|].
  - destruct (ensure_errors _ _ _ _ _ H) as [code [p K]]. discriminate.
  - split; [exact F|]. unfold Fs.throw in H. congruence.
Qed.

(** An error of [writeFileSync] names the path the call was given. *)
Lemma writeFileSync_errors cwd p data fs e fs' :
  Fs.writeFileSync cwd p data fs = (Throw e, fs') ->
  exists code, e = FsError code p.
Proof.
  unfold Fs.writeFileSync.
  destruct (Fs.fits p); cbn [negb]; [|intros H; inversion H; eauto].
  destruct (Fs.stat fs (Path.locate cwd p)) as [[c|]|];
    destruct (Fs.stat fs (removelast (Path.locate cwd p))) as [[d|]|];
    intros H; inversion H; eauto.
Qed.

Lemma create_throws cwd now ap a fs1 e fs2 :
  create cwd now ap a fs1 = (Throw e, fs2) ->
  (c_fileName a = None
   /\ (e = InvalidTitle \/ e = PriorityRequired \/ e = StoryPointsRequired
       \/ e = InvalidPriority))
  \/ (exists p, e = AlreadyExists p)
  \/ e = InvalidPriority
  \/ (exists code q, e = FsError code q).
Proof.
  rewrite create_eq.
  destruct (createFileName a) as [f|e'] eqn:F.
  - cbv zeta.
    destruct (Fs.mkdirSync cwd _ fs1) as [[[]|e'] fs3] eqn:M.
    + destruct (present cwd fs3 _); [intros H; inversion H; eauto|].
      destruct (buildFrontmatter_outcome now (c_type a) (c_title a)
                  (orDefault pending (c_state a)) (c_priority a)
                  (c_storyPoints a)) as [[fm B]|[B _]]; rewrite B.
      * destruct (Fs.writeFileSync cwd _ _ fs3) as [[[]|e'] fs4] eqn:Wr;
          [discriminate|].
        intros H. inversion H. subst.
        right. right. right. apply writeFileSync_errors in Wr.
        destruct Wr; eauto.
      * intros H. inversion H. auto.
    + intros H. inversion H. subst.
      right. right. right. apply mkdirSync_errors in M. destruct M; eauto.
  - intros H. inversion H. subst. left.
    now apply createFileName_errors.
Qed.

Lemma moveFileName_throws a e :
  moveFileName a = Throw e ->
  truthyOpt (m_fileName a) = false
  /\ (e = TitleOrFileNameRequired \/ e = InvalidTitle \/ e = PriorityRequired
      \/ e = StoryPointsRequired \/ e = InvalidPriority).
Proof.
  unfold moveFileName.
  destruct (truthyOpt (m_fileName a)); cbn [negb]; [discriminate|].
  destruct (JS.truthy (orDefault "" (m_title a))); cbn [negb];
    [|intros H; inversion H; auto].
  destruct (buildFileName _ _ _ _) as [name|e'] eqn:B; [discriminate|].
  intros H. inversion H. subst e'. split; [reflexivity|].
  destruct (buildFileName_errors _ _ _ _ _ B) as [K|[[_ [_ K]]|[_ K]]]; tauto.
Qed.

Lemma move_throws cwd ap a fs1 e fs2 :
  move cwd ap a fs1 = (Throw e, fs2) ->
  e = InvalidTransition
  \/ (truthyOpt (m_fileName a) = false
      /\ (e = TitleOrFileNameRequired \/ e = InvalidTitle
          \/ e = PriorityRequired \/ e = StoryPointsRequired
          \/ e = InvalidPriority))
  \/ (exists p, e = SourceNotFound p)
  \/ (exists p, e = TargetExists p)
  \/ (exists code q, e = FsError code q).
Proof.
  rewrite move_eq.
  destruct (TaskState_eqb _ _); [intros H; inversion H; auto|].
  destruct (moveFileName a) as [f|e'] eqn:F.
  - cbv zeta. destruct (present cwd fs1 _); [|intros H; inversion H; eauto 6].
    destruct (Fs.mkdirSync cwd _ fs1) as [[[]|e'] fs3] eqn:M.
    + destruct (present cwd fs3 _); [intros H; inversion H; eauto 6|].
      destruct (Fs.renameSync cwd _ _ fs3) as [[[]|e'] fs4] eqn:R;
        [discriminate|].
      intros H. inversion H. subst.
      right. right. right. right. eapply renameSync_errors, R.
    + intros H. inversion H. subst.
      right. right. right. right. apply mkdirSync_errors in M.
      destruct M; eauto.
  - intros H. inversion H. subst. right. left.
    now apply moveFileName_throws.
Qed.

(** Case analysis over the errors of a call. *)
Ltac provenance :=
  repeat match goal with
         | |- _ /\ _ => split
         | |- _ <> _ => intro
         | |- forall _, _ => intro
         | H : _ /\ _ |- _ => destruct H
         | H : exists _, _ |- _ => destruct H
         | H : _ \/ _ |- _ => destruct H
         end;
  subst; try discriminate; try congruence; eauto 8.

(** X20. What the error of a call tells.  No call ever fails for a
    missing state or for a file name it could not resolve.
    [RootNotFound] means that no root was found, and then nothing was
    touched.  [UnknownOperation] comes from an unknown tool only,
    [AlreadyExists] from [create] only, [InvalidTransition],
    [SourceNotFound] and [TargetExists] from [move] only, a missing
    title or file name from [move] and [get] only, and a missing
    priority or missing story points only from a [create] or a [move]
    without a file name. *)
Theorem X20_error_provenance (cwd : Path.path) (hint : option string)
        (now : string) (req : request) (fs fs' : Fs.t) (e : error) :
  callTool cwd hint now req fs = (Throw e, fs') ->
  e <> StateRequired /\ e <> UnresolvableFileName
  /\ (e = RootNotFound ->
      findRepoRootPath cwd hint fs = (Ok None, fs) /\ fs' = fs)
  /\ (forall name, e = UnknownOperation name -> req = Other name)
  /\ (forall p, e = AlreadyExists p -> exists a, req = Create a)
  /\ (e = InvalidTransition \/ (exists p, e = SourceNotFound p)
      \/ (exists p, e = TargetExists p) ->
      exists a, req = Move a)
  /\ (e = TitleOrFileNameRequired ->
      (exists a, req = Move a) \/ (exists a, req = Get a))
  /\ (e = PriorityRequired \/ e = StoryPointsRequired ->
      (exists a, req = Create a /\ c_fileName a = None)
      \/ (exists a, req = Move a /\ truthyOpt (m_fileName a) = false)).
Proof.
  intros H. rewrite callTool_prologue in H. unfold Fs.bind at 1 in H.
  destruct (prologue cwd hint fs) as [[ap|e0] fs1] eqn:P.
  - destruct req as [a|a|a|name]; simpl handler in H.
    + pose proof (create_throws _ _ _ _ _ _ _ H) as K. clear H P. provenance.
    + pose proof (move_throws _ _ _ _ _ _ H) as K. clear H P. provenance.
    + rewrite get_eq in H.
      destruct (getFileName a) as [f|e1] eqn:G.
      * cbv zeta in H. destruct (find _ _); discriminate.
      * inversion H. subst e1 fs1.
        pose proof (getFileName_errors _ _ G) as K. clear H P G. provenance.
    + inversion H. subst. clear H P. provenance.
  - inversion H. subst e0 fs1. clear H.
    destruct (prologue_errors _ _ _ _ _ P) as [->|[code [p ->]]].
    + pose proof (prologue_root_not_found _ _ _ _ P) as K. clear P. provenance.
    + clear P. provenance.
Qed.

(** X20, at a second [create] of the task [fixBug]. *)
Lemma X20_witness :
  callTool demoCwd None demoNow (Create fixBugAgain) demoFs2
  = (Throw (AlreadyExists fixBugPath), demoFs2)
  /\ exists a, Create fixBugAgain = Create a.
Proof.
  assert (H : callTool demoCwd None demoNow (Create fixBugAgain) demoFs2
              = (Throw (AlreadyExists fixBugPath), demoFs2)).
  { lazy. reflexivity. }
  split; [exact H|].
  exact (proj1 (proj2 (proj2 (proj2 (proj2
           (X20_error_provenance _ _ _ _ _ _ _ H))))) fixBugPath eq_refl).
Defined.

(** ** One store for every call *)

Lemma prologue_again cwd hint fs fs1 ap :
  wellFormed fs -> prologue cwd hint fs = (Ok ap, fs1) ->
  prologue cwd hint fs1 = (Ok ap, fs1).
Proof.
  intros W P.
  destruct (prologue_ok _ _ _ _ _ P) as [r [Root [En [Eap [G Prov]]]]].
  unfold prologue. run.
  rewrite (findRepoRootPath_ext cwd hint fs fs1 r); [| | | |exact Root].
  - subst ap. now apply ensure_there.
  - intros d. apply (prologue_hasGit _ _ _ _ _ W P d).
  - intros q Hq. exact (grows_stat _ _ _ _ G Hq).
  - apply (prologue_root_dir _ _ _ _ _ _ Root En).
    now apply (prologue_root _ hint).
Qed.

(** X21. The calls of a session work on one store: in a well-formed
    file system, after a call whose prologue returned, the prologue of
    the next call returns the same store and has nothing left to do,
    whatever the call was and however it ended; for a [move] that
    returned this is shown when it moved a file under a name without a
    slash. *)
Theorem X21_store_is_stable (cwd : Path.path) (hint : option string)
        (now : string) (req : request) (fs fs1 fs' : Fs.t) (ap : Path.path)
        (r : result reply) :
  wellFormed fs ->
  prologue cwd hint fs = (Ok ap, fs1) ->
  callTool cwd hint now req fs = (r, fs') ->
  (forall a src dst,
     req = Move a -> r = Ok (Moved src dst) ->
     (exists content, fs (Path.locate cwd src) = Some (Fs.File content))
     /\ exists f, moveFileName a = Ok f /\ allChars notSlash f = true) ->
  prologue cwd hint fs' = (Ok ap, fs').
Proof.
  intros W P H Hm.
  pose proof (prologue_again _ _ _ _ _ W P) as Again.
  destruct (prologue_ok _ _ _ _ _ P) as [root [_ [_ [_ [G Prov]]]]].
  rewrite (callTool_after_prologue _ _ _ _ _ _ _ P) in H.
  destruct req as [a|a|a|name]; simpl handler in H.
  - rewrite (create_after_prologue _ _ _ _ _ Prov) in H.
    destruct (createFileName a) as [f|e] eqn:F; [|now inversion H; subst].
    cbv zeta in H.
    destruct (createFileName_plain _ _ F) as [_ [L Ng]].
    destruct (Fs.nameFits f);
      [|destruct (buildFrontmatter _ _ _ _ _ _); now inversion H; subst].
    rewrite locate_name in H by assumption.
    destruct (fs1 _) eqn:Free; [now inversion H; subst|].
    destruct (buildFrontmatter _ _ _ _ _ _) as [fm|e];
      [|now inversion H; subst].
    inversion H. subst r fs'.
    now apply (prologue_after_write _ _ fs).
  - rewrite move_eq in H.
    destruct (TaskState_eqb _ _); [now inversion H; subst|].
    destruct (moveFileName a) as [f|e] eqn:F; [|now inversion H; subst].
    cbv zeta in H.
    destruct (present cwd fs1 _) eqn:There; [|now inversion H; subst].
    destruct (provisioned_directory _ _ _ task (m_fromState a) Prov) as [F1 D1].
    destruct (provisioned_directory _ _ _ task (m_toState a) Prov) as [F2 D2].
    rewrite dirsAlong_mkdir in H by assumption.
    destruct (present cwd fs1 (Path.join (directoryOf ap task (m_toState a)) f))
      eqn:Taken; [now inversion H; subst|].
    destruct (Fs.renameSync cwd _ _ fs1) as [[[]|e] fs3] eqn:R.
    + inversion H. subst r fs3.
      destruct (Hm a _ _ eq_refl eq_refl) as [[content Src] [f' [F' S]]].
      rewrite F in F'. inversion F'. subst f'.
      destruct (moveFileName_ensure _ _ F) as [name Ef].
      assert (L : (3 <= String.length f)%nat)
        by (rewrite Ef; apply ensureMd_length).
      assert (Ng : f <> ".git"%string) by (rewrite Ef; apply ensureMd_not_git).
      rewrite !(join_name _ f S L) in *.
      rewrite locate_name in Src by assumption.
      pose proof (grows_keeps _ _ _ _ G Src) as Src1.
      destruct (renameSync_fits _ _ _ _ _ R) as [Fit1 Fit2].
      assert (Fit : Fs.nameFits f = true).
      { rewrite fits_snoc in Fit1. apply andb_true_iff in Fit1. tauto. }
      rewrite present_snoc in Taken by assumption.
      rewrite F2, Fit in Taken. cbn [andb] in Taken.
      destruct (fs1 (Path.locate cwd (directoryOf ap task (m_toState a)) ++ [f]))
        eqn:Free; [discriminate|].
      rewrite (renameSync_file cwd fs1 _ _ f f content L L Fit1 Fit2 Src1) in R;
        [|now apply dirsAlong_stat|exact Free].
      inversion R.
      now apply (prologue_after_move _ _ fs fs1).
    + inversion H. subst. now rewrite (renameSync_throws _ _ _ _ _ _ R).
  - rewrite get_eq in H.
    destruct (getFileName a) as [f|e]; [|now inversion H; subst].
    cbv zeta in H. destruct (find _ _); now inversion H; subst.
  - inversion H. now subst.
Qed.

(** X21, at the [create] of the task [fixBug]. *)
Lemma X21_witness :
  wellFormed demoFs
  /\ prologue demoCwd None demoFs = (Ok demoAgelum, demoFs1)
  /\ callTool demoCwd None demoNow (Create fixBug) demoFs
     = (Ok (Created fixBugPath), demoFs2)
  /\ prologue demoCwd None demoFs2 = (Ok demoAgelum, demoFs2).
Proof.
  split; [exact demoFs_wellFormed|]. split; [exact demo_prologue|].
  split; [exact demo_create|].
  apply (X21_store_is_stable _ _ _ _ _ _ _ _ _ demoFs_wellFormed
           demo_prologue demo_create).
  intros a src dst E. discriminate E.
Defined.

(** ** The order of the priorities *)

Lemma digitChar_digitOf c : isDigit c = true -> JS.digitChar (digitOf c) = c.
Proof.
  destruct c as [[] [] [] [] [] [] [] []]; try discriminate; reflexivity.
Qed.

Lemma digitOf_bounds c :
  isDigit c = true ->
  (digitOf c < 10)%N /\ (c <> "0"%char -> (1 <= digitOf c)%N).
Proof.
  destruct c as [[] [] [] [] [] [] [] []]; try discriminate; intros _;
    (split; [vm_compute; reflexivity|]); intros H;
    try (exfalso; apply H; reflexivity); vm_compute; discriminate.
Qed.

Lemma valueFrom_lower s : forall v,
  (v * 10 ^ N.of_nat (String.length s) <= valueFrom v s)%N.
Proof.
  induction s as [|c s IH]; intros v.
  - rewrite valueFrom_nil. simpl. lia.
  - rewrite valueFrom_cons. specialize (IH (10 * v + digitOf c)%N).
    cbn [String.length]. rewrite Nat2N.inj_succ, N.pow_succ_r'. nia.
Qed.

(** The two characters of a priority below 100. *)
Lemma two_digits t n :
  allChars isDigit t = true -> plainHead t -> valueFrom 0 t = n ->
  (n < 100)%N ->
  JS.padStart 2 "0" t
  = String (JS.digitChar (n / 10)) (String (JS.digitChar (n mod 10)) "").
Proof.
  intros D [c [rest [E Hd]]] V Small. subst t.
  simpl in D. apply andb_true_iff in D. destruct D as [Dc D].
  destruct (digitOf_bounds c Dc) as [Bc Pc].
  rewrite valueFrom_cons in V. rewrite N.mul_0_r, N.add_0_l in V.
  destruct rest as [|c2 rest].
  - rewrite valueFrom_nil in V. subst n.
    rewrite N.div_small, N.mod_small by exact Bc.
    now rewrite digitChar_digitOf.
  - simpl in D. apply andb_true_iff in D. destruct D as [Dc2 D].
    destruct (digitOf_bounds c2 Dc2) as [Bc2 _].
    rewrite valueFrom_cons in V.
    destruct rest as [|c3 rest].
    + rewrite valueFrom_nil in V. subst n.
      assert (Q : ((10 * digitOf c + digitOf c2) / 10 = digitOf c)%N).
      { symmetry. apply (N.div_unique _ 10 _ (digitOf c2)); lia. }
      assert (R : ((10 * digitOf c + digitOf c2) mod 10 = digitOf c2)%N).
      { symmetry. apply (N.mod_unique _ 10 (digitOf c)); lia. }
      rewrite Q, R. now rewrite !digitChar_digitOf.
    + exfalso.
      assert (P : (1 <= digitOf c)%N) by (apply Pc; intros K; now apply Hd).
      pose proof (valueFrom_lower (String c3 rest)
                    (10 * digitOf c + digitOf c2)%N) as L.
      cbn [String.length] in L. rewrite Nat2N.inj_succ, N.pow_succ_r' in L.
      assert (10 ^ N.of_nat (String.length rest) <> 0)%N
        by (apply N.pow_nonzero; lia).
      nia.
Qed.

Lemma two_digits_order n m :
  (n < 100)%N -> (m < 100)%N ->
  String.compare
    (String (JS.digitChar (n / 10)) (String (JS.digitChar (n mod 10)) ""))
    (String (JS.digitChar (m / 10)) (String (JS.digitChar (m mod 10)) ""))
  = (n ?= m)%N.
Proof.
  intros Hn Hm.
  assert (A : forallb (fun a => forallb (fun b =>
                match String.compare
                        (String (JS.digitChar (N.of_nat a / 10))
                           (String (JS.digitChar (N.of_nat a mod 10)) ""))
                        (String (JS.digitChar (N.of_nat b / 10))
                           (String (JS.digitChar (N.of_nat b mod 10)) "")),
                      (N.of_nat a ?= N.of_nat b)%N with
                | Eq, Eq | Lt, Lt | Gt, Gt => true
                | _, _ => false
                end) (seq 0 100)) (seq 0 100) = true)
    by (vm_compute; reflexivity).
  rewrite forallb_forall in A.
  specialize (A (N.to_nat n)). rewrite forallb_forall in A.
  specialize (A ltac:(apply in_seq; lia) (N.to_nat m) ltac:(apply in_seq; lia)).
  rewrite !N2Nat.id in A.
  destruct (String.compare _ _), (n ?= m)%N; try discriminate; reflexivity.
Qed.

(** X22. The two characters of the priority put the file names in the
    order of the priorities: for two valid priorities whose integer
    parts are below 100, the formatted texts compare, character by
    character, as the integer parts do. *)
Theorem X22_priority_order (x y : JS.number) (px py : string) :
  JS.binary64 x -> JS.binary64 y ->
  formatPriority x = Ok px -> formatPriority y = Ok py ->
  (integerPart x < 100)%Z -> (integerPart y < 100)%Z ->
  String.compare px py = (integerPart x ?= integerPart y)%Z.
Proof.
  intros Bx By Px Py Sx Sy.
  destruct (formatPriority_ok _ _ Px) as [Fx [Nx ->]].
  destruct (formatPriority_ok _ _ Py) as [Fy [Ny ->]].
  destruct (toString_trunc_digits x Bx Fx Nx) as [Dx [Vx Hx]]; [lia|].
  destruct (toString_trunc_digits y By Fy Ny) as [Dy [Vy Hy]]; [lia|].
  rewrite (two_digits _ _ Dx Hx eq_refl) by lia.
  rewrite (two_digits _ _ Dy Hy eq_refl) by lia.
  rewrite two_digits_order by lia.
  rewrite <- Vx, <- Vy. symmetry. apply N2Z.inj_compare.
Qed.

(** X22, at the priorities 3 and 5. *)
Lemma X22_witness :
  JS.binary64 three /\ JS.binary64 five
  /\ formatPriority three = Ok "03"%string
  /\ formatPriority five = Ok "05"%string
  /\ String.compare "03" "05" = Lt.
Proof.
  assert (Bx : JS.binary64 three) by reflexivity.
  assert (By : JS.binary64 five) by reflexivity.
  assert (Px : formatPriority three = Ok "03"%string) by (vm_compute; reflexivity).
  assert (Py : formatPriority five = Ok "05"%string) by (vm_compute; reflexivity).
  split; [exact Bx|]. split; [exact By|]. split; [exact Px|]. split; [exact Py|].
  exact (X22_priority_order three five _ _ Bx By Px Py eq_refl eq_refl).
Defined.

